(** * Query engine service: the document indexing pipeline

    A shallow embedding of [services/query_service.py] (LLM service) and a
    verification of its build pipeline: [query_engine_build],
    [build_doc_index], [_process_documents], [_generate_index_data],
    [_get_embedding_batched] and [_encode_texts_to_embeddings].

    Python exceptions are values of [exn]; a function that can raise returns
    a [result].  Code that touches the metadata store, the local file system
    or the staging bucket runs in the monad [M], a state monad in which a
    raised exception keeps the state reached so far (as in Python, where the
    writes made before a [raise] stay made).  Everything the cloud services
    and third-party libraries answer is read from a [World]. *)
From Stdlib Require Import List Arith PeanoNat Lia Bool String Ascii QArith.

Import ListNotations.

Close Scope Q_scope.

Open Scope string_scope.

Open Scope list_scope.

Open Scope nat_scope.

(* ################################################################## *)
(** * Part I: the program and the notions used to specify it *)

(* ================================================================== *)
(** ** Module constants *)

(* number of text chunks to process into an embeddings file *)
Definition MAX_NUM_TEXT_CHUNK_PROCESS : nat := 1000.

(* text chunk size for embedding data *)
Definition CHUNK_SIZE : nat := 1000.

(* According to the docs, each request can process 5 instances per request *)
Definition ITEMS_PER_REQUEST : nat := 5.

(* embedding dimensions generated by TextEmbeddingModel *)
Definition DIMENSIONS : nat := 768.

(* ================================================================== *)
(** ** Exceptions and results *)

Inductive exn : Type :=
| ValidationError
| ResourceNotFoundException
| NoDocumentsIndexedException
| InternalServerError (cause : exn)   (* [raise InternalServerError(e) from e] *)
| ValueError                          (* numpy: [np.stack] of no array, or of arrays of unequal shape; [range] with step 0 *)
| IndexError                          (* numpy: boolean mask of the wrong length *)
| UnboundLocalError                   (* a local read before any assignment *)
| ExternalError (origin : string)     (* raised by a cloud client, a parser or the file system *)
| LoopBoundExceeded.                  (* marker of the embedding: never raised, see [_generate_index_data_bound] *)

Inductive result (A : Type) : Type :=
| Ok (a : A)
| Raise (e : exn).

Arguments Ok {A} a.

Arguments Raise {A} e.

Definition rbind {A B} (r : result A) (f : A -> result B) : result B :=
  match r with
  | Ok a => f a
  | Raise e => Raise e
  end.

(** The exception at the bottom of a chain of [raise ... from ...]. *)
Fixpoint root_cause (e : exn) : exn :=
  match e with
  | InternalServerError c => root_cause c
  | _ => e
  end.

(* ================================================================== *)
(** ** Strings, slices and paths *)

Fixpoint string_take (n : nat) (s : string) : string :=
  match n, s with
  | S n', String c r => String c (string_take n' r)
  | _, _ => EmptyString
  end.

Fixpoint string_drop (n : nat) (s : string) : string :=
  match n, s with
  | S n', String _ r => string_drop n' r
  | _, _ => s
  end.

(** [l[i:j]] for [0 <= i <= j]. *)
Definition slice {A} (l : list A) (i j : nat) : list A :=
  firstn (j - i) (skipn i l).

(** [s.split(sep)[-1]] for a one-character separator: what follows the last
    [sep], or all of [s] when there is none. *)
Fixpoint last_segment (sep : ascii) (s : string) : string :=
  match s with
  | EmptyString => EmptyString
  | String c r =>
      if Ascii.eqb c sep then last_segment sep r
      else
        match index 0 (String sep EmptyString) r with
        | Some _ => last_segment sep r
        | None => s
        end
  end.

Definition lower_ascii (c : ascii) : ascii :=
  let n := nat_of_ascii c in
  if (65 <=? n) && (n <=? 90) then ascii_of_nat (n + 32) else c.

(** [str.lower], on ASCII letters. *)
Fixpoint lower (s : string) : string :=
  match s with
  | EmptyString => EmptyString
  | String c r => String (lower_ascii c) (lower r)
  end.

(** Position of the last ["."] of [s], if any ([str.rfind]). *)
Fixpoint rfind_dot (s : string) : option nat :=
  match s with
  | EmptyString => None
  | String c r =>
      match rfind_dot r with
      | Some i => Some (S i)
      | None => if Ascii.eqb c "."%char then Some 0 else None
      end
  end.

(** [Path(p).stem]: the final path component without its last suffix; a
    leading or a trailing dot starts no suffix. *)
Definition path_stem (p : string) : string :=
  let name := last_segment "/"%char p in
  match rfind_dot name with
  | Some i =>
      if (0 <? i) && (i <? String.length name - 1) then string_take i name else name
  | None => name
  end.

(** [os.path.join(dir, name)] for a relative [name]. *)
Definition path_join (dir name : string) : string := dir ++ "/" ++ name.

(* ================================================================== *)
(** ** Data model (common.models) *)

(** An embedding as the service returns it ([embedding.values]); the
    coordinates are only ever copied and printed, never computed with. *)
Definition embedding : Type := list Q.

Record QueryEngine : Type := {
  qe_id : nat;
  qe_name : string;
  qe_created_by : string;
  qe_llm_type : string;
  qe_is_public : bool;
  qe_index_id : option string;
  qe_index_name : option string;
  qe_endpoint : option string
}.

Record QueryDocument : Type := {
  qd_id : nat;
  qd_query_engine_id : nat;
  qd_query_engine : string;
  qd_doc_url : string;
  qd_index_start : nat;
  qd_index_end : nat
}.

Record QueryDocumentChunk : Type := {
  qc_id : nat;
  qc_query_engine_id : nat;
  qc_query_document_id : nat;
  qc_index : nat;
  qc_text : string
}.

(** One line of an embeddings file: [{"id": str(idx), "embedding": [...]}]. *)
Record EmbRecord : Type := {
  rec_id : nat;
  rec_embedding : embedding
}.

(** The file [{doc_stem}_{index_base}_index.json] and its lines. *)
Record EmbFile : Type := {
  ef_doc_stem : string;
  ef_index_base : nat;
  ef_lines : list EmbRecord
}.

(** What [Logger.error] is called with. *)
Inductive LogEntry : Type :=
| LogUnsupported (doc_name ext : string)      (* "Cannot read ...: unsupported extension ..." *)
| LogNoContent (doc_name : string)            (* "no content read from ..." *)
| LogReadError (doc_name : string) (e : exn)  (* "error reading doc ..." *)
| LogDocIndexError (e : exn)                  (* "Error creating doc index ..." *)
| LogDeployError (e : exn).                   (* "Error creating ME index or endpoint ..." *)

(* ================================================================== *)
(** ** The outside world

    The answers of the storage client, the parsers, the text splitter, the
    embedding model and the Matching Engine during one build.  [None] (or
    [false]) stands for a call that raises. *)

Inductive BucketOutcome : Type :=
| BucketCreated      (* [create_bucket] succeeds *)
| BucketConflict     (* it raises [Conflict]: the bucket exists *)
| BucketFailure.     (* it raises something else *)

Record Blob : Type := {
  blob_name : string;
  blob_path : string
}.

Record World : Type := {
  (* config.DEFAULT_QUERY_EMBEDDING_MODEL *)
  DEFAULT_QUERY_EMBEDDING_MODEL : string;
  (* storage.Client(project=PROJECT_ID) *)
  storage_client_ok : bool;
  (* storage_client.create_bucket(bucket_name, location=REGION), first call *)
  create_bucket : BucketOutcome;
  (* bucket.delete(force=True) and create_bucket again, after a Conflict *)
  recreate_bucket_ok : bool;
  (* tempfile.TemporaryDirectory() *)
  temp_dir : string;
  (* list_blobs of the bucket named in doc_url, each blob downloaded *)
  list_blobs : string -> option (list Blob);
  (* open(doc_filepath).read() *)
  read_text : string -> option string;
  (* [section.content for section in CSVLoader(doc_filepath).load()] *)
  csv_sections : string -> option (list string);
  (* [page.extract_text() for page in PdfReader(f).pages] *)
  pdf_pages : string -> option (list string);
  (* CharacterTextSplitter(chunk_size=CHUNK_SIZE, chunk_overlap=0).split_text *)
  split_text : string -> list string;
  (* TextEmbeddingModel.from_pretrained(...) *)
  from_pretrained_ok : bool;
  (* model.get_embeddings(sentence_list), as [embedding.values] *)
  get_embeddings : list string -> option (list embedding);
  (* storage_client.get_bucket(bucket_name) *)
  get_bucket_ok : bool;
  (* blob.upload_from_filename(local_path) *)
  upload_ok : EmbFile -> bool;
  (* MatchingEngineIndex.create_tree_ah_index(...).resource_name *)
  create_tree_ah_index : option string;
  (* MatchingEngineIndexEndpoint.create(...).resource_name *)
  create_endpoint : option string;
  (* index_endpoint.deploy_index(...) *)
  deploy_index_ok : bool
}.

(* ================================================================== *)
(** ** State: metadata store, temporary directories, staging bucket *)

Record State : Type := {
  engines : list QueryEngine;            (* QueryEngine collection *)
  documents : list QueryDocument;        (* QueryDocument collection *)
  doc_chunks : list QueryDocumentChunk;  (* QueryDocumentChunk collection *)
  tmp_dirs : list (nat * list EmbFile);  (* live [mkdtemp] directories and their files *)
  bucket : list EmbFile;                 (* blobs of the bucket {PROJECT_ID}-{query_engine}-data *)
  error_log : list LogEntry;             (* Logger.error calls, oldest first *)
  written : list EmbFile                 (* history: every embeddings file written, oldest first *)
}.

Definition M (A : Type) : Type := State -> result A * State.

Definition ret {A} (a : A) : M A := fun s => (Ok a, s).

Definition raise {A} (e : exn) : M A := fun s => (Raise e, s).

Definition bind {A B} (m : M A) (f : A -> M B) : M B :=
  fun s =>
    match m s with
    | (Ok a, s') => f a s'
    | (Raise e, s') => (Raise e, s')
    end.

(** [try: m except Exception as e: handler e] *)
Definition try_except {A} (m : M A) (handler : exn -> M A) : M A :=
  fun s =>
    match m s with
    | (Ok a, s') => (Ok a, s')
    | (Raise e, s') => handler e s'
    end.

Definition lift {A} (r : result A) : M A := fun s => (r, s).

Definition gets {A} (f : State -> A) : M A := fun s => (Ok (f s), s).

Definition modify (f : State -> State) : M unit := fun s => (Ok tt, f s).

(** An external call that either returns or raises. *)
Definition external {A} (origin : string) (o : option A) : M A :=
  match o with
  | Some a => ret a
  | None => raise (ExternalError origin)
  end.

Definition external_ok (origin : string) (ok : bool) : M unit :=
  if ok then ret tt else raise (ExternalError origin).

Declare Scope monad_scope.

Delimit Scope monad_scope with monad.

Notation "x <- m ;; k" := (bind m (fun x => k))
  (at level 61, m at next level, right associativity) : monad_scope.

Notation "' pat <- m ;; k" := (bind m (fun x => match x with pat => k end))
  (at level 61, pat pattern, m at next level, right associativity) : monad_scope.

Notation "m ;; k" := (bind m (fun _ => k))
  (at level 61, right associativity) : monad_scope.

Open Scope monad_scope.

(* ================================================================== *)
(** ** Metadata store operations

    Modelled from the spec: the FireO models [QueryEngine], [QueryDocument]
    and [QueryDocumentChunk] of [common.models] are not part of the sources
    at hand.  Per the Metadata Store Adapter interface: lookups by name are
    exact-match, deletes by engine id remove every document or chunk of that
    engine, and [save] stores the record under an id no stored record uses or
    refers to. *)

Definition fresh (used : list nat) : nat := S (list_max used).

Definition engine_ids_in_use (s : State) : list nat :=
  map qe_id (engines s) ++ map qd_query_engine_id (documents s)
    ++ map qc_query_engine_id (doc_chunks s).

Definition document_ids_in_use (s : State) : list nat :=
  map qd_id (documents s) ++ map qc_query_document_id (doc_chunks s).

Definition set_engines (s : State) (l : list QueryEngine) : State :=
  {| engines := l; documents := documents s; doc_chunks := doc_chunks s;
     tmp_dirs := tmp_dirs s; bucket := bucket s; error_log := error_log s;
     written := written s |}.

Definition set_documents (s : State) (l : list QueryDocument) : State :=
  {| engines := engines s; documents := l; doc_chunks := doc_chunks s;
     tmp_dirs := tmp_dirs s; bucket := bucket s; error_log := error_log s;
     written := written s |}.

Definition set_doc_chunks (s : State) (l : list QueryDocumentChunk) : State :=
  {| engines := engines s; documents := documents s; doc_chunks := l;
     tmp_dirs := tmp_dirs s; bucket := bucket s; error_log := error_log s;
     written := written s |}.

Definition set_tmp_dirs (s : State) (l : list (nat * list EmbFile)) : State :=
  {| engines := engines s; documents := documents s; doc_chunks := doc_chunks s;
     tmp_dirs := l; bucket := bucket s; error_log := error_log s;
     written := written s |}.

Definition set_bucket (s : State) (l : list EmbFile) : State :=
  {| engines := engines s; documents := documents s; doc_chunks := doc_chunks s;
     tmp_dirs := tmp_dirs s; bucket := l; error_log := error_log s;
     written := written s |}.

Definition set_error_log (s : State) (l : list LogEntry) : State :=
  {| engines := engines s; documents := documents s; doc_chunks := doc_chunks s;
     tmp_dirs := tmp_dirs s; bucket := bucket s; error_log := l;
     written := written s |}.

Definition set_written (s : State) (l : list EmbFile) : State :=
  {| engines := engines s; documents := documents s; doc_chunks := doc_chunks s;
     tmp_dirs := tmp_dirs s; bucket := bucket s; error_log := error_log s;
     written := l |}.

(** [QueryEngine.find_by_name(name)] *)
Definition find_engine (name : string) (s : State) : option QueryEngine :=
  find (fun q => String.eqb (qe_name q) name) (engines s).

Definition QueryEngine_find_by_name (name : string) : M (option QueryEngine) :=
  gets (find_engine name).

(** [q_engine = QueryEngine(name=..., created_by=..., llm_type=...,
    is_public=...); q_engine.save()] *)
Definition QueryEngine_save (name created_by llm_type : string) (is_public : bool)
  : M QueryEngine :=
  fun s =>
    let q := {| qe_id := fresh (engine_ids_in_use s); qe_name := name;
                qe_created_by := created_by; qe_llm_type := llm_type;
                qe_is_public := is_public; qe_index_id := None;
                qe_index_name := None; qe_endpoint := None |} in
    (Ok q, set_engines s (engines s ++ [q])).

(** [q_engine.update()]: the stored record of that id takes the object's fields. *)
Definition QueryEngine_update (q : QueryEngine) : M unit :=
  modify (fun s =>
    set_engines s (map (fun q0 => if qe_id q0 =? qe_id q then q else q0) (engines s))).

(** [QueryEngine.delete_by_id(id)] *)
Definition QueryEngine_delete_by_id (id : nat) : M unit :=
  modify (fun s => set_engines s (filter (fun q => negb (qe_id q =? id)) (engines s))).

(** [query_doc = QueryDocument(...); query_doc.save()] *)
Definition QueryDocument_save (query_engine_id : nat) (query_engine doc_url : string)
    (index_start index_end : nat) : M QueryDocument :=
  fun s =>
    let d := {| qd_id := fresh (document_ids_in_use s);
                qd_query_engine_id := query_engine_id;
                qd_query_engine := query_engine; qd_doc_url := doc_url;
                qd_index_start := index_start; qd_index_end := index_end |} in
    (Ok d, set_documents s (documents s ++ [d])).

(** [QueryDocument.collection.filter("query_engine_id", "==", id).delete()] *)
Definition QueryDocument_delete_by_engine (id : nat) : M unit :=
  modify (fun s =>
    set_documents s (filter (fun d => negb (qd_query_engine_id d =? id)) (documents s))).

(** [QueryDocumentChunk(...).save()] *)
Definition QueryDocumentChunk_save (query_engine_id query_document_id index : nat)
    (text : string) : M unit :=
  modify (fun s =>
    let c := {| qc_id := fresh (map qc_id (doc_chunks s));
                qc_query_engine_id := query_engine_id;
                qc_query_document_id := query_document_id;
                qc_index := index; qc_text := text |} in
    set_doc_chunks s (doc_chunks s ++ [c])).

(** [QueryDocumentChunk.collection.filter("query_engine_id", "==", id).delete()] *)
Definition QueryDocumentChunk_delete_by_engine (id : nat) : M unit :=
  modify (fun s =>
    set_doc_chunks s (filter (fun c => negb (qc_query_engine_id c =? id)) (doc_chunks s))).

(** [QueryDocumentChunk.find_by_index(q_engine_id, index)] *)
Definition find_by_index (q_engine_id index : nat) (s : State)
  : option QueryDocumentChunk :=
  find (fun c => (qc_query_engine_id c =? q_engine_id) && (qc_index c =? index))
       (doc_chunks s).

Definition Logger_error (entry : LogEntry) : M unit :=
  modify (fun s => set_error_log s (error_log s ++ [entry])).

(* ================================================================== *)
(** ** Local files and the staging bucket

    The calls on the local file system ([mkdtemp], [open(..., "w")],
    [os.walk], [shutil.rmtree], [os.remove]) are taken to succeed.  Only the
    directories of embeddings files are kept in the state: the downloaded
    documents are read through the [World], and [os.remove(doc_filepath)]
    leaves no trace here.  The [World] answers by path, whenever it is
    asked; a build in which two blobs are downloaded to one local path (the
    second read finds the file removed) is therefore outside what the model
    describes, and the theorems that speak of what is read from the
    documents state that the local paths are distinct. *)

(** [Path(tempfile.mkdtemp())]: a new, empty directory. *)
Definition mkdtemp : M nat :=
  fun s =>
    let d := fresh (map fst (tmp_dirs s)) in
    (Ok d, set_tmp_dirs s (tmp_dirs s ++ [(d, [])])).

Definition same_file_name (f g : EmbFile) : bool :=
  String.eqb (ef_doc_stem f) (ef_doc_stem g) && (ef_index_base f =? ef_index_base g).

(** Directory [d] after file [f] is written there; [e] is one of the live
    directories. *)
Definition update_dir (d : nat) (f : EmbFile) (e : nat * list EmbFile)
  : nat * list EmbFile :=
  if fst e =? d
  then (fst e, filter (fun g => negb (same_file_name f g)) (snd e) ++ [f])
  else e.

(** [with open(chunk_path, "w") as f: f.writelines(...)] in directory [d]. *)
Definition write_file (d : nat) (f : EmbFile) : M unit :=
  modify (fun s =>
    set_written (set_tmp_dirs s (map (update_dir d f) (tmp_dirs s)))
      (written s ++ [f])).

(** The files of directory [d]. *)
Definition dir_files (d : nat) (s : State) : list EmbFile :=
  match find (fun e : nat * list EmbFile => fst e =? d) (tmp_dirs s) with
  | Some e => snd e
  | None => []
  end.

(** The files [os.walk(d)] yields. *)
Definition walk (d : nat) : M (list EmbFile) := gets (dir_files d).

(** [bucket.blob(filename).upload_from_filename(local_path)] *)
Definition upload (w : World) (f : EmbFile) : M unit :=
  external_ok "upload_from_filename" (upload_ok w f) ;;
  modify (fun s =>
    set_bucket s (filter (fun g => negb (same_file_name f g)) (bucket s) ++ [f])).

(** [shutil.rmtree(d)] *)
Definition rmtree (d : nat) : M unit :=
  modify (fun s =>
    set_tmp_dirs s (filter (fun e : nat * list EmbFile => negb (fst e =? d)) (tmp_dirs s))).

(** [for x in l: body x] *)
Fixpoint for_each {A} (l : list A) (body : A -> M unit) : M unit :=
  match l with
  | [] => ret tt
  | x :: r => body x ;; for_each r body
  end.

(* ================================================================== *)
(** ** Reading documents *)

(** [_download_files_to_local(storage_client, local_dir, doc_url)]: one
    triple [(blob.name, blob.path, file_path)] per blob, the file saved under
    its base name in [local_dir].  The blobs are looked up in the [World] by
    [doc_url], taken to be of the form gs://bucket/...: the bucket name is
    [doc_url.split("gs://")[1].split("/")[0]], which raises IndexError for a
    url without that prefix, and blob names are taken not to end in "/". *)
Definition _download_files_to_local (w : World) (local_dir doc_url : string)
  : M (list (string * string * string)) :=
  blobs <- external "list_blobs" (list_blobs w doc_url) ;;
  ret (map (fun b =>
              let file_name := last_segment "/"%char (blob_name b) in
              let file_path := path_join local_dir file_name in
              (blob_name b, blob_path b, file_path))
           blobs).

(** The triples [_download_files_to_local] returns, in [_process_documents],
    for the given blobs. *)
Definition downloaded (w : World) (blobs : list Blob) : list (string * string * string) :=
  map (fun b => (blob_name b, blob_path b,
                 path_join (temp_dir w) (last_segment "/"%char (blob_name b))))
      blobs.

(** [_read_doc(doc_name, doc_filepath)]: the content as a list of strings,
    [None] for an unsupported extension. *)
Definition _read_doc (w : World) (doc_name doc_filepath : string)
  : M (option (list string)) :=
  let doc_extension := lower (last_segment "."%char doc_name) in
  if String.eqb doc_extension "txt" then
    doc_text <- external "open" (read_text w doc_filepath) ;;
    ret (Some [doc_text])
  else if String.eqb doc_extension "csv" then
    sections <- external "CSVLoader" (csv_sections w doc_filepath) ;;
    ret (Some sections)
  else if String.eqb doc_extension "pdf" then
    (* read PDF into array of pages *)
    pages <- external "PdfReader" (pdf_pages w doc_filepath) ;;
    ret (Some pages)
  else
    (* return None if doc type not supported *)
    Logger_error (LogUnsupported doc_name doc_extension) ;;
    ret None.

(* ================================================================== *)
(** ** Embeddings *)

(** [_encode_texts_to_embeddings(sentence_list)] *)
Definition _encode_texts_to_embeddings (w : World) (sentence_list : list string)
  : result (list (option embedding)) :=
  if from_pretrained_ok w then
    match get_embeddings w sentence_list with
    | Some embeddings => Ok (map Some embeddings)
    | None => Ok (repeat None (List.length sentence_list))
    end
  else Raise (ExternalError "from_pretrained").

(** [range(0, n, step)] for [step > 0]. *)
Definition range_step (n step : nat) : list nat :=
  map (fun k => k * step) (seq 0 ((n + step - 1) / step)).

(** [_generate_batches(text_chunks, batch_size)], all batches in order. *)
Definition _generate_batches (text_chunks : list string) (batch_size : nat)
  : list (list string) :=
  map (fun i => slice text_chunks i (i + batch_size))
      (range_step (List.length text_chunks) batch_size).

(** [future.result()] of every submitted batch, in submission order. *)
Fixpoint collect_results (w : World) (batches : list (list string))
  : result (list (option embedding)) :=
  match batches with
  | [] => Ok []
  | batch :: rest =>
      rbind (_encode_texts_to_embeddings w batch) (fun r =>
      rbind (collect_results w rest) (fun rs => Ok (r ++ rs)))
  end.

Definition is_not_None {A} (o : option A) : bool :=
  match o with Some _ => true | None => false end.

(** [[e for e in embeddings_list if e is not None]] *)
Fixpoint not_None {A} (l : list (option A)) : list A :=
  match l with
  | [] => []
  | Some a :: r => a :: not_None r
  | None :: r => not_None r
  end.

(** [np.stack(arrays)]: at least one array, all of one shape. *)
Definition np_stack (arrays : list embedding) : result (list embedding) :=
  match arrays with
  | [] => Raise ValueError
  | a :: rest =>
      if forallb (fun b => List.length b =? List.length a) rest
      then Ok arrays else Raise ValueError
  end.

(** [ids[mask]] for a boolean [mask]: its length must be that of [ids]. *)
Definition np_mask {A} (ids : list A) (mask : list bool) : result (list A) :=
  if List.length mask =? List.length ids
  then Ok (map fst (filter snd (combine ids mask)))
  else Raise IndexError.

(** The local [embeddings_list] of [_get_embedding_batched]. *)
Definition embeddings_list_of (w : World) (text_chunks : list string) (batch_size : nat)
  : result (list (option embedding)) :=
  match batch_size with
  | 0 => Raise ValueError
  | _ => collect_results w (_generate_batches text_chunks batch_size)
  end.

(** The local [is_successful] of [_get_embedding_batched]. *)
Definition is_successful_of (text_chunks : list string)
    (embeddings_list : list (option embedding)) : list bool :=
  map (fun p : string * option embedding => is_not_None (snd p))
      (combine text_chunks embeddings_list).

(** [_get_embedding_batched(text_chunks, api_calls_per_second, batch_size)];
    the pacing delay between submissions has no part in the result. *)
Definition _get_embedding_batched (w : World) (text_chunks : list string)
    (batch_size : nat) : result (list bool * list embedding) :=
  rbind (embeddings_list_of w text_chunks batch_size) (fun embeddings_list =>
  let is_successful := is_successful_of text_chunks embeddings_list in
  rbind (np_stack (not_None embeddings_list)) (fun embeddings_list_successful =>
  Ok (is_successful, embeddings_list_successful))).

(* ================================================================== *)
(** ** Index data files *)

Definition make_record (p : nat * embedding) : EmbRecord :=
  {| rec_id := fst p; rec_embedding := snd p |}.

(** The [while chunk_index < num_chunks] loop of [_generate_index_data];
    [embeddings_dir] is [None] until the first pass assigns it.  The loop
    runs at most [num_chunks] times, which [fuel] stands for. *)
Fixpoint index_data_loop (w : World) (fuel : nat) (doc_name : string)
    (text_chunks : list string) (num_chunks chunk_index index_base : nat)
    (embeddings_dir : option nat) {struct fuel} : M (nat * option nat) :=
  if chunk_index <? num_chunks then
    match fuel with
    | 0 => raise LoopBoundExceeded
    | S fuel' =>
        let remaining_chunks := num_chunks - chunk_index in
        let chunk_size := Nat.min MAX_NUM_TEXT_CHUNK_PROCESS remaining_chunks in
        let end_chunk_index := chunk_index + chunk_size in
        let process_chunks := slice text_chunks chunk_index end_chunk_index in
        (* generate an np array of chunk IDs starting from index base *)
        let ids := seq index_base (List.length process_chunks) in
        (* Create temporary folder to write embeddings to *)
        embeddings_dir <- mkdtemp ;;
        (* Convert chunks to embeddings in batches *)
        ' (is_successful, chunk_embeddings) <-
            lift (_get_embedding_batched w process_chunks ITEMS_PER_REQUEST) ;;
        (* create JSON *)
        selected <- lift (np_mask ids is_successful) ;;
        let embeddings_formatted := map make_record (combine selected chunk_embeddings) in
        (* write embeddings for chunk to file *)
        write_file embeddings_dir
          {| ef_doc_stem := path_stem doc_name; ef_index_base := index_base;
             ef_lines := embeddings_formatted |} ;;
        index_data_loop w fuel' doc_name text_chunks num_chunks
          (chunk_index + List.length process_chunks)
          (index_base + List.length process_chunks)
          (Some embeddings_dir)
    end
  else ret (index_base, embeddings_dir).

(** [_generate_index_data(doc_name, text_chunks, index_base)] *)
Definition _generate_index_data (w : World) (doc_name : string)
    (text_chunks : list string) (index_base : nat) : M (nat * nat) :=
  let chunk_index := 0 in
  let num_chunks := List.length text_chunks in
  ' (index_base, embeddings_dir) <-
      index_data_loop w num_chunks doc_name text_chunks num_chunks chunk_index
        index_base None ;;
  match embeddings_dir with
  | Some d => ret (index_base, d)
  | None => raise UnboundLocalError
  end.

(* ================================================================== *)
(** ** Processing the documents of a build *)

(** The three steps after the embeddings of a document are written: copy
    the data files up to the bucket, clean up, store the models. *)
Definition upload_and_store (w : World) (q_engine : QueryEngine) (doc_url : string)
    (text_chunks : list string) (index_base new_index_base embeddings_dir : nat)
  : M QueryDocument :=
  (* copy data files up to bucket *)
  external_ok "get_bucket" (get_bucket_ok w) ;;
  files <- walk embeddings_dir ;;
  for_each files (upload w) ;;
  (* clean up tmp files *)
  rmtree embeddings_dir ;;
  (* store QueryDocument and QueryDocumentChunk models *)
  query_doc <- QueryDocument_save (qe_id q_engine) (qe_name q_engine) doc_url
                 index_base new_index_base ;;
  for_each (seq 0 (List.length text_chunks)) (fun i =>
    QueryDocumentChunk_save (qe_id q_engine) (qd_id query_doc) (i + index_base)
      (nth i text_chunks "")) ;;
  ret query_doc.

(** The [for doc in doc_filepaths] loop of [_process_documents], with its
    three running variables. *)
Fixpoint process_loop (w : World) (q_engine : QueryEngine)
    (doc_filepaths : list (string * string * string)) (index_base : nat)
    (docs_processed : list QueryDocument) (docs_not_processed : list string)
  : M (list QueryDocument * list string) :=
  match doc_filepaths with
  | [] => ret (docs_processed, docs_not_processed)
  | (doc_name, doc_url, doc_filepath) :: rest =>
      (* read doc data and split into text chunks *)
      (* skip any file that can't be read or generates an error *)
      read <- try_except
                (doc_text_list <- _read_doc w doc_name doc_filepath ;;
                 match doc_text_list with
                 | None => Logger_error (LogNoContent doc_name) ;; ret None
                 | Some l => ret (Some l)
                 end)
                (fun e => Logger_error (LogReadError doc_name e) ;; ret None) ;;
      match read with
      | None =>
          process_loop w q_engine rest index_base docs_processed
            (docs_not_processed ++ [doc_url])
      | Some doc_text_list =>
          (* split text into chunks *)
          let text_chunks := flat_map (split_text w) doc_text_list in
          (* generate embedding data and store in local dir *)
          ' (new_index_base, embeddings_dir) <-
              _generate_index_data w doc_name text_chunks index_base ;;
          query_doc <- upload_and_store w q_engine doc_url text_chunks index_base
                         new_index_base embeddings_dir ;;
          process_loop w q_engine rest new_index_base
            (docs_processed ++ [query_doc]) docs_not_processed
      end
  end.

(** [_process_documents(doc_url, bucket_name, q_engine, storage_client)] *)
Definition _process_documents (w : World) (doc_url : string) (q_engine : QueryEngine)
  : M (list QueryDocument * list string) :=
  (* download files to local directory *)
  doc_filepaths <- _download_files_to_local w (temp_dir w) doc_url ;;
  if List.length doc_filepaths =? 0 then raise NoDocumentsIndexedException
  else
    (* counter for unique index ids *)
    let index_base := 0 in
    process_loop w q_engine doc_filepaths index_base [] [].

(* ================================================================== *)
(** ** Index and endpoint *)

Definition replace_char (a b : ascii) (s : string) : string :=
  string_of_list_ascii
    (map (fun c => if Ascii.eqb c a then b else c) (list_ascii_of_string s)).

(** [_create_me_index_and_endpoint(index_name, bucket_uri, q_engine)] *)
Definition _create_me_index_and_endpoint (w : World) (index_name : string)
    (q_engine : QueryEngine) : M unit :=
  (* create ME index *)
  tree_ah_index <- external "create_tree_ah_index" (create_tree_ah_index w) ;;
  (* create index endpoint *)
  index_endpoint <- external "MatchingEngineIndexEndpoint.create" (create_endpoint w) ;;
  (* store index in query engine model *)
  QueryEngine_update
    {| qe_id := qe_id q_engine; qe_name := qe_name q_engine;
       qe_created_by := qe_created_by q_engine; qe_llm_type := qe_llm_type q_engine;
       qe_is_public := qe_is_public q_engine;
       qe_index_id := Some tree_ah_index; qe_index_name := Some index_name;
       qe_endpoint := Some index_endpoint |} ;;
  (* deploy index endpoint *)
  try_except
    (external_ok "deploy_index" (deploy_index_ok w))
    (fun e => Logger_error (LogDeployError e)).

(** The bucket [{PROJECT_ID}-{query_engine}-data] is created, or deleted and
    recreated if it already exists: either way it starts empty. *)
Definition create_data_bucket (w : World) : M unit :=
  match create_bucket w with
  | BucketCreated => modify (fun s => set_bucket s [])
  | BucketConflict =>
      (* if bucket already exists, delete and recreate *)
      external_ok "create_bucket" (recreate_bucket_ok w) ;;
      modify (fun s => set_bucket s [])
  | BucketFailure => raise (ExternalError "create_bucket")
  end.

(** [build_doc_index(doc_url, query_engine)] *)
Definition build_doc_index (w : World) (doc_url query_engine : string)
  : M (list QueryDocument * list string) :=
  q_engine <- QueryEngine_find_by_name query_engine ;;
  match q_engine with
  | None => raise ResourceNotFoundException
  | Some q_engine =>
      try_except
        (external_ok "storage.Client" (storage_client_ok w) ;;
         (* create bucket for ME index data *)
         create_data_bucket w ;;
         (* process docs at url and upload embeddings to GCS for indexing *)
         ' (docs_processed, docs_not_processed) <- _process_documents w doc_url q_engine ;;
         (* make sure we actually processed some docs *)
         if List.length docs_processed =? 0 then raise NoDocumentsIndexedException
         else
           (* ME index name and description *)
           let index_name := (replace_char "-"%char "_"%char query_engine ++ "_MEindex")%string in
           (* create ME index and endpoint *)
           _create_me_index_and_endpoint w index_name q_engine ;;
           ret (docs_processed, docs_not_processed))
        (fun e =>
           Logger_error (LogDocIndexError e) ;;
           raise (InternalServerError e))
  end.

(* ================================================================== *)
(** ** Building a query engine *)

(** The [except] branch of [query_engine_build]: delete query engine model
    if build unsuccessful. *)
Definition rollback (q_engine_id : nat) : M unit :=
  QueryDocument_delete_by_engine q_engine_id ;;
  QueryDocumentChunk_delete_by_engine q_engine_id ;;
  QueryEngine_delete_by_id q_engine_id.

(** [query_engine_build(doc_url, query_engine, user_id, is_public, llm_type)] *)
Definition query_engine_build (w : World) (doc_url query_engine user_id : string)
    (is_public : bool) : M (QueryEngine * list QueryDocument * list string) :=
  q_engine <- QueryEngine_find_by_name query_engine ;;
  match q_engine with
  | Some _ => raise ValidationError
  | None =>
      (* create model *)
      let llm_type := DEFAULT_QUERY_EMBEDDING_MODEL w in
      q_engine <- QueryEngine_save query_engine user_id llm_type is_public ;;
      (* build document index *)
      ' (docs_processed, docs_not_processed) <-
          try_except (build_doc_index w doc_url query_engine)
            (fun e =>
               rollback (qe_id q_engine) ;;
               raise (InternalServerError e)) ;;
      ret (q_engine, docs_processed, docs_not_processed)
  end.

(* ================================================================== *)
(** ** The text chunker of the specification *)

Fixpoint fixed_size_chunks (fuel size : nat) (text : string) : list string :=
  match fuel with
  | 0 => []
  | S fuel' =>
      match text with
      | EmptyString => []
      | _ => string_take size text :: fixed_size_chunks fuel' size (string_drop size text)
      end
  end.

(** Modelled from the spec: the Text Chunker is langchain's
    [CharacterTextSplitter], a library outside the sources at hand.  Per the
    spec it splits a text section into fixed-size chunks, the size measured
    in characters, with zero overlap; no chunk is empty and the trailing
    partial chunk is kept as it is. *)
Definition spec_split_text (text : string) : list string :=
  fixed_size_chunks (String.length text) CHUNK_SIZE text.

(* ================================================================== *)
(** ** Reasoning in the monad *)

(** A relation between the state before and the state after that holds of
    every run of [m], whatever its outcome. *)
Definition preserves {A} (R : State -> State -> Prop) (m : M A) : Prop :=
  forall s r s', m s = (r, s') -> R s s'.

(* ================================================================== *)
(** ** Frames: what a build leaves alone *)

(** The metadata store is untouched. *)
Definition same_store (s s' : State) : Prop :=
  engines s' = engines s /\ documents s' = documents s /\ doc_chunks s' = doc_chunks s.

(** The records of [l] that do not belong to engine [id]. *)
Definition others {A} (key : A -> nat) (id : nat) (l : list A) : list A :=
  filter (fun x => negb (key x =? id)) l.

(** The records of every engine but [id] are untouched. *)
Definition store_frame (id : nat) (s s' : State) : Prop :=
  others qe_id id (engines s') = others qe_id id (engines s) /\
  others qd_query_engine_id id (documents s') = others qd_query_engine_id id (documents s) /\
  others qc_query_engine_id id (doc_chunks s') = others qc_query_engine_id id (doc_chunks s).

(* ================================================================== *)
(** ** Rollback *)

(** The state [rollback id] leaves. *)
Definition rolled_back (id : nat) (s : State) : State :=
  set_engines
    (set_doc_chunks
       (set_documents s (others qd_query_engine_id id (documents s)))
       (others qc_query_engine_id id (doc_chunks s)))
    (others qe_id id (engines s)).

(** The engine record [query_engine_build] creates in state [s]. *)
Definition new_engine (w : World) (query_engine user_id : string) (is_public : bool)
    (s : State) : QueryEngine :=
  {| qe_id := fresh (engine_ids_in_use s); qe_name := query_engine;
     qe_created_by := user_id; qe_llm_type := DEFAULT_QUERY_EMBEDDING_MODEL w;
     qe_is_public := is_public; qe_index_id := None; qe_index_name := None;
     qe_endpoint := None |}.

(** The state once that record is saved. *)
Definition engine_saved (w : World) (query_engine user_id : string) (is_public : bool)
    (s : State) : State :=
  set_engines s (engines s ++ [new_engine w query_engine user_id is_public s]).

(* ================================================================== *)
(** ** Sample worlds and states *)

Definition sample_vector : embedding := repeat (1 # 2)%Q DIMENSIONS.

Definition empty_state : State :=
  {| engines := []; documents := []; doc_chunks := []; tmp_dirs := [];
     bucket := []; error_log := []; written := [] |}.

(** A world whose storage, model and index services all answer; the blobs at
    any url, the content of text files and of PDF files, the embedding
    service and the deploy call are as given, the chunker is the one of the
    specification. *)
Definition sample_world (blobs : list Blob) (texts : string -> option string)
    (pages : string -> option (list string))
    (embed : list string -> option (list embedding)) (deploy : bool) : World :=
  {| DEFAULT_QUERY_EMBEDDING_MODEL := "VertexAI-Embedding";
     storage_client_ok := true;
     create_bucket := BucketCreated;
     recreate_bucket_ok := true;
     temp_dir := "/tmp/docs";
     list_blobs := fun _ => Some blobs;
     read_text := texts;
     csv_sections := fun _ => None;
     pdf_pages := pages;
     split_text := spec_split_text;
     from_pretrained_ok := true;
     get_embeddings := embed;
     get_bucket_ok := true;
     upload_ok := fun _ => true;
     create_tree_ah_index := Some "projects/p/indexes/1";
     create_endpoint := Some "projects/p/indexEndpoints/1";
     deploy_index_ok := deploy |}.

(** An embedding service that answers every request. *)
Definition embed_all (sentence_list : list string) : option (list embedding) :=
  Some (map (fun _ => sample_vector) sentence_list).

(** An embedding service that fails every request holding [text]. *)
Definition embed_all_but (text : string) (sentence_list : list string)
  : option (list embedding) :=
  if existsb (String.eqb text) sentence_list then None
  else Some (map (fun _ => sample_vector) sentence_list).

Definition no_text : string -> option string := fun _ => None.

Definition no_pages : string -> option (list string) := fun _ => None.

(** One text file, [notes.txt], holding ["hello"]; the deploy call fails. *)
Definition world_deploy_fails : World :=
  sample_world [ {| blob_name := "notes.txt"; blob_path := "/b/corpus/o/notes.txt" |} ]
    (fun _ => Some "hello") no_pages embed_all false.

(** One file of an unsupported type. *)
Definition world_unsupported : World :=
  sample_world [ {| blob_name := "slides.pptx"; blob_path := "/b/corpus/o/slides.pptx" |} ]
    no_text no_pages embed_all true.

(** A store that already holds an engine named ["hr-docs"], with a document
    and a chunk. *)
Definition state_with_engine : State :=
  {| engines := [ {| qe_id := 7; qe_name := "hr-docs"; qe_created_by := "user-0";
                     qe_llm_type := "VertexAI-Embedding"; qe_is_public := true;
                     qe_index_id := Some "projects/p/indexes/0";
                     qe_index_name := Some "hr_docs_MEindex";
                     qe_endpoint := Some "projects/p/indexEndpoints/0" |} ];
     documents := [ {| qd_id := 3; qd_query_engine_id := 7; qd_query_engine := "hr-docs";
                       qd_doc_url := "/b/corpus/o/old.txt"; qd_index_start := 0;
                       qd_index_end := 1 |} ];
     doc_chunks := [ {| qc_id := 4; qc_query_engine_id := 7; qc_query_document_id := 3;
                        qc_index := 0; qc_text := "old" |} ];
     tmp_dirs := []; bucket := []; error_log := []; written := [] |}.

(* ================================================================== *)
(** ** Failed builds *)

(** [_read_doc] gives no content for the document: it raises or returns
    [None]. *)
Definition unreadable (w : World) (doc : string * string * string) : Prop :=
  forall s l, fst (_read_doc w (fst (fst doc)) (snd doc) s) <> Ok (Some l).

(** The storage client answers and the data bucket can be set up. *)
Definition storage_ready (w : World) : Prop :=
  storage_client_ok w = true /\
  (create_bucket w = BucketCreated \/
   (create_bucket w = BucketConflict /\ recreate_bucket_ok w = true)).

(* ================================================================== *)
(** ** Batches *)

(** [get_embeddings] answers a request, when it does, with one vector of
    [DIMENSIONS] coordinates per text. *)
Definition service_well_behaved (w : World) : Prop :=
  forall sentence_list embeddings,
    get_embeddings w sentence_list = Some embeddings ->
    List.length embeddings = List.length sentence_list /\
    Forall (fun v => List.length v = DIMENSIONS) embeddings.

(** An entry of the encoder's output: the failed marker or a vector. *)
Definition entry_ok (o : option embedding) : Prop :=
  o = None \/ exists v, o = Some v /\ List.length v = DIMENSIONS.

(* ================================================================== *)
(** ** The embedding encoder *)

Definition world_flaky : World :=
  sample_world [] no_text no_pages (embed_all_but "beta") true.

(* ================================================================== *)
(** ** The lines of an embeddings file *)

(** The line written for position [q] of a group whose encoder output is
    [embeddings_list], when ids start at [index_base]: none if the entry is
    the failed marker. *)
Definition line_at (index_base : nat) (embeddings_list : list (option embedding))
    (q : nat) : list EmbRecord :=
  match nth q embeddings_list None with
  | Some e => [ {| rec_id := index_base + q; rec_embedding := e |} ]
  | None => []
  end.

(* ================================================================== *)
(** ** What [_generate_index_data] writes *)

(** Start of the group of [MAX_NUM_TEXT_CHUNK_PROCESS] chunks that holds
    position [p]. *)
Definition group_start (p : nat) : nat :=
  (p / MAX_NUM_TEXT_CHUNK_PROCESS) * MAX_NUM_TEXT_CHUNK_PROCESS.

(** The [process_chunks] of the pass that handles position [p]. *)
Definition group_of (text_chunks : list string) (p : nat) : list string :=
  slice text_chunks (group_start p)
    (group_start p
     + Nat.min MAX_NUM_TEXT_CHUNK_PROCESS (List.length text_chunks - group_start p)).

(** The entry of the encoder's output for the chunk at position [p] of a
    document: its vector, or [None] if its encoding failed. *)
Definition chunk_embedding (w : World) (text_chunks : list string) (p : nat)
  : option embedding :=
  match embeddings_list_of w (group_of text_chunks p) ITEMS_PER_REQUEST with
  | Ok embeddings_list => nth (p - group_start p) embeddings_list None
  | Raise _ => None
  end.

(** The lines for the given positions of a document whose ids start at
    [index_base]: one per position whose encoding succeeded, its id the base
    plus the position. *)
Definition expected_lines (w : World) (text_chunks : list string) (index_base : nat)
    (positions : list nat) : list EmbRecord :=
  flat_map (fun p =>
              match chunk_embedding w text_chunks p with
              | Some e => [ {| rec_id := index_base + p; rec_embedding := e |} ]
              | None => []
              end)
           positions.

(* ================================================================== *)
(** ** Ascending ids *)

(** [ids] is strictly increasing and lies within [lo, hi). *)
Fixpoint ascending (lo : nat) (ids : list nat) (hi : nat) : Prop :=
  match ids with
  | [] => lo <= hi
  | x :: rest => lo <= x /\ ascending (S x) rest hi
  end.

(** The ids of the lines of a list of files. *)
Definition file_ids (files : list EmbFile) : list nat :=
  map rec_id (flat_map ef_lines files).

(* ================================================================== *)
(** ** More frames *)

(** A projection of the state is left as it was. *)
Definition keeps {X} (f : State -> X) (s s' : State) : Prop := f s' = f s.

(** The embeddings files, written and uploaded, are left as they were. *)
Definition same_files (s s' : State) : Prop :=
  written s' = written s /\ bucket s' = bucket s.

(** Documents and chunks are left as they were. *)
Definition same_docs (s s' : State) : Prop :=
  documents s' = documents s /\ doc_chunks s' = doc_chunks s.

(* ================================================================== *)
(** ** Storing a document *)

Definition chunk_key (c : QueryDocumentChunk) : nat * nat * nat * string :=
  (qc_query_engine_id c, qc_query_document_id c, qc_index c, qc_text c).

(* ================================================================== *)
(** ** The effect of processing documents *)

(** The ranges of [docs] follow one another from [lo] to [hi], none empty. *)
Fixpoint contiguous (lo : nat) (docs : list QueryDocument) (hi : nat) : Prop :=
  match docs with
  | [] => lo = hi
  | d :: rest =>
      qd_index_start d = lo /\ lo < qd_index_end d /\
      contiguous (qd_index_end d) rest hi
  end.

(** Chunk [c] belongs to one of [docs] and its index lies in the range of
    that document. *)
Definition chunk_of (docs : list QueryDocument) (c : QueryDocumentChunk) : Prop :=
  exists d, In d docs /\ qc_query_document_id c = qd_id d /\
            qd_index_start d <= qc_index c < qd_index_end d.

(** Every index in the range of each of [docs] is the index of a chunk of
    [cs] that belongs to that document. *)
Definition covered (docs : list QueryDocument) (cs : list QueryDocumentChunk) : Prop :=
  forall d k,
    In d docs -> qd_index_start d <= k < qd_index_end d ->
    exists c, In c cs /\ qc_index c = k /\ qc_query_document_id c = qd_id d.

(** What processing documents of engine [id] adds between two states: the
    documents [docs] with ranges from [lo] to [hi], their chunks, and files
    whose ids ascend within [lo, hi). *)
Record build_effect (id lo hi : nat) (s s' : State) (docs : list QueryDocument)
  : Prop := {
  be_documents : documents s' = documents s ++ docs;
  be_docs_engine : Forall (fun d => qd_query_engine_id d = id) docs;
  be_contiguous : contiguous lo docs hi;
  be_chunks :
    exists cs,
      doc_chunks s' = doc_chunks s ++ cs /\
      Forall (fun c => qc_query_engine_id c = id) cs /\
      Forall (chunk_of docs) cs /\
      covered docs cs;
  be_files :
    exists files,
      written s' = written s ++ files /\
      ascending lo (file_ids files) hi /\
      Forall (fun f => List.length (ef_lines f) <= MAX_NUM_TEXT_CHUNK_PROCESS) files /\
      incl (bucket s') (bucket s ++ files)
}.

(* ================================================================== *)
(** ** Built engines *)

(** The documents stored for engine [id]. *)
Definition documents_of (id : nat) (s : State) : list QueryDocument :=
  filter (fun d => qd_query_engine_id d =? id) (documents s).

(** A text file, a file of an unsupported type and a PDF file of six pages;
    the request for the sixth page's batch fails. *)
Definition world_mixed : World :=
  sample_world
    [ {| blob_name := "notes.txt"; blob_path := "/b/corpus/o/notes.txt" |};
      {| blob_name := "slides.pptx"; blob_path := "/b/corpus/o/slides.pptx" |};
      {| blob_name := "guide.pdf"; blob_path := "/b/corpus/o/guide.pdf" |} ]
    (fun _ => Some "alpha")
    (fun _ => Some ["p1"; "p2"; "p3"; "p4"; "p5"; "p6"])
    (embed_all_but "p6") true.

Definition mixed_run
  : result (QueryEngine * list QueryDocument * list string) * State :=
  query_engine_build world_mixed "gs://corpus" "eng-docs" "user-1" true state_with_engine.

Definition value_or {A} (default : A) (r : result A) : A :=
  match r with
  | Ok a => a
  | Raise _ => default
  end.

Definition mixed_outcome : QueryEngine * list QueryDocument * list string :=
  Eval vm_compute in
    value_or (new_engine world_mixed "" "" true empty_state, [], []) (fst mixed_run).

(* ================================================================== *)
(** ** A document whose chunks all fail to encode *)

Definition two_files (path : string) : option string :=
  if String.eqb path "/tmp/docs/first.txt" then Some "alpha"
  else if String.eqb path "/tmp/docs/second.txt" then Some "beta"
  else None.

(** Two text files of one chunk each; the embedding request for the chunk
    of the first fails, the one for the second succeeds. *)
Definition world_first_fails : World :=
  sample_world
    [ {| blob_name := "first.txt"; blob_path := "/b/corpus/o/first.txt" |};
      {| blob_name := "second.txt"; blob_path := "/b/corpus/o/second.txt" |} ]
    two_files no_pages (embed_all_but "alpha") true.

(** The same corpus without the first file. *)
Definition world_second_only : World :=
  sample_world
    [ {| blob_name := "second.txt"; blob_path := "/b/corpus/o/second.txt" |} ]
    two_files no_pages (embed_all_but "alpha") true.

(* ================================================================== *)
(** ** A document of more than a thousand chunks *)

(** One PDF file of 1001 pages, a chunk each; every embedding request
    succeeds (with short vectors, which the code does not measure). *)
Definition world_long : World :=
  sample_world
    [ {| blob_name := "manual.pdf"; blob_path := "/b/corpus/o/manual.pdf" |} ]
    no_text
    (fun _ => Some (repeat "page" 1001))
    (fun sentence_list => Some (map (fun _ => [(1 # 2)%Q]) sentence_list))
    true.

(** Base index and number of lines of each file. *)
Definition file_sizes (files : list EmbFile) : list (nat * nat) :=
  map (fun f => (ef_index_base f, List.length (ef_lines f))) files.

(** What a build returned and left behind: the ranges of the processed
    documents and the urls not processed (or the exception); the sizes of
    the files written, of the files in the bucket and of the files in each
    temporary directory still there; the ids in the bucket; the number of
    chunks stored. *)
Definition build_summary
    (run : result (QueryEngine * list QueryDocument * list string) * State)
  : result (list (nat * nat) * list string)
    * list (nat * nat) * list (nat * nat) * list (list (nat * nat))
    * list nat * nat :=
  (match fst run with
   | Ok (_, docs_processed, docs_not_processed) =>
       Ok (map (fun d => (qd_index_start d, qd_index_end d)) docs_processed,
           docs_not_processed)
   | Raise e => Raise e
   end,
   file_sizes (written (snd run)),
   file_sizes (bucket (snd run)),
   map (fun e => file_sizes (snd e)) (tmp_dirs (snd run)),
   file_ids (bucket (snd run)),
   List.length (doc_chunks (snd run))).

(* ================================================================== *)
(** ** Chunking *)

(** The chunks put back together. *)
Definition join (chunks : list string) : string :=
  fold_right String.append EmptyString chunks.

(** The lengths of the chunks of a text of [n] characters. *)
Fixpoint chunk_lengths (fuel size n : nat) : list nat :=
  match fuel with
  | 0 => []
  | S fuel' =>
      match n with
      | 0 => []
      | _ => Nat.min size n :: chunk_lengths fuel' size (n - size)
      end
  end.

(* ================================================================== *)
(** ** A build over a single text file *)

(** A text file of 2500 characters. *)
Definition text_2500 : string := string_of_list_ascii (repeat "a"%char 2500).

Definition world_plain_text : World :=
  sample_world [ {| blob_name := "essay.txt"; blob_path := "/b/corpus/o/essay.txt" |} ]
    (fun _ => Some text_2500) no_pages embed_all true.

Definition plain_text_run
  : result (QueryEngine * list QueryDocument * list string) * State :=
  query_engine_build world_plain_text "gs://corpus" "essays" "user-1" true empty_state.

Definition plain_text_outcome : QueryEngine * list QueryDocument * list string :=
  Eval vm_compute in
    value_or (new_engine world_plain_text "" "" true empty_state, [], [])
             (fst plain_text_run).

(* ================================================================== *)
(** ** Further properties of a build *)

(** The content [_read_doc] gives for a document, [None] when it raises or
    the type is not supported. *)
Definition doc_sections (w : World) (doc_name doc_filepath : string)
  : option (list string) :=
  let doc_extension := lower (last_segment "."%char doc_name) in
  if String.eqb doc_extension "txt" then
    match read_text w doc_filepath with
    | Some doc_text => Some [doc_text]
    | None => None
    end
  else if String.eqb doc_extension "csv" then csv_sections w doc_filepath
  else if String.eqb doc_extension "pdf" then pdf_pages w doc_filepath
  else None.

Definition readable (w : World) (doc : string * string * string) : bool :=
  is_not_None (doc_sections w (fst (fst doc)) (snd doc)).

(* ================================================================== *)
(** ** The exceptions a build raises *)

(** Every exception [m] raises satisfies [P]. *)
Definition raises_only {A} (P : exn -> Prop) (m : M A) : Prop :=
  forall s e s', m s = (Raise e, s') -> P e.

(** What processing one document can raise: numpy's errors, the read of
    [embeddings_dir] before its assignment, and the errors of the services. *)
Definition is_pipeline_error (e : exn) : bool :=
  match e with
  | ValueError | IndexError | UnboundLocalError | ExternalError _ => true
  | _ => false
  end.

(** What can reach the [except] clause of [build_doc_index]. *)
Definition is_build_error (e : exn) : bool :=
  match e with
  | NoDocumentsIndexedException => true
  | _ => is_pipeline_error e
  end.

(** The error log only grows. *)
Definition log_grows (s s' : State) : Prop :=
  exists entries, error_log s' = error_log s ++ entries.

(* ================================================================== *)
(** ** The error log of a build *)

Definition unsupported_run : result (list QueryDocument * list string) * State :=
  build_doc_index world_unsupported "gs://corpus" "hr-docs" state_with_engine.

(* ================================================================== *)
(** ** The engine record of a build *)

(** The record [_create_me_index_and_endpoint] stores for [q_engine]. *)
Definition with_index (q_engine : QueryEngine) (index_id index_name endpoint : string)
  : QueryEngine :=
  {| qe_id := qe_id q_engine; qe_name := qe_name q_engine;
     qe_created_by := qe_created_by q_engine; qe_llm_type := qe_llm_type q_engine;
     qe_is_public := qe_is_public q_engine;
     qe_index_id := Some index_id; qe_index_name := Some index_name;
     qe_endpoint := Some endpoint |}.

(* ================================================================== *)
(** ** The chunks of the corpus *)

(** The text chunks [_process_documents] makes of a downloaded document;
    none when it cannot be read. *)
Definition doc_text_chunks (w : World) (doc : string * string * string) : list string :=
  match doc_sections w (fst (fst doc)) (snd doc) with
  | Some doc_text_list => flat_map (split_text w) doc_text_list
  | None => []
  end.

(** The chunks of all the documents, in the order of the documents, each
    with the url of its document. *)
Definition corpus_refs (w : World) (docs : list (string * string * string))
  : list (string * string) :=
  flat_map (fun doc => map (fun text => (snd (fst doc), text)) (doc_text_chunks w doc))
           docs.

(** Modelled from the spec: [QueryDocument.find_by_id(id)], of the FireO
    models of [common.models], which are not part of the sources at hand.
    Per the Metadata Store Adapter interface it is the find-by-id lookup of a
    Document. *)
Definition find_by_id (id : nat) (s : State) : option QueryDocument :=
  find (fun d => qd_id d =? id) (documents s).

(** The url of the document of chunk [c] and the text of [c], as they are
    looked up in the store. *)
Definition resolve (s : State) (c : QueryDocumentChunk) : option (string * string) :=
  match find_by_id (qc_query_document_id c) s with
  | Some d => Some (qd_doc_url d, qc_text c)
  | None => None
  end.

(** One text file, [notes.txt], that is empty. *)
Definition world_empty_file : World :=
  sample_world [ {| blob_name := "notes.txt"; blob_path := "/b/corpus/o/notes.txt" |} ]
    (fun _ => Some "") no_pages embed_all true.

(* ================================================================== *)
(** ** Querying an engine *)

(* number of document match results to retrieve *)
Definition NUM_MATCH_RESULTS : nat := 5.

(** What the Matching Engine answers at query time. *)
Record QueryWorld : Type := {
  (* aiplatform.MatchingEngineIndexEndpoint(q_engine.endpoint) *)
  index_endpoint_ok : option string -> bool;
  (* index_endpoint.find_neighbors(queries=query_embeddings,
       deployed_index_id=q_engine.deployed_index_name, num_neighbors=...):
     for each query, [int(match.id)] of each neighbor, [None] where [int]
     raises ValueError *)
  find_neighbors :
    QueryEngine -> list (option embedding) -> nat -> option (list (list (option Z)))
}.

(** The dict [query_ref] of [_query_doc_matches]. *)
Record QueryRef : Type := {
  document_id : nat;
  document_url : string;
  document_text : string;
  chunk_id : nat
}.

(** [QueryDocumentChunk.find_by_index(q_engine_id, index)] for any integer
    [index]: the indexes in store are natural numbers. *)
Definition find_by_index_int (q_engine_id : nat) (index : Z) (s : State)
  : option QueryDocumentChunk :=
  if (index <? 0)%Z then None else find_by_index q_engine_id (Z.to_nat index) s.

Definition make_query_ref (query_doc : QueryDocument) (doc_chunk : QueryDocumentChunk)
  : QueryRef :=
  {| document_id := qd_id query_doc; document_url := qd_doc_url query_doc;
     document_text := qc_text doc_chunk; chunk_id := qc_id doc_chunk |}.

(** The [for match in match_indexes] loop of [_query_doc_matches]. *)
Fixpoint match_loop (q_engine : QueryEngine) (match_indexes : list (option Z))
    (query_references : list QueryRef) : M (list QueryRef) :=
  match match_indexes with
  | [] => ret query_references
  | match_id :: rest =>
      index <- lift (match match_id with
                     | Some index => Ok index
                     | None => Raise ValueError
                     end) ;;
      doc_chunk <- gets (find_by_index_int (qe_id q_engine) index) ;;
      match doc_chunk with
      | None => raise ResourceNotFoundException
      | Some doc_chunk =>
          query_doc <- gets (find_by_id (qc_query_document_id doc_chunk)) ;;
          match query_doc with
          | None => raise ResourceNotFoundException
          | Some query_doc =>
              match_loop q_engine rest
                (query_references ++ [make_query_ref query_doc doc_chunk])
          end
      end
  end.

(** [_query_doc_matches(q_engine, query_prompt)] *)
Definition _query_doc_matches (w : World) (qw : QueryWorld) (q_engine : QueryEngine)
    (query_prompt : string) : M (list QueryRef) :=
  (* generate embeddings for prompt *)
  query_embeddings <- lift (_encode_texts_to_embeddings w [query_prompt]) ;;
  (* retrieve text matches for query *)
  external_ok "MatchingEngineIndexEndpoint" (index_endpoint_ok qw (qe_endpoint q_engine)) ;;
  match_indexes_list <-
    external "find_neighbors"
      (find_neighbors qw q_engine query_embeddings NUM_MATCH_RESULTS) ;;
  (* assemble document chunk matches from match indexes *)
  match match_indexes_list with
  | [] => raise IndexError
  | match_indexes :: _ => match_loop q_engine match_indexes []
  end.

(** The state is left as it was. *)
Definition unchanged (s s' : State) : Prop := s' = s.

(** What a query can raise. *)
Definition is_query_error (e : exn) : bool :=
  match e with
  | ResourceNotFoundException | ValueError | IndexError | ExternalError _ => true
  | _ => false
  end.

(** Neighbor [match_id] resolves in [s] to reference [ref]: its id is the
    index of a stored chunk of the engine, whose document is in store. *)
Definition resolves_to (q_engine_id : nat) (s : State) (match_id : option Z)
    (ref : QueryRef) : Prop :=
  exists k c d,
    match_id = Some (Z.of_nat k) /\
    find_by_index q_engine_id k s = Some c /\
    find_by_id (qc_query_document_id c) s = Some d /\
    ref = make_query_ref d c.

(* ================================================================== *)
(** ** A query after a build *)

(** A Matching Engine whose endpoint answers, with the given neighbors for
    every query. *)
Definition sample_query_world (match_indexes : list (option Z)) : QueryWorld :=
  {| index_endpoint_ok := fun _ => true;
     find_neighbors := fun _ _ _ => Some [match_indexes] |}.

Definition mixed_query_refs : list QueryRef :=
  Eval vm_compute in
    value_or []
      (fst (_query_doc_matches world_mixed (sample_query_world [Some 5%Z; Some 0%Z])
              (fst (fst mixed_outcome)) "which page?" (snd mixed_run))).

(* ================================================================== *)
(** ** The data files of a build *)

(** The files written for a processed document, the last one apart: they
    start at every MAX_NUM_TEXT_CHUNK_PROCESS-th index id of the document,
    and there are as many as its chunks need. *)
Definition file_group (d : QueryDocument) (g : list EmbFile * EmbFile) : Prop :=
  map ef_index_base (fst g ++ [snd g])
  = map (fun j => qd_index_start d + j * MAX_NUM_TEXT_CHUNK_PROCESS)
        (seq 0 (S (List.length (fst g)))) /\
  qd_index_end d - qd_index_start d
  <= S (List.length (fst g)) * MAX_NUM_TEXT_CHUNK_PROCESS
  < qd_index_end d - qd_index_start d + MAX_NUM_TEXT_CHUNK_PROCESS.

(* ================================================================== *)
(** ** A build in which no document is encoded *)

(** One text file, [first.txt], whose only chunk the embedding service
    fails to encode. *)
Definition world_none_encodes : World :=
  sample_world
    [ {| blob_name := "first.txt"; blob_path := "/b/corpus/o/first.txt" |} ]
    two_files no_pages (embed_all_but "alpha") true.

(* ================================================================== *)
(** ** Chunking, section by section *)




(* ################################################################## *)
(** * Part II: lemmas and theorems *)

(* ================================================================== *)
(** ** Strings, slices and paths *)

Example last_segment_ext : last_segment "."%char "docs/report.final.PDF" = "PDF".
Proof. reflexivity. Qed.

Example last_segment_none : last_segment "."%char "README" = "README".
Proof. reflexivity. Qed.

Example last_segment_trailing : last_segment "."%char "a." = "".
Proof. reflexivity. Qed.

Example path_stem_ex : path_stem "docs/report.final.pdf" = "report.final".
Proof. reflexivity. Qed.

Example path_stem_hidden : path_stem "docs/.bashrc" = ".bashrc".
Proof. reflexivity. Qed.

Example lower_ex : lower "PdF" = "pdf".
Proof. reflexivity. Qed.

(* ================================================================== *)
(** ** Reasoning in the monad *)

Section MonadLemmas.
Context {A B : Type}.

Lemma bind_Ok_inv (m : M A) (f : A -> M B) s b s2 :
  bind m f s = (Ok b, s2) ->
  exists a s1, m s = (Ok a, s1) /\ f a s1 = (Ok b, s2).
Proof.
  unfold bind. destruct (m s) as [[a | e] s1]; intro H.
  - exists a, s1. auto.
  - discriminate.
Qed.

Lemma bind_Raise_inv (m : M A) (f : A -> M B) s e s2 :
  bind m f s = (Raise e, s2) ->
  m s = (Raise e, s2) \/ exists a s1, m s = (Ok a, s1) /\ f a s1 = (Raise e, s2).
Proof.
  unfold bind. destruct (m s) as [[a | e1] s1]; intro H.
  - right. exists a, s1. auto.
  - left. inversion H. reflexivity.
Qed.

Lemma bind_Ok_run (m : M A) (f : A -> M B) s a s1 :
  m s = (Ok a, s1) -> bind m f s = f a s1.
Proof. unfold bind. intros ->. reflexivity. Qed.

Lemma bind_Raise_run (m : M A) (f : A -> M B) s e s1 :
  m s = (Raise e, s1) -> bind m f s = (Raise e, s1).
Proof. unfold bind. intros ->. reflexivity. Qed.
End MonadLemmas.

Section Preserves.
Variable R : State -> State -> Prop.
Hypothesis R_refl : forall s, R s s.
Hypothesis R_trans : forall s1 s2 s3, R s1 s2 -> R s2 s3 -> R s1 s3.

Lemma preserves_ret A (a : A) : preserves R (ret a).
Proof. intros s r s' H. inversion H. subst. apply R_refl. Qed.

Lemma preserves_raise A e : preserves R (@raise A e).
Proof. intros s r s' H. inversion H. subst. apply R_refl. Qed.

Lemma preserves_lift A (x : result A) : preserves R (lift x).
Proof. intros s r s' H. inversion H. subst. apply R_refl. Qed.

Lemma preserves_gets A (f : State -> A) : preserves R (gets f).
Proof. intros s r s' H. inversion H. subst. apply R_refl. Qed.

Lemma preserves_external A origin (o : option A) : preserves R (external origin o).
Proof. destruct o; [apply preserves_ret | apply preserves_raise]. Qed.

Lemma preserves_external_ok origin b : preserves R (external_ok origin b).
Proof. destruct b; [apply preserves_ret | apply preserves_raise]. Qed.

Lemma preserves_modify f : (forall s, R s (f s)) -> preserves R (modify f).
Proof. intros Hf s r s' H. inversion H. subst. apply Hf. Qed.

Lemma preserves_bind A B (m : M A) (f : A -> M B) :
  preserves R m -> (forall a, preserves R (f a)) -> preserves R (bind m f).
Proof.
  intros Hm Hf s r s'. unfold bind.
  destruct (m s) as [[a | e] s1] eqn:E; intro H.
  - eapply R_trans; [eapply Hm; eauto | eapply Hf; eauto].
  - inversion H. subst. eapply Hm; eauto.
Qed.

Lemma preserves_try_except A (m : M A) (h : exn -> M A) :
  preserves R m -> (forall e, preserves R (h e)) -> preserves R (try_except m h).
Proof.
  intros Hm Hh s r s'. unfold try_except.
  destruct (m s) as [[a | e] s1] eqn:E; intro H.
  - inversion H. subst. eapply Hm; eauto.
  - eapply R_trans; [eapply Hm; eauto | eapply Hh; eauto].
Qed.

Lemma preserves_for_each A (l : list A) (body : A -> M unit) :
  (forall a, preserves R (body a)) -> preserves R (for_each l body).
Proof.
  intro Hb. induction l as [| x l IH]; simpl.
  - apply preserves_ret.
  - apply preserves_bind; auto.
Qed.
End Preserves.

Lemma preserves_weaken A (R R' : State -> State -> Prop) (m : M A) :
  (forall s s', R s s' -> R' s s') -> preserves R m -> preserves R' m.
Proof. intros HR Hm s r s' H. apply HR. eapply Hm; eauto. Qed.

(** One step of a proof that a program preserves a preorder on states; the
    program is read as it is written, nothing is unfolded. *)
Ltac pres_step Hrefl Htrans :=
  lazymatch goal with
  | |- forall _, _ => intro
  | |- preserves _ (ret _) => apply (preserves_ret _ Hrefl)
  | |- preserves _ (raise _) => apply (preserves_raise _ Hrefl)
  | |- preserves _ (lift _) => apply (preserves_lift _ Hrefl)
  | |- preserves _ (gets _) => apply (preserves_gets _ Hrefl)
  | |- preserves _ (external _ _) => apply (preserves_external _ Hrefl)
  | |- preserves _ (external_ok _ _) => apply (preserves_external_ok _ Hrefl)
  | |- preserves _ (bind _ _) => apply (preserves_bind _ Htrans)
  | |- preserves _ (try_except _ _) => apply (preserves_try_except _ Htrans)
  | |- preserves _ (for_each _ _) => apply (preserves_for_each _ Hrefl Htrans)
  end.

(* ================================================================== *)
(** ** Frames: what a build leaves alone *)

Lemma same_store_refl s : same_store s s.
Proof. repeat split. Qed.

Lemma same_store_trans s1 s2 s3 : same_store s1 s2 -> same_store s2 s3 -> same_store s1 s3.
Proof. unfold same_store. intuition congruence. Qed.

Lemma store_frame_refl id s : store_frame id s s.
Proof. repeat split. Qed.

Lemma store_frame_trans id s1 s2 s3 :
  store_frame id s1 s2 -> store_frame id s2 s3 -> store_frame id s1 s3.
Proof. unfold store_frame. intuition congruence. Qed.

Lemma same_store_frame id s s' : same_store s s' -> store_frame id s s'.
Proof. unfold same_store, store_frame. intros (-> & -> & ->). auto. Qed.

Ltac same_store_tac := repeat pres_step same_store_refl same_store_trans.

Ltac frame_tac id := repeat pres_step (store_frame_refl id) (store_frame_trans id).

Lemma others_app A (key : A -> nat) id l1 l2 :
  others key id (l1 ++ l2) = others key id l1 ++ others key id l2.
Proof. apply filter_app. Qed.

Lemma others_own A (key : A -> nat) id l :
  Forall (fun x => key x = id) l -> others key id l = [].
Proof.
  induction 1 as [| x l Hx _ IH]; simpl; auto.
  rewrite Hx, Nat.eqb_refl. simpl. exact IH.
Qed.

Lemma others_foreign A (key : A -> nat) id l :
  Forall (fun x => key x <> id) l -> others key id l = l.
Proof.
  induction 1 as [| x l Hx _ IH]; simpl; auto.
  apply Nat.eqb_neq in Hx. rewrite Hx. simpl. now rewrite IH.
Qed.

Lemma others_spec A (key : A -> nat) id l :
  Forall (fun x => key x <> id) (others key id l).
Proof.
  apply Forall_forall. intros x Hx. apply filter_In in Hx as [_ Hx].
  apply negb_true_iff, Nat.eqb_neq in Hx. exact Hx.
Qed.

Lemma others_idem A (key : A -> nat) id l :
  others key id (others key id l) = others key id l.
Proof. apply others_foreign, others_spec. Qed.

Lemma fresh_gt used x : In x used -> x < fresh used.
Proof.
  intro H. unfold fresh.
  pose proof (list_max_le used (list_max used)) as [Hle _].
  specialize (Hle (Nat.le_refl _)).
  rewrite Forall_forall in Hle. specialize (Hle x H). lia.
Qed.

Lemma fresh_foreign A (key : A -> nat) (l : list A) used :
  incl (map key l) used -> Forall (fun x => key x <> fresh used) l.
Proof.
  intro Hincl. apply Forall_forall. intros x Hx.
  assert (key x < fresh used) by (apply fresh_gt, Hincl, in_map, Hx). lia.
Qed.

(** *** The state primitives *)
Lemma Logger_error_same entry : preserves same_store (Logger_error entry).
Proof. apply preserves_modify. intro s. repeat split. Qed.

Lemma mkdtemp_same : preserves same_store mkdtemp.
Proof. intros s r s' H. inversion H. repeat split. Qed.

Lemma write_file_same d f : preserves same_store (write_file d f).
Proof. apply preserves_modify. intro s. repeat split. Qed.

Lemma rmtree_same d : preserves same_store (rmtree d).
Proof. apply preserves_modify. intro s. repeat split. Qed.

Lemma upload_same w f : preserves same_store (upload w f).
Proof.
  unfold upload. same_store_tac.
  apply preserves_modify. intro s. repeat split.
Qed.

Lemma walk_same d : preserves same_store (walk d).
Proof. unfold walk. same_store_tac. Qed.

Lemma QueryDocument_save_frame id name url a b :
  preserves (store_frame id) (QueryDocument_save id name url a b).
Proof.
  intros s r s' H. inversion H. subst. clear H.
  repeat split. simpl. rewrite others_app. simpl.
  rewrite Nat.eqb_refl. simpl. apply app_nil_r.
Qed.

Lemma QueryDocumentChunk_save_frame id doc i text :
  preserves (store_frame id) (QueryDocumentChunk_save id doc i text).
Proof.
  apply preserves_modify. intro s.
  repeat split. simpl. rewrite others_app. simpl.
  rewrite Nat.eqb_refl. simpl. apply app_nil_r.
Qed.

Lemma QueryEngine_update_frame q :
  preserves (store_frame (qe_id q)) (QueryEngine_update q).
Proof.
  apply preserves_modify. intro s.
  repeat split. simpl. unfold others.
  induction (engines s) as [| q0 l IH]; simpl; auto.
  destruct (qe_id q0 =? qe_id q) eqn:E; simpl.
  - rewrite Nat.eqb_refl. simpl. exact IH.
  - rewrite E. simpl. now rewrite IH.
Qed.

(** *** The pipeline *)
Lemma index_data_loop_same w fuel doc_name text_chunks num_chunks chunk_index index_base dir :
  preserves same_store
    (index_data_loop w fuel doc_name text_chunks num_chunks chunk_index index_base dir).
Proof.
  revert chunk_index index_base dir.
  induction fuel as [| fuel IH]; intros chunk_index index_base dir; simpl;
    destruct (chunk_index <? num_chunks); same_store_tac.
  - apply mkdtemp_same.
  - destruct a0 as [is_successful chunk_embeddings]. same_store_tac.
    + apply write_file_same.
    + apply IH.
Qed.

Lemma _generate_index_data_same w doc_name text_chunks index_base :
  preserves same_store (_generate_index_data w doc_name text_chunks index_base).
Proof.
  unfold _generate_index_data. same_store_tac.
  - apply index_data_loop_same.
  - destruct a as [ib [d |]]; same_store_tac.
Qed.

Lemma upload_and_store_frame w q doc_url text_chunks index_base new_index_base dir :
  preserves (store_frame (qe_id q))
    (upload_and_store w q doc_url text_chunks index_base new_index_base dir).
Proof.
  unfold upload_and_store. frame_tac (qe_id q).
  - apply preserves_weaken with (R := same_store); [apply same_store_frame |].
    apply walk_same.
  - apply preserves_weaken with (R := same_store); [apply same_store_frame |].
    apply upload_same.
  - apply preserves_weaken with (R := same_store); [apply same_store_frame |].
    apply rmtree_same.
  - apply QueryDocument_save_frame.
  - apply QueryDocumentChunk_save_frame.
Qed.

Lemma _read_doc_same w doc_name doc_filepath :
  preserves same_store (_read_doc w doc_name doc_filepath).
Proof.
  unfold _read_doc.
  repeat match goal with |- context [if ?b then _ else _] => destruct b end;
    same_store_tac; apply Logger_error_same.
Qed.

Lemma read_step_same w doc_name doc_filepath :
  preserves same_store
    (try_except
       (doc_text_list <- _read_doc w doc_name doc_filepath ;;
        match doc_text_list with
        | None => Logger_error (LogNoContent doc_name) ;; ret None
        | Some l => ret (Some l)
        end)
       (fun e => Logger_error (LogReadError doc_name e) ;; ret None)).
Proof.
  same_store_tac.
  - apply _read_doc_same.
  - destruct a; same_store_tac. apply Logger_error_same.
  - apply Logger_error_same.
Qed.

Lemma process_loop_frame w q docs index_base processed not_processed :
  preserves (store_frame (qe_id q))
    (process_loop w q docs index_base processed not_processed).
Proof.
  revert index_base processed not_processed.
  induction docs as [| [[doc_name doc_url] doc_filepath] rest IH];
    intros index_base processed not_processed; simpl.
  - frame_tac (qe_id q).
  - apply (preserves_bind _ (store_frame_trans (qe_id q))).
    + apply preserves_weaken with (R := same_store); [apply same_store_frame |].
      apply read_step_same.
    + intros [doc_text_list |]; [| apply IH].
      apply (preserves_bind _ (store_frame_trans (qe_id q))).
      * apply preserves_weaken with (R := same_store); [apply same_store_frame |].
        apply _generate_index_data_same.
      * intros [new_index_base dir].
        apply (preserves_bind _ (store_frame_trans (qe_id q))).
        -- apply upload_and_store_frame.
        -- intro query_doc. apply IH.
Qed.

Lemma _process_documents_frame w doc_url q :
  preserves (store_frame (qe_id q)) (_process_documents w doc_url q).
Proof.
  unfold _process_documents, _download_files_to_local.
  frame_tac (qe_id q).
  destruct (_ =? 0); [frame_tac (qe_id q) | apply process_loop_frame].
Qed.

Lemma _create_me_index_and_endpoint_frame w index_name q :
  preserves (store_frame (qe_id q)) (_create_me_index_and_endpoint w index_name q).
Proof.
  unfold _create_me_index_and_endpoint. frame_tac (qe_id q).
  - apply (QueryEngine_update_frame
             {| qe_id := qe_id q; qe_name := qe_name q; qe_created_by := qe_created_by q;
                qe_llm_type := qe_llm_type q; qe_is_public := qe_is_public q;
                qe_index_id := Some a; qe_index_name := Some index_name;
                qe_endpoint := Some a0 |}).
  - apply preserves_weaken with (R := same_store); [apply same_store_frame |].
    apply Logger_error_same.
Qed.

Lemma create_data_bucket_same w : preserves same_store (create_data_bucket w).
Proof.
  unfold create_data_bucket. destruct (create_bucket w); same_store_tac;
    apply preserves_modify; intro s; repeat split.
Qed.

(** Whatever its outcome, [build_doc_index] touches no record of another
    engine than the one it finds under the name. *)
Lemma build_doc_index_frame w doc_url name q s r s' :
  find_engine name s = Some q ->
  build_doc_index w doc_url name s = (r, s') ->
  store_frame (qe_id q) s s'.
Proof.
  intros Hfind H. unfold build_doc_index in H.
  erewrite bind_Ok_run in H by reflexivity.
  rewrite Hfind in H.
  match type of H with
  | ?m s = _ => assert (Hp : preserves (store_frame (qe_id q)) m)
  end; [| exact (Hp _ _ _ H)].
  frame_tac (qe_id q).
  - apply preserves_weaken with (R := same_store); [apply same_store_frame |].
    apply create_data_bucket_same.
  - apply _process_documents_frame.
  - destruct a1 as [docs_processed docs_not_processed].
    destruct (_ =? 0); frame_tac (qe_id q).
    apply _create_me_index_and_endpoint_frame.
  - apply preserves_weaken with (R := same_store); [apply same_store_frame |].
    apply Logger_error_same.
Qed.

(* ================================================================== *)
(** ** Rollback *)

Lemma rollback_run id s : rollback id s = (Ok tt, rolled_back id s).
Proof. reflexivity. Qed.

Lemma QueryEngine_save_run w name user pub s :
  QueryEngine_save name user (DEFAULT_QUERY_EMBEDDING_MODEL w) pub s
  = (Ok (new_engine w name user pub s), engine_saved w name user pub s).
Proof. reflexivity. Qed.

Lemma find_app A (f : A -> bool) l1 l2 :
  find f (l1 ++ l2) = match find f l1 with Some x => Some x | None => find f l2 end.
Proof. induction l1 as [| x l1 IH]; simpl; auto. destruct (f x); auto. Qed.

Lemma find_engine_saved w name user pub s :
  find_engine name s = None ->
  find_engine name (engine_saved w name user pub s) = Some (new_engine w name user pub s).
Proof.
  unfold find_engine. intro H. simpl. rewrite find_app, H. simpl.
  now rewrite String.eqb_refl.
Qed.

(** No record of the store refers to the id of a new engine. *)
Lemma new_engine_id_foreign s :
  Forall (fun q => qe_id q <> fresh (engine_ids_in_use s)) (engines s) /\
  Forall (fun d => qd_query_engine_id d <> fresh (engine_ids_in_use s)) (documents s) /\
  Forall (fun c => qc_query_engine_id c <> fresh (engine_ids_in_use s)) (doc_chunks s).
Proof.
  unfold engine_ids_in_use. repeat split; apply fresh_foreign.
  - apply incl_appl, incl_refl.
  - apply incl_appr, incl_appl, incl_refl.
  - apply incl_appr, incl_appr, incl_refl.
Qed.

(** Rolling back after [build_doc_index], whatever it did, restores the
    metadata store to what it was before the engine record was saved. *)
Lemma rolled_back_restores w doc_url name user pub s r s1 :
  find_engine name s = None ->
  build_doc_index w doc_url name (engine_saved w name user pub s) = (r, s1) ->
  same_store s (rolled_back (fresh (engine_ids_in_use s)) s1).
Proof.
  intros Hfree Hbuild.
  pose proof (build_doc_index_frame _ _ _ _ _ _ _
                (find_engine_saved w _ user pub _ Hfree) Hbuild) as (He & Hd & Hc).
  simpl in He, Hd, Hc.
  destruct (new_engine_id_foreign s) as (Fe & Fd & Fc).
  repeat split; simpl.
  - rewrite He, others_app. simpl. rewrite Nat.eqb_refl. simpl.
    rewrite app_nil_r. now apply others_foreign.
  - rewrite Hd. now apply others_foreign.
  - rewrite Hc. now apply others_foreign.
Qed.

Lemma query_engine_build_unfold w doc_url name user pub s :
  find_engine name s = None ->
  query_engine_build w doc_url name user pub s =
  match build_doc_index w doc_url name (engine_saved w name user pub s) with
  | (Ok (docs_processed, docs_not_processed), s1) =>
      (Ok (new_engine w name user pub s, docs_processed, docs_not_processed), s1)
  | (Raise e, s1) =>
      (Raise (InternalServerError e), rolled_back (fresh (engine_ids_in_use s)) s1)
  end.
Proof.
  intro Hfree. unfold query_engine_build.
  erewrite bind_Ok_run by reflexivity. rewrite Hfree.
  erewrite bind_Ok_run by apply QueryEngine_save_run.
  unfold bind, try_except.
  destruct (build_doc_index w doc_url name (engine_saved w name user pub s))
    as [[[docs_processed docs_not_processed] | e] s1]; reflexivity.
Qed.

(* ================================================================== *)
(** ** Duplicate names *)

(** A name that is taken: the build stops at its first check. *)
Lemma query_engine_build_name_taken w doc_url query_engine user_id is_public s q :
  find_engine query_engine s = Some q ->
  query_engine_build w doc_url query_engine user_id is_public s
  = (Raise ValidationError, s).
Proof.
  intro Hfind. unfold query_engine_build.
  erewrite bind_Ok_run by reflexivity. now rewrite Hfind.
Qed.

(** C4. A build request whose engine name already resolves to a
    QueryEngine raises ValidationError and mutates nothing: the state after
    the call is the state before it, so the engines, the documents and the
    chunks in store (and the staging bucket and the temporary directories)
    are what they were and no record was created. *)
Theorem query_engine_build_existing_name w doc_url query_engine user_id is_public s q :
  find_engine query_engine s = Some q ->
  let run := query_engine_build w doc_url query_engine user_id is_public s in
  fst run = Raise ValidationError /\
  snd run = s /\
  engines (snd run) = engines s /\
  documents (snd run) = documents s /\
  doc_chunks (snd run) = doc_chunks s.
Proof.
  intros Hfind run. subst run.
  rewrite (query_engine_build_name_taken _ _ _ _ _ _ _ Hfind). simpl.
  repeat split.
Qed.

Lemma query_engine_build_existing_name_witness :
  fst (query_engine_build world_deploy_fails "gs://corpus" "hr-docs" "user-1" true
         state_with_engine) = Raise ValidationError /\
  snd (query_engine_build world_deploy_fails "gs://corpus" "hr-docs" "user-1" true
         state_with_engine) = state_with_engine.
Proof.
  destruct (query_engine_build_existing_name world_deploy_fails "gs://corpus" "hr-docs"
              "user-1" true state_with_engine
              {| qe_id := 7; qe_name := "hr-docs"; qe_created_by := "user-0";
                 qe_llm_type := "VertexAI-Embedding"; qe_is_public := true;
                 qe_index_id := Some "projects/p/indexes/0";
                 qe_index_name := Some "hr_docs_MEindex";
                 qe_endpoint := Some "projects/p/indexEndpoints/0" |} eq_refl)
    as (Hraise & Hstate & _).
  split; [exact Hraise | exact Hstate].
Defined.

(* ================================================================== *)
(** ** Failed builds *)

(** C1, as amended. When an exception escapes [build_doc_index] after the
    QueryEngine record was saved, [query_engine_build] deletes the documents
    of that engine, then its chunks, then the engine record, and raises
    InternalServerError from that exception.  Afterwards no record of the
    engine is left, the name resolves to nothing, and the metadata store is
    what it was before the build.  (Errors that [build_doc_index] absorbs do
    not trigger this: a document that cannot be read is listed as not
    processed, a failing deploy call is logged.) *)
Theorem query_engine_build_rolls_back w doc_url query_engine user_id is_public s e s1 :
  find_engine query_engine s = None ->
  build_doc_index w doc_url query_engine
    (engine_saved w query_engine user_id is_public s) = (Raise e, s1) ->
  let q_engine := new_engine w query_engine user_id is_public s in
  let s' := snd (rollback (qe_id q_engine) s1) in
  query_engine_build w doc_url query_engine user_id is_public s
  = (Raise (InternalServerError e), s') /\
  Forall (fun d => qd_query_engine_id d <> qe_id q_engine) (documents s') /\
  Forall (fun c => qc_query_engine_id c <> qe_id q_engine) (doc_chunks s') /\
  Forall (fun q => qe_id q <> qe_id q_engine) (engines s') /\
  find_engine query_engine s' = None /\
  same_store s s'.
Proof.
  intros Hfree Hbuild q_engine s'.
  assert (Hs' : s' = rolled_back (fresh (engine_ids_in_use s)) s1) by reflexivity.
  pose proof (rolled_back_restores _ _ _ _ _ _ _ _ Hfree Hbuild) as Hsame.
  rewrite <- Hs' in Hsame.
  split; [| split; [| split; [| split; [| split]]]].
  - rewrite query_engine_build_unfold by exact Hfree. now rewrite Hbuild.
  - rewrite Hs'. apply others_spec.
  - rewrite Hs'. apply others_spec.
  - rewrite Hs'. apply others_spec.
  - destruct Hsame as (He & _). unfold find_engine. rewrite He. exact Hfree.
  - exact Hsame.
Qed.

Lemma query_engine_build_rolls_back_witness :
  fst (query_engine_build world_unsupported "gs://corpus" "hr-docs" "user-1" true
         empty_state)
  = Raise (InternalServerError (InternalServerError NoDocumentsIndexedException)) /\
  find_engine "hr-docs"
    (snd (query_engine_build world_unsupported "gs://corpus" "hr-docs" "user-1" true
            empty_state)) = None.
Proof.
  destruct (query_engine_build_rolls_back world_unsupported "gs://corpus" "hr-docs"
              "user-1" true empty_state
              (InternalServerError NoDocumentsIndexedException)
              (snd (build_doc_index world_unsupported "gs://corpus" "hr-docs"
                      (engine_saved world_unsupported "hr-docs" "user-1" true
                         empty_state)))
              eq_refl eq_refl) as (Hrun & _ & _ & _ & Hname & _).
  rewrite Hrun. split; [reflexivity | exact Hname].
Defined.

(** C1, as stated, fails: the deploy call raises (the handler logged it),
    yet the build returns normally and the engine, with its document, stays
    in the store. *)
Lemma deploy_exception_is_not_rolled_back :
  let run :=
    query_engine_build world_deploy_fails "gs://corpus" "hr-docs" "user-1" true
      empty_state in
  deploy_index_ok world_deploy_fails = false /\
  error_log (snd run) = [LogDeployError (ExternalError "deploy_index")] /\
  (exists q_engine docs_processed, fst run = Ok (q_engine, docs_processed, [])) /\
  find_engine "hr-docs" (snd run) <> None /\
  List.length (documents (snd run)) = 1.
Proof.
  vm_compute. repeat split; try discriminate.
  eexists. eexists. reflexivity.
Qed.

Lemma process_loop_unreadable w q docs index_base processed not_processed s :
  Forall (unreadable w) docs ->
  fst (process_loop w q docs index_base processed not_processed s)
  = Ok (processed, not_processed ++ map (fun d => snd (fst d)) docs).
Proof.
  intro Hall. revert not_processed s.
  induction Hall as [| [[doc_name doc_url] doc_filepath] rest Hdoc _ IH];
    intros not_processed s; simpl.
  - now rewrite app_nil_r.
  - unfold bind at 1, try_except, bind at 1.
    specialize (Hdoc s). simpl in Hdoc.
    destruct (_read_doc w doc_name doc_filepath s) as [[[l |] | e] s1]; simpl.
    + exfalso. now apply (Hdoc l).
    + rewrite IH. now rewrite <- app_assoc.
    + rewrite IH. now rewrite <- app_assoc.
Qed.

Lemma create_data_bucket_ready w s :
  storage_ready w -> create_data_bucket w s = (Ok tt, set_bucket s []).
Proof.
  intros (_ & [H | (H & Hre)]); unfold create_data_bucket; rewrite H.
  - reflexivity.
  - rewrite Hre. reflexivity.
Qed.

Lemma _process_documents_unreadable w doc_url q s blobs :
  list_blobs w doc_url = Some blobs ->
  Forall (unreadable w) (downloaded w blobs) ->
  fst (_process_documents w doc_url q s) = Raise NoDocumentsIndexedException \/
  exists docs_not_processed,
    fst (_process_documents w doc_url q s) = Ok ([], docs_not_processed).
Proof.
  intros Hblobs Hall. unfold _process_documents, _download_files_to_local.
  rewrite Hblobs.
  erewrite bind_Ok_run by reflexivity.
  destruct blobs as [| b blobs].
  - left. reflexivity.
  - right. cbn [map List.length Nat.eqb].
    eexists. apply process_loop_unreadable. exact Hall.
Qed.

Lemma build_doc_index_no_docs w doc_url name q s blobs :
  find_engine name s = Some q ->
  storage_ready w ->
  list_blobs w doc_url = Some blobs ->
  Forall (unreadable w) (downloaded w blobs) ->
  fst (build_doc_index w doc_url name s)
  = Raise (InternalServerError NoDocumentsIndexedException).
Proof.
  intros Hfind Hready Hblobs Hall. unfold build_doc_index.
  erewrite bind_Ok_run by reflexivity. rewrite Hfind.
  unfold try_except.
  erewrite bind_Ok_run
    by (destruct Hready as (-> & _); reflexivity).
  erewrite bind_Ok_run by (apply create_data_bucket_ready, Hready).
  unfold bind at 1.
  destruct (_process_documents_unreadable w doc_url q (set_bucket s []) blobs
              Hblobs Hall) as [H | (n & H)];
    destruct (_process_documents w doc_url q (set_bucket s [])) as [r s1];
    simpl in H; subst r; reflexivity.
Qed.

(** Documents that cannot be read.  If [_read_doc] gives no content for any
    document of a build (the listing succeeds), the build fails: the
    NoDocumentsIndexedException raised by [build_doc_index] reaches the
    caller wrapped, at each of the two levels, in an InternalServerError.
    Afterwards the requested name resolves to no QueryEngine, and the
    metadata store is what it was before the build. *)
Theorem query_engine_build_no_documents w doc_url query_engine user_id is_public s blobs :
  find_engine query_engine s = None ->
  storage_ready w ->
  list_blobs w doc_url = Some blobs ->
  Forall (unreadable w) (downloaded w blobs) ->
  let run := query_engine_build w doc_url query_engine user_id is_public s in
  (exists e,
     fst run = Raise e /\
     e = InternalServerError (InternalServerError NoDocumentsIndexedException) /\
     root_cause e = NoDocumentsIndexedException) /\
  find_engine query_engine (snd run) = None /\
  same_store s (snd run).
Proof.
  intros Hfree Hready Hblobs Hall run.
  pose proof (build_doc_index_no_docs w doc_url query_engine _
                (engine_saved w query_engine user_id is_public s) blobs
                (find_engine_saved w _ user_id is_public s Hfree) Hready Hblobs Hall)
    as Hbuild.
  destruct (build_doc_index w doc_url query_engine
              (engine_saved w query_engine user_id is_public s)) as [r s1] eqn:E.
  simpl in Hbuild. subst r.
  pose proof (rolled_back_restores _ _ _ _ _ _ _ _ Hfree E) as Hsame.
  subst run. rewrite query_engine_build_unfold by exact Hfree. rewrite E. simpl.
  split; [| split].
  - eexists. repeat split.
  - destruct Hsame as (He & _). unfold find_engine. rewrite He. exact Hfree.
  - exact Hsame.
Qed.

Lemma query_engine_build_no_documents_witness :
  fst (query_engine_build world_unsupported "gs://corpus" "eng-docs" "user-1" true
         state_with_engine)
  = Raise (InternalServerError (InternalServerError NoDocumentsIndexedException)) /\
  find_engine "eng-docs"
    (snd (query_engine_build world_unsupported "gs://corpus" "eng-docs" "user-1" true
            state_with_engine)) = None.
Proof.
  destruct (query_engine_build_no_documents world_unsupported "gs://corpus" "eng-docs"
              "user-1" true state_with_engine
              [ {| blob_name := "slides.pptx"; blob_path := "/b/corpus/o/slides.pptx" |} ])
    as ((e & Hfails & -> & _) & Hname & _).
  - reflexivity.
  - split; [reflexivity | left; reflexivity].
  - reflexivity.
  - repeat constructor. intros s l. vm_compute. discriminate.
  - split; [exact Hfails | exact Hname].
Defined.

(* ================================================================== *)
(** ** Batches *)

Lemma slice_length A (l : list A) i j :
  j <= List.length l -> List.length (slice l i j) = j - i.
Proof.
  intro H. unfold slice. rewrite length_firstn, length_skipn. lia.
Qed.

Lemma slice_0 A (l : list A) j : slice l 0 j = firstn j l.
Proof. unfold slice. now rewrite Nat.sub_0_r. Qed.

Lemma slice_shift A (l : list A) n i j :
  slice l (n + i) (n + j) = slice (skipn n l) i j.
Proof.
  unfold slice. rewrite skipn_skipn.
  replace (n + j - (n + i)) with (j - i) by lia.
  now rewrite (Nat.add_comm i n).
Qed.

(** Consecutive slices of width [step] put back together. *)
Lemma concat_slices A step m (l : list A) :
  List.length l <= m * step ->
  List.concat (map (fun i => slice l i (i + step)) (map (fun k => k * step) (seq 0 m))) = l.
Proof.
  revert l. induction m as [| m IH]; intros l Hlen.
  - simpl in *. destruct l; [reflexivity | simpl in Hlen; lia].
  - cbn [seq map List.concat]. rewrite <- seq_shift, !map_map.
    simpl Nat.mul at 1. rewrite slice_0. simpl Nat.add at 1.
    transitivity (firstn step l ++ skipn step l); [| apply firstn_skipn].
    f_equal.
    etransitivity;
      [| apply (IH (skipn step l)); rewrite length_skipn; simpl in Hlen; lia].
    rewrite map_map. f_equal. apply map_ext. intro k.
    replace (S k * step) with (step + k * step) by (simpl; lia).
    replace (step + k * step + step) with (step + (k * step + step)) by lia.
    apply slice_shift.
Qed.

Lemma range_step_covers n step : 0 < step -> n <= ((n + step - 1) / step) * step.
Proof.
  intro Hpos.
  pose proof (Nat.div_mod_eq (n + step - 1) step) as Hdm.
  pose proof (Nat.mod_upper_bound (n + step - 1) step) as Hup.
  nia.
Qed.

Lemma _generate_batches_concat text_chunks batch_size :
  0 < batch_size -> List.concat (_generate_batches text_chunks batch_size) = text_chunks.
Proof.
  intro Hpos. unfold _generate_batches, range_step.
  apply concat_slices, range_step_covers, Hpos.
Qed.

Lemma _encode_texts_to_embeddings_ok w sentence_list :
  from_pretrained_ok w = true ->
  service_well_behaved w ->
  exists out,
    _encode_texts_to_embeddings w sentence_list = Ok out /\
    List.length out = List.length sentence_list /\
    Forall entry_ok out /\
    (get_embeddings w sentence_list = None ->
     out = repeat None (List.length sentence_list)).
Proof.
  intros Hmodel Hservice. unfold _encode_texts_to_embeddings. rewrite Hmodel.
  destruct (get_embeddings w sentence_list) as [embeddings |] eqn:E.
  - destruct (Hservice _ _ E) as (Hlen & Hdim).
    exists (map Some embeddings). repeat split.
    + now rewrite length_map.
    + apply Forall_forall. intros o Ho. apply in_map_iff in Ho as (v & <- & Hv).
      right. exists v. split; [reflexivity |].
      rewrite Forall_forall in Hdim. now apply Hdim.
    + discriminate.
  - exists (repeat None (List.length sentence_list)). repeat split.
    + apply repeat_length.
    + apply Forall_forall. intros o Ho. apply repeat_spec in Ho. now left.
Qed.

Lemma collect_results_ok w batches :
  from_pretrained_ok w = true ->
  service_well_behaved w ->
  exists out,
    collect_results w batches = Ok out /\
    List.length out = List.length (List.concat batches) /\
    Forall entry_ok out.
Proof.
  intros Hmodel Hservice. induction batches as [| batch rest IH]; simpl.
  - exists []. repeat split. constructor.
  - destruct (_encode_texts_to_embeddings_ok w batch Hmodel Hservice)
      as (r & -> & Hlen & Hok & _).
    destruct IH as (rs & -> & Hlens & Hoks). simpl.
    exists (r ++ rs). repeat split.
    + rewrite !length_app. congruence.
    + apply Forall_app. split; assumption.
Qed.

Lemma is_successful_of_length text_chunks embeddings_list :
  List.length (is_successful_of text_chunks embeddings_list)
  = Nat.min (List.length text_chunks) (List.length embeddings_list).
Proof. unfold is_successful_of. now rewrite length_map, length_combine. Qed.

Lemma np_stack_Ok arrays stacked : np_stack arrays = Ok stacked -> stacked = arrays.
Proof.
  unfold np_stack. destruct arrays as [| a rest]; [discriminate |].
  match goal with |- context [if ?b then _ else _] => destruct b end;
    [| discriminate].
  now intros [= <-].
Qed.

Lemma _get_embedding_batched_Ok w text_chunks batch_size is_successful embeddings :
  _get_embedding_batched w text_chunks batch_size = Ok (is_successful, embeddings) ->
  exists embeddings_list,
    embeddings_list_of w text_chunks batch_size = Ok embeddings_list /\
    is_successful = is_successful_of text_chunks embeddings_list /\
    embeddings = not_None embeddings_list /\
    embeddings <> [].
Proof.
  unfold _get_embedding_batched.
  destruct (embeddings_list_of w text_chunks batch_size) as [el | e]; [| discriminate].
  simpl. destruct (np_stack (not_None el)) as [stacked | e] eqn:E; [| discriminate].
  simpl. intros [= <- <-]. apply np_stack_Ok in E as Hs. subst stacked.
  exists el. repeat split.
  intro Hnil. rewrite Hnil in E. discriminate.
Qed.

(* ================================================================== *)
(** ** The embedding encoder *)

Lemma not_None_dimensions embeddings_list :
  Forall entry_ok embeddings_list ->
  Forall (fun v => List.length v = DIMENSIONS) (not_None embeddings_list).
Proof.
  induction 1 as [| o l Ho _ IH]; simpl; [constructor |].
  destruct o as [v |]; [| exact IH].
  constructor; [| exact IH].
  destruct Ho as [Ho | (v' & [= <-] & Hv)]; [discriminate | exact Hv].
Qed.

Lemma np_stack_same_shape arrays :
  arrays <> [] ->
  Forall (fun v => List.length v = DIMENSIONS) arrays ->
  np_stack arrays = Ok arrays.
Proof.
  intros Hne Hall. unfold np_stack. destruct arrays as [| a rest]; [contradiction |].
  inversion Hall as [| a' rest' Ha Hrest]. subst.
  assert (Hshape : forallb (fun b => List.length b =? List.length a) rest = true).
  { apply forallb_forall. intros b Hb. rewrite Forall_forall in Hrest.
    apply Nat.eqb_eq. rewrite (Hrest b Hb). now symmetry. }
  now rewrite Hshape.
Qed.

(** The encoder where it keeps its contract.  With the model loaded and a
    service that answers a request, when it answers, with one vector of
    DIMENSIONS coordinates per text: for every
    list of texts the encoder returns (it does not raise, whether the
    request succeeds or fails) a list of the same length in which each entry
    is the failed marker None or a vector of DIMENSIONS coordinates; when
    the request of a batch fails, every entry of that batch is None; and in
    [_get_embedding_batched], for any batch size above zero, the collected
    [embeddings_list] and the mask [is_successful] derived from it have the
    length of the input list, that mask being the one returned, which it is
    as soon as one entry is a vector. *)
Theorem embedding_encoder_contract w :
  from_pretrained_ok w = true ->
  service_well_behaved w ->
  (forall sentence_list,
     exists out,
       _encode_texts_to_embeddings w sentence_list = Ok out /\
       List.length out = List.length sentence_list /\
       Forall entry_ok out /\
       (get_embeddings w sentence_list = None ->
        out = repeat None (List.length sentence_list))) /\
  (forall text_chunks batch_size,
     0 < batch_size ->
     exists embeddings_list,
       embeddings_list_of w text_chunks batch_size = Ok embeddings_list /\
       List.length embeddings_list = List.length text_chunks /\
       Forall entry_ok embeddings_list /\
       List.length (is_successful_of text_chunks embeddings_list)
       = List.length text_chunks /\
       (forall is_successful embeddings,
          _get_embedding_batched w text_chunks batch_size = Ok (is_successful, embeddings) ->
          is_successful = is_successful_of text_chunks embeddings_list) /\
       (not_None embeddings_list <> [] ->
        _get_embedding_batched w text_chunks batch_size
        = Ok (is_successful_of text_chunks embeddings_list, not_None embeddings_list))).
Proof.
  intros Hmodel Hservice. split.
  - intro sentence_list. now apply _encode_texts_to_embeddings_ok.
  - intros text_chunks batch_size Hpos.
    destruct (collect_results_ok w (_generate_batches text_chunks batch_size)
                Hmodel Hservice) as (el & Hel & Hlen & Hok).
    rewrite _generate_batches_concat in Hlen by exact Hpos.
    assert (Hlist : embeddings_list_of w text_chunks batch_size = Ok el).
    { unfold embeddings_list_of. destruct batch_size; [lia | exact Hel]. }
    exists el. repeat split; try assumption.
    + rewrite is_successful_of_length, Hlen. apply Nat.min_id.
    + intros mask embs Hrun.
      apply _get_embedding_batched_Ok in Hrun as (el' & Hel' & -> & _).
      congruence.
    + intro Hsome. unfold _get_embedding_batched. rewrite Hlist. simpl.
      rewrite np_stack_same_shape; [reflexivity | exact Hsome |].
      now apply not_None_dimensions.
Qed.

Lemma embed_all_but_well_behaved text blobs texts pages deploy :
  service_well_behaved (sample_world blobs texts pages (embed_all_but text) deploy).
Proof.
  intros sentence_list embeddings. simpl. unfold embed_all_but.
  destruct (existsb _ sentence_list); [discriminate |].
  intros [= <-]. split.
  - apply length_map.
  - apply Forall_forall. intros v Hv. apply in_map_iff in Hv as (_ & <- & _).
    apply repeat_length.
Qed.

Lemma embedding_encoder_contract_witness :
  exists out,
    _encode_texts_to_embeddings world_flaky ["alpha"; "beta"] = Ok out /\
    List.length out = 2 /\
    out = [None; None].
Proof.
  destruct (embedding_encoder_contract world_flaky eq_refl
              (embed_all_but_well_behaved "beta" [] no_text no_pages true))
    as (Hencode & _).
  destruct (Hencode ["alpha"; "beta"]) as (out & Hrun & Hlen & _ & Hfail).
  exists out. repeat split.
  - exact Hrun.
  - exact Hlen.
  - apply Hfail. reflexivity.
Defined.

(* ================================================================== *)
(** ** The lines of an embeddings file *)

Lemma MAX_NUM_TEXT_CHUNK_PROCESS_pos : 0 < MAX_NUM_TEXT_CHUNK_PROCESS.
Proof. unfold MAX_NUM_TEXT_CHUNK_PROCESS. lia. Qed.

Lemma lines_of_group (process_chunks : list string) :
  forall (embeddings_list : list (option embedding)) (index_base : nat),
    List.length process_chunks <= List.length embeddings_list ->
    map make_record
      (combine
         (map fst
            (filter snd
               (combine (seq index_base (List.length process_chunks))
                        (is_successful_of process_chunks embeddings_list))))
         (not_None embeddings_list))
    = flat_map (line_at index_base embeddings_list)
        (seq 0 (List.length process_chunks)).
Proof.
  induction process_chunks as [| c rest IH]; intros el index_base Hlen.
  - reflexivity.
  - destruct el as [| o el]; [simpl in Hlen; lia |].
    simpl in Hlen. apply le_S_n in Hlen.
    specialize (IH el (S index_base) Hlen).
    cbn [List.length seq is_successful_of combine map snd filter fst].
    fold (is_successful_of rest el).
    cbn [flat_map]. rewrite <- (seq_shift (List.length rest) 0).
    rewrite (flat_map_concat_map _ (map S _)), map_map, <- flat_map_concat_map.
    assert (Htail :
      flat_map (fun x => line_at index_base (o :: el) (S x)) (seq 0 (List.length rest))
      = flat_map (line_at (S index_base) el) (seq 0 (List.length rest))).
    { apply flat_map_ext. intro q. unfold line_at. simpl nth.
      now rewrite Nat.add_succ_r. }
    destruct o as [e |]; cbn [is_not_None filter map fst not_None combine flat_map].
    + unfold line_at at 1. cbn [nth app]. rewrite Nat.add_0_r.
      unfold make_record at 1. cbn [fst snd]. f_equal.
      rewrite Htail. exact IH.
    + unfold line_at at 1. cbn [nth app]. rewrite Htail. exact IH.
Qed.

(* ================================================================== *)
(** ** What [_generate_index_data] writes *)

Lemma group_start_in_group k q :
  q < MAX_NUM_TEXT_CHUNK_PROCESS ->
  group_start (k * MAX_NUM_TEXT_CHUNK_PROCESS + q) = k * MAX_NUM_TEXT_CHUNK_PROCESS.
Proof.
  intro Hq. unfold group_start. f_equal.
  pose proof MAX_NUM_TEXT_CHUNK_PROCESS_pos.
  rewrite Nat.add_comm, Nat.div_add by lia.
  rewrite Nat.div_small by exact Hq. reflexivity.
Qed.

Lemma find_skip_foreign (d : nat) (f : EmbFile) (l : list (nat * list EmbFile)) :
  Forall (fun e => fst e <> d) l ->
  find (fun e : nat * list EmbFile => fst e =? d)
       (map (update_dir d f) (l ++ [(d, [])]))
  = Some (d, [f]).
Proof.
  induction 1 as [| e l He _ IH]; simpl.
  - unfold update_dir. simpl. rewrite Nat.eqb_refl. simpl.
    now rewrite Nat.eqb_refl.
  - apply Nat.eqb_neq in He. unfold update_dir at 1. rewrite He, He. exact IH.
Qed.

(** The directory [mkdtemp] has just made holds the file written to it and
    nothing else. *)
Lemma fresh_dir_files s d sa f sd :
  mkdtemp s = (Ok d, sa) ->
  write_file d f sa = (Ok tt, sd) ->
  dir_files d sd = [f] /\ written sd = written s ++ [f].
Proof.
  intros Hmk Hwr. inversion Hmk. subst. inversion Hwr. subst. clear Hmk Hwr.
  split; [| reflexivity].
  unfold dir_files. simpl.
  rewrite find_skip_foreign; [reflexivity |].
  apply fresh_foreign, incl_refl.
Qed.

Lemma seq_from a len : seq a len = map (Nat.add a) (seq 0 len).
Proof.
  revert a. induction len as [| len IH]; intro a; simpl.
  - reflexivity.
  - rewrite Nat.add_0_r. f_equal. rewrite (IH (S a)), (IH 1), map_map.
    apply map_ext. intro q. lia.
Qed.

Lemma flat_map_map A B C (g : A -> B) (f : B -> list C) l :
  flat_map f (map g l) = flat_map (fun x => f (g x)) l.
Proof. induction l as [| x l IH]; simpl; [reflexivity | now rewrite IH]. Qed.

Lemma flat_map_ext_in A B (f g : A -> list B) l :
  (forall x, In x l -> f x = g x) -> flat_map f l = flat_map g l.
Proof.
  induction l as [| x l IH]; intro H; simpl; [reflexivity |].
  rewrite H by (left; reflexivity). f_equal. apply IH. intros y Hy. apply H. now right.
Qed.

Lemma flat_map_short A B (f : A -> list B) l :
  (forall x, List.length (f x) <= 1) -> List.length (flat_map f l) <= List.length l.
Proof.
  intro H. induction l as [| x l IH]; simpl; [lia |].
  rewrite length_app. specialize (H x). lia.
Qed.

Lemma line_at_short index_base embeddings_list q :
  List.length (line_at index_base embeddings_list q) <= 1.
Proof. unfold line_at. destruct (nth q embeddings_list None); simpl; lia. Qed.

Opaque MAX_NUM_TEXT_CHUNK_PROCESS.

(** A successful run of the loop from position [chunk_index], the ids of the
    document starting at [B]. *)
Lemma index_data_loop_Ok w doc_name text_chunks B :
  forall fuel chunk_index dir s nb d s',
    (chunk_index < List.length text_chunks ->
     exists k, chunk_index = k * MAX_NUM_TEXT_CHUNK_PROCESS) ->
    chunk_index <= List.length text_chunks ->
    index_data_loop w fuel doc_name text_chunks (List.length text_chunks) chunk_index
      (B + chunk_index) dir s = (Ok (nb, d), s') ->
    nb = B + List.length text_chunks /\
    (List.length text_chunks <= chunk_index -> d = dir /\ s' = s) /\
    exists files,
      written s' = written s ++ files /\
      flat_map ef_lines files
      = expected_lines w text_chunks B
          (seq chunk_index (List.length text_chunks - chunk_index)) /\
      Forall (fun f => List.length (ef_lines f) <= MAX_NUM_TEXT_CHUNK_PROCESS) files /\
      (chunk_index < List.length text_chunks ->
       exists dl, d = Some dl /\ incl (dir_files dl s') files).
Proof.
  set (n := List.length text_chunks).
  assert (Hstop : forall ci dir s nb d s',
            n <= ci -> ci <= n ->
            @ret (nat * option nat) (B + ci, dir) s = (Ok (nb, d), s') ->
            nb = B + n /\
            (n <= ci -> d = dir /\ s' = s) /\
            exists files,
              written s' = written s ++ files /\
              flat_map ef_lines files
              = expected_lines w text_chunks B (seq ci (n - ci)) /\
              Forall (fun f => List.length (ef_lines f) <= MAX_NUM_TEXT_CHUNK_PROCESS)
                     files /\
              (ci < n -> exists dl, d = Some dl /\ incl (dir_files dl s') files)).
  { intros ci dir s nb d s' Hge Hle Hrun. inversion Hrun. subst.
    assert (ci = n) by lia. subst ci.
    split; [reflexivity |]. split; [auto |].
    exists []. rewrite app_nil_r, Nat.sub_diag. simpl.
    repeat split; [constructor | lia]. }
  induction fuel as [| fuel IH]; intros ci dir s nb d s' Hmult Hle Hrun.
  - cbn [index_data_loop] in Hrun. destruct (ci <? n) eqn:E; [discriminate |].
    apply Nat.ltb_ge in E. now apply (Hstop ci dir s).
  - cbn [index_data_loop] in Hrun. destruct (ci <? n) eqn:E;
      [| apply Nat.ltb_ge in E; now apply (Hstop ci dir s)].
    apply Nat.ltb_lt in E. destruct (Hmult E) as (k & Hk).
    pose proof MAX_NUM_TEXT_CHUNK_PROCESS_pos as Hpos.
    remember (Nat.min MAX_NUM_TEXT_CHUNK_PROCESS (n - ci)) as len eqn:Hlen.
    assert (Hlen_le : len <= MAX_NUM_TEXT_CHUNK_PROCESS /\ len <= n - ci /\ 0 < len /\
                      (ci + len < n -> len = MAX_NUM_TEXT_CHUNK_PROCESS)) by lia.
    destruct Hlen_le as (HlenM & Hlenn & Hlen0 & Hfull).
    remember (slice text_chunks ci (ci + len)) as pc eqn:Hpc.
    assert (Hpclen : List.length pc = len).
    { subst pc. rewrite slice_length; fold n; lia. }
    rewrite Hpclen in Hrun.
    apply bind_Ok_inv in Hrun as (dnew & sa & Hmk & Hrun).
    apply bind_Ok_inv in Hrun as ([mask embs] & sb & Hemb & Hrun).
    inversion Hemb as [[Hbatched Hsb]]. subst sb. clear Hemb.
    apply bind_Ok_inv in Hrun as (selected & sc & Hsel & Hrun).
    inversion Hsel as [[Hmask Hsc]]. subst sc. clear Hsel.
    apply bind_Ok_inv in Hrun as ([] & sd & Hwr & Hrun).
    replace (B + ci + len) with (B + (ci + len)) in Hrun by lia.
    apply IH in Hrun; [| intro Hlt; exists (S k); simpl; lia | lia].
    destruct Hrun as (Hnb & Hdone & files & Hwritten & Hlines & Hsizes & Hdir).
    destruct (fresh_dir_files _ _ _ _ _ Hmk Hwr) as (Hdirnew & Hwnew).
    apply _get_embedding_batched_Ok in Hbatched as (el & Hel & -> & -> & _).
    unfold np_mask in Hmask.
    destruct (List.length (is_successful_of pc el) =? List.length (seq (B + ci) len))
      eqn:Hm; [| discriminate].
    apply Nat.eqb_eq in Hm. rewrite is_successful_of_length, length_seq, Hpclen in Hm.
    inversion Hmask as [Hselected]. clear Hmask. subst selected.
    assert (Hfile :
      map make_record
        (combine (map fst (filter snd (combine (seq (B + ci) len)
                                               (is_successful_of pc el))))
                 (not_None el))
      = expected_lines w text_chunks B (seq ci len)).
    { rewrite <- Hpclen at 1. rewrite lines_of_group by lia.
      rewrite Hpclen, (seq_from ci). unfold expected_lines. rewrite flat_map_map.
      apply flat_map_ext_in. intros q Hq. apply in_seq in Hq.
      unfold line_at, chunk_embedding, group_of.
      rewrite Hk, group_start_in_group by lia. rewrite <- Hk. fold n.
      rewrite <- Hlen, <- Hpc, Hel.
      replace (ci + q - ci) with q by lia.
      rewrite Nat.add_assoc. reflexivity. }
    split; [exact Hnb |]. split; [intro; lia |].
    eexists (_ :: files). repeat split.
    + rewrite Hwritten, Hwnew, <- app_assoc. reflexivity.
    + cbn [flat_map ef_lines]. rewrite Hfile, Hlines.
      unfold expected_lines. rewrite <- flat_map_app, <- seq_app.
      do 2 f_equal. lia.
    + constructor; [| exact Hsizes].
      cbn [ef_lines]. rewrite Hfile. unfold expected_lines.
      etransitivity; [apply flat_map_short | rewrite length_seq; exact HlenM].
      intro p. destruct (chunk_embedding w text_chunks p); simpl; lia.
    + intros _. destruct (Nat.lt_ge_cases (ci + len) n) as [Hmore | Hlast].
      * destruct (Hdir Hmore) as (dl & Hd & Hincl).
        exists dl. split; [exact Hd |]. now apply incl_tl.
      * destruct (Hdone Hlast) as (Hd & Hs). subst d s'.
        exists dnew. split; [reflexivity |]. rewrite Hdirnew.
        intros f [<- | []]. now left.
Qed.

(** A successful [_generate_index_data]: the running index advances by the
    number of chunks, there is at least one chunk, and the files written
    hold, in order, the lines of the positions whose encoding succeeded. *)
Lemma _generate_index_data_Ok w doc_name text_chunks index_base s nb d s' :
  _generate_index_data w doc_name text_chunks index_base s = (Ok (nb, d), s') ->
  nb = index_base + List.length text_chunks /\
  0 < List.length text_chunks /\
  exists files,
    written s' = written s ++ files /\
    flat_map ef_lines files
    = expected_lines w text_chunks index_base (seq 0 (List.length text_chunks)) /\
    Forall (fun f => List.length (ef_lines f) <= MAX_NUM_TEXT_CHUNK_PROCESS) files /\
    incl (dir_files d s') files.
Proof.
  unfold _generate_index_data. intro Hrun.
  apply bind_Ok_inv in Hrun as ([nb0 dir] & s1 & Hloop & Hret).
  rewrite <- (Nat.add_0_r index_base) in Hloop at 1.
  apply index_data_loop_Ok in Hloop; [| intros _; exists 0; reflexivity | lia].
  destruct Hloop as (Hnb & Hdone & files & Hwritten & Hlines & Hsizes & Hdir).
  destruct dir as [d0 |]; [| discriminate].
  inversion Hret. subst. clear Hret.
  assert (Hpos : 0 < List.length text_chunks).
  { destruct (Nat.eq_0_gt_0_cases (List.length text_chunks)) as [Hz | Hp]; [| exact Hp].
    destruct Hdone as (Hd & _); [lia | discriminate]. }
  split; [reflexivity |]. split; [exact Hpos |].
  exists files. rewrite Nat.sub_0_r in Hlines. repeat split; try assumption.
  destruct (Hdir Hpos) as (dl & [= <-] & Hincl). exact Hincl.
Qed.

Lemma _get_embedding_batched_raises w text_chunks batch_size e :
  _get_embedding_batched w text_chunks batch_size = Raise e ->
  e <> LoopBoundExceeded.
Proof.
  unfold _get_embedding_batched, embeddings_list_of.
  assert (Hcollect : forall batches e0,
            collect_results w batches = Raise e0 -> e0 <> LoopBoundExceeded).
  { induction batches as [| batch rest IH]; simpl; intros e0 H; [discriminate |].
    unfold _encode_texts_to_embeddings in H.
    destruct (from_pretrained_ok w); [| simpl in H; inversion H; discriminate].
    destruct (get_embeddings w batch); simpl in H;
      (destruct (collect_results w rest); simpl in H;
       [discriminate | inversion H; subst; now apply IH]). }
  destruct batch_size as [| bs]; simpl.
  - intros [= <-]. discriminate.
  - destruct (collect_results w _) as [el | e0] eqn:E; simpl.
    + unfold np_stack. destruct (not_None el) as [| a rest]; simpl.
      * intros [= <-]. discriminate.
      * match goal with |- context [if ?b then _ else _] => destruct b end; simpl;
          [discriminate | intros [= <-]; discriminate].
    + intros [= <-]. now apply (Hcollect _ _ E).
Qed.

(** The loop of [_generate_index_data] ends within [num_chunks] passes: the
    marker [LoopBoundExceeded] is never raised. *)
Lemma index_data_loop_bound w doc_name text_chunks num_chunks :
  forall fuel chunk_index index_base dir s s',
    num_chunks = List.length text_chunks ->
    num_chunks - chunk_index <= fuel ->
    index_data_loop w fuel doc_name text_chunks num_chunks chunk_index index_base dir s
    <> (Raise LoopBoundExceeded, s').
Proof.
  induction fuel as [| fuel IH]; intros ci ib dir s s' Hn Hfuel Hrun;
    cbn [index_data_loop] in Hrun;
    (destruct (ci <? num_chunks) eqn:E; [| discriminate]);
    apply Nat.ltb_lt in E; [lia |].
  pose proof MAX_NUM_TEXT_CHUNK_PROCESS_pos as Hpos.
  remember (Nat.min MAX_NUM_TEXT_CHUNK_PROCESS (num_chunks - ci)) as len eqn:Hlen.
  assert (Hpclen : List.length (slice text_chunks ci (ci + len)) = len)
    by (rewrite slice_length; lia).
  rewrite Hpclen in Hrun.
  apply bind_Raise_inv in Hrun as [Hrun | (dnew & sa & _ & Hrun)]; [discriminate |].
  apply bind_Raise_inv in Hrun as [Hrun | ([mask embs] & sb & _ & Hrun)].
  { inversion Hrun as [[Hraise Hs]].
    now apply _get_embedding_batched_raises in Hraise. }
  apply bind_Raise_inv in Hrun as [Hrun | (selected & sc & _ & Hrun)].
  { inversion Hrun as [[Hraise Hs]]. unfold np_mask in Hraise.
    destruct (_ =? _); discriminate. }
  apply bind_Raise_inv in Hrun as [Hrun | ([] & sd & _ & Hrun)]; [discriminate |].
  apply IH in Hrun; [exact Hrun | exact Hn | lia].
Qed.

Lemma _generate_index_data_bound w doc_name text_chunks index_base s s' :
  _generate_index_data w doc_name text_chunks index_base s
  <> (Raise LoopBoundExceeded, s').
Proof.
  unfold _generate_index_data. intro Hrun.
  apply bind_Raise_inv in Hrun as [Hrun | ([nb dir] & s1 & _ & Hrun)].
  - apply index_data_loop_bound in Hrun; [exact Hrun | reflexivity | lia].
  - destruct dir; discriminate.
Qed.

(* ================================================================== *)
(** ** Ascending ids *)

Lemma ascending_le lo ids hi : ascending lo ids hi -> lo <= hi.
Proof.
  revert lo. induction ids as [| x rest IH]; simpl; intros lo H; [exact H |].
  destruct H as (Hx & H). apply IH in H. lia.
Qed.

Lemma ascending_weaken lo lo' ids hi :
  lo' <= lo -> ascending lo ids hi -> ascending lo' ids hi.
Proof. destruct ids; simpl; intros; intuition lia. Qed.

Lemma ascending_app lo ids1 mid ids2 hi :
  ascending lo ids1 mid -> ascending mid ids2 hi -> ascending lo (ids1 ++ ids2) hi.
Proof.
  revert lo. induction ids1 as [| x rest IH]; simpl; intros lo H1 H2.
  - now apply ascending_weaken with (lo := mid).
  - destruct H1 as (Hx & H1). split; [exact Hx | now apply IH].
Qed.

Lemma ascending_bounds lo ids hi :
  ascending lo ids hi -> Forall (fun x => lo <= x < hi) ids.
Proof.
  revert lo. induction ids as [| x rest IH]; simpl; intros lo H; constructor.
  - destruct H as (Hx & H). apply ascending_le in H. lia.
  - destruct H as (Hx & H). apply IH in H.
    eapply Forall_impl; [| exact H]. simpl. intros y Hy. lia.
Qed.

Lemma ascending_NoDup lo ids hi : ascending lo ids hi -> NoDup ids.
Proof.
  revert lo. induction ids as [| x rest IH]; simpl; intros lo H; constructor.
  - destruct H as (_ & H). apply ascending_bounds in H.
    rewrite Forall_forall in H. intro Hin. apply H in Hin. lia.
  - destruct H as (_ & H). now apply IH in H.
Qed.

Lemma expected_lines_ascending w text_chunks index_base len :
  forall a,
    ascending (index_base + a)
      (map rec_id (expected_lines w text_chunks index_base (seq a len)))
      (index_base + a + len).
Proof.
  unfold expected_lines.
  induction len as [| len IH]; intro a; simpl.
  - lia.
  - specialize (IH (S a)).
    replace (index_base + S a + len) with (index_base + a + S len) in IH by lia.
    destruct (chunk_embedding w text_chunks a); simpl.
    + split; [lia |]. now rewrite Nat.add_succ_r in IH.
    + apply ascending_weaken with (lo := index_base + S a); [lia | exact IH].
Qed.

(* ================================================================== *)
(** ** More frames *)

Lemma keeps_refl X (f : State -> X) s : keeps f s s.
Proof. reflexivity. Qed.

Lemma keeps_trans X (f : State -> X) s1 s2 s3 :
  keeps f s1 s2 -> keeps f s2 s3 -> keeps f s1 s3.
Proof. unfold keeps. congruence. Qed.

(** Proves that a program without recursion preserves a preorder that its
    primitive steps preserve by computation. *)
Ltac pres_auto Hrefl Htrans :=
  repeat first
    [ pres_step Hrefl Htrans
    | match goal with
      | |- preserves _ (match ?x with _ => _ end) => destruct x
      end
    | progress unfold Logger_error, rmtree, write_file, upload, walk,
        QueryEngine_update, QueryEngine_delete_by_id, QueryDocumentChunk_save,
        QueryDocument_delete_by_engine, QueryDocumentChunk_delete_by_engine
    | solve [apply preserves_modify; intro; repeat split]
    | solve [intros ? ? ? HH; inversion HH; repeat split] ].

Ltac keeps_tac f := pres_auto (keeps_refl _ f) (keeps_trans _ f).

Lemma index_data_loop_keeps_bucket w fuel doc_name text_chunks num_chunks chunk_index
    index_base dir :
  preserves (keeps bucket)
    (index_data_loop w fuel doc_name text_chunks num_chunks chunk_index index_base dir).
Proof.
  revert chunk_index index_base dir.
  induction fuel as [| fuel IH]; intros chunk_index index_base dir; simpl;
    destruct (chunk_index <? num_chunks); keeps_tac bucket.
  apply IH.
Qed.

Lemma _generate_index_data_keeps_bucket w doc_name text_chunks index_base :
  preserves (keeps bucket) (_generate_index_data w doc_name text_chunks index_base).
Proof.
  unfold _generate_index_data. keeps_tac bucket. apply index_data_loop_keeps_bucket.
Qed.

Lemma same_files_refl s : same_files s s.
Proof. split; reflexivity. Qed.

Lemma same_files_trans s1 s2 s3 : same_files s1 s2 -> same_files s2 s3 -> same_files s1 s3.
Proof. unfold same_files. intuition congruence. Qed.

Ltac same_files_tac := pres_auto same_files_refl same_files_trans.

Lemma read_step_same_files w doc_name doc_filepath :
  preserves same_files
    (try_except
       (doc_text_list <- _read_doc w doc_name doc_filepath ;;
        match doc_text_list with
        | None => Logger_error (LogNoContent doc_name) ;; ret None
        | Some l => ret (Some l)
        end)
       (fun e => Logger_error (LogReadError doc_name e) ;; ret None)).
Proof.
  unfold _read_doc.
  repeat match goal with |- context [if ?b then _ else _] => destruct b end;
    same_files_tac.
Qed.

Lemma _create_me_index_and_endpoint_same_files w index_name q :
  preserves same_files (_create_me_index_and_endpoint w index_name q).
Proof. unfold _create_me_index_and_endpoint. same_files_tac. Qed.

Lemma same_docs_refl s : same_docs s s.
Proof. split; reflexivity. Qed.

Lemma same_docs_trans s1 s2 s3 : same_docs s1 s2 -> same_docs s2 s3 -> same_docs s1 s3.
Proof. unfold same_docs. intuition congruence. Qed.

Lemma _create_me_index_and_endpoint_same_docs w index_name q :
  preserves same_docs (_create_me_index_and_endpoint w index_name q).
Proof.
  unfold _create_me_index_and_endpoint. pres_auto same_docs_refl same_docs_trans.
Qed.

(* ================================================================== *)
(** ** Storing a document *)

Lemma chunk_key_inv c e d i t :
  chunk_key c = (e, d, i, t) ->
  qc_query_engine_id c = e /\ qc_query_document_id c = d /\
  qc_index c = i /\ qc_text c = t.
Proof. unfold chunk_key. intros [= <- <- <- <-]. auto. Qed.

Lemma save_chunks_run q_engine_id doc_id index_base text_chunks :
  forall (l : list nat) s,
    exists cs,
      for_each l (fun i =>
        QueryDocumentChunk_save q_engine_id doc_id (i + index_base)
          (nth i text_chunks "")) s
      = (Ok tt, set_doc_chunks s (doc_chunks s ++ cs)) /\
      map chunk_key cs
      = map (fun i => (q_engine_id, doc_id, i + index_base, nth i text_chunks "")) l.
Proof.
  induction l as [| i l IH]; intro s.
  - exists []. simpl. rewrite app_nil_r. split; [| reflexivity].
    destruct s; reflexivity.
  - cbn [for_each]. unfold bind.
    unfold QueryDocumentChunk_save at 1, modify at 1.
    match goal with
    | |- context [set_doc_chunks s (doc_chunks s ++ [?c])] =>
        destruct (IH (set_doc_chunks s (doc_chunks s ++ [c]))) as (cs & Hrun & Hkeys);
        exists (c :: cs)
    end.
    rewrite Hrun. split.
    + simpl. rewrite <- app_assoc. reflexivity.
    + simpl. rewrite Hkeys. reflexivity.
Qed.

Lemma uploads_Ok w files :
  forall s s',
    for_each files (upload w) s = (Ok tt, s') ->
    incl (bucket s') (bucket s ++ files) /\
    same_store s s' /\ written s' = written s.
Proof.
  induction files as [| f files IH]; intros s s' Hrun.
  - inversion Hrun. subst. rewrite app_nil_r.
    split; [apply incl_refl | split; [apply same_store_refl | reflexivity]].
  - cbn [for_each] in Hrun.
    apply bind_Ok_inv in Hrun as ([] & s1 & Hup & Hrun).
    apply IH in Hrun as (Hincl & Hstore & Hwritten).
    unfold upload in Hup.
    apply bind_Ok_inv in Hup as ([] & s0 & Hok & Hup).
    assert (s0 = s) by (unfold external_ok in Hok; destruct (upload_ok w f);
                        inversion Hok; reflexivity).
    subst s0. inversion Hup. subst s1. clear Hup.
    split; [| split].
    + intros g Hg. apply Hincl in Hg. simpl in Hg.
      apply in_app_or in Hg as [Hg | Hg].
      * apply in_app_or in Hg as [Hg | Hg].
        -- apply filter_In in Hg as (Hg & _). apply in_or_app. now left.
        -- apply in_or_app. right. destruct Hg as [<- | []]. now left.
      * apply in_or_app. right. now right.
    + exact Hstore.
    + exact Hwritten.
Qed.

(** A successful [upload_and_store]. *)
Lemma upload_and_store_Ok w q doc_url text_chunks index_base new_index_base dir s d s' :
  upload_and_store w q doc_url text_chunks index_base new_index_base dir s = (Ok d, s') ->
  (qd_query_engine_id d = qe_id q /\ qd_doc_url d = doc_url /\
   qd_index_start d = index_base /\ qd_index_end d = new_index_base) /\
  documents s' = documents s ++ [d] /\
  (exists cs,
     doc_chunks s' = doc_chunks s ++ cs /\
     map chunk_key cs
     = map (fun i => (qe_id q, qd_id d, i + index_base, nth i text_chunks ""))
           (seq 0 (List.length text_chunks))) /\
  engines s' = engines s /\
  written s' = written s /\
  incl (bucket s') (bucket s ++ dir_files dir s).
Proof.
  unfold upload_and_store. intro Hrun.
  apply bind_Ok_inv in Hrun as ([] & s0 & Hok & Hrun).
  assert (s0 = s) by (unfold external_ok in Hok; destruct (get_bucket_ok w);
                      inversion Hok; reflexivity).
  subst s0. clear Hok.
  apply bind_Ok_inv in Hrun as (files & s0 & Hwalk & Hrun).
  inversion Hwalk. subst files s0. clear Hwalk.
  apply bind_Ok_inv in Hrun as ([] & s1 & Hup & Hrun).
  apply uploads_Ok in Hup as (Hincl & (He1 & Hd1 & Hc1) & Hw1).
  apply bind_Ok_inv in Hrun as ([] & s2 & Hrm & Hrun).
  inversion Hrm. subst s2. clear Hrm.
  apply bind_Ok_inv in Hrun as (query_doc & s3 & Hsave & Hrun).
  inversion Hsave. subst query_doc s3. clear Hsave.
  apply bind_Ok_inv in Hrun as ([] & s4 & Hchunks & Hrun).
  inversion Hrun. subst d s'. clear Hrun.
  match type of Hchunks with
  | for_each ?l (fun i => QueryDocumentChunk_save ?e ?di _ _) ?s0 = _ =>
      destruct (save_chunks_run e di index_base text_chunks l s0) as (cs & Hrun & Hkeys)
  end.
  rewrite Hrun in Hchunks. inversion Hchunks. subst s4. clear Hchunks Hrun.
  simpl. repeat split; try assumption.
  - now rewrite Hd1.
  - exists cs. rewrite Hc1. split; [reflexivity | exact Hkeys].
Qed.

(* ================================================================== *)
(** ** The effect of processing documents *)

Lemma build_effect_nil id lo s : build_effect id lo lo s s [].
Proof.
  constructor.
  - now rewrite app_nil_r.
  - constructor.
  - reflexivity.
  - exists []. rewrite app_nil_r.
    split; [reflexivity |]. split; [constructor |]. split; [constructor |].
    intros d k [].
  - exists []. rewrite !app_nil_r.
    split; [reflexivity |]. split; [simpl; lia |].
    split; [constructor | apply incl_refl].
Qed.

Lemma build_effect_before id lo hi s s1 s' docs :
  same_store s s1 -> same_files s s1 ->
  build_effect id lo hi s1 s' docs -> build_effect id lo hi s s' docs.
Proof.
  intros (_ & Hd & Hc) (Hw & Hb) [D DE C CH F].
  rewrite Hd in D. rewrite Hc in CH. rewrite Hw, Hb in F.
  constructor; assumption.
Qed.

Lemma build_effect_after id lo hi s s1 s' docs :
  same_docs s1 s' -> same_files s1 s' ->
  build_effect id lo hi s s1 docs -> build_effect id lo hi s s' docs.
Proof.
  intros (Hd & Hc) (Hw & Hb) [D DE C CH F].
  rewrite <- Hd in D. rewrite <- Hc in CH. rewrite <- Hw, <- Hb in F.
  constructor; assumption.
Qed.

Lemma chunk_of_later d docs c : chunk_of docs c -> chunk_of (d :: docs) c.
Proof. intros (d0 & Hin & H). exists d0. split; [now right | exact H]. Qed.

(** One document processed, then the rest. *)
Lemma build_effect_step w q doc_name doc_url text_chunks lo nb dir s s1 s2 d s3 hi s' docs :
  same_store s s1 -> same_files s s1 ->
  _generate_index_data w doc_name text_chunks lo s1 = (Ok (nb, dir), s2) ->
  upload_and_store w q doc_url text_chunks lo nb dir s2 = (Ok d, s3) ->
  build_effect (qe_id q) nb hi s3 s' docs ->
  build_effect (qe_id q) lo hi s s' (d :: docs).
Proof.
  intros Hstore Hfiles Hgen Hup [D DE C (cs' & CH & CHE & CHO & CHC)
                                  (files' & FW & FA & FS & FB)].
  apply build_effect_before with (s1 := s1); [exact Hstore | exact Hfiles |].
  pose proof (_generate_index_data_same _ _ _ _ _ _ _ Hgen) as (He2 & Hd2 & Hc2).
  pose proof (_generate_index_data_keeps_bucket _ _ _ _ _ _ _ Hgen) as Hb2.
  unfold keeps in Hb2.
  apply _generate_index_data_Ok in Hgen
    as (Hnb & Hpos & files & Hwritten & Hlines & Hsizes & Hdir).
  apply upload_and_store_Ok in Hup
    as ((Hqid & _ & Hstart & Hend) & Hd3 & (cs & Hc3 & Hkeys) & He3 & Hw3 & Hb3).
  assert (Hcs : forall c, In c cs ->
            exists i, i < List.length text_chunks /\
                      chunk_key c = (qe_id q, qd_id d, i + lo, nth i text_chunks "")).
  { intros c Hc. apply (in_map chunk_key) in Hc. rewrite Hkeys in Hc.
    apply in_map_iff in Hc as (i & Hi & Hseq). apply in_seq in Hseq.
    exists i. split; [lia | now symmetry]. }
  constructor.
  - rewrite D, Hd3, Hd2, <- app_assoc. reflexivity.
  - constructor; assumption.
  - simpl. repeat split; [exact Hstart | lia | now rewrite Hend].
  - exists (cs ++ cs'). repeat split.
    + rewrite CH, Hc3, Hc2, <- app_assoc. reflexivity.
    + apply Forall_app. split; [| exact CHE].
      apply Forall_forall. intros c Hc. destruct (Hcs c Hc) as (i & _ & Hkey).
      now apply chunk_key_inv in Hkey as (Heng & _).
    + apply Forall_app. split.
      * apply Forall_forall. intros c Hc. destruct (Hcs c Hc) as (i & Hi & Hkey).
        apply chunk_key_inv in Hkey as (_ & Hdoc & Hidx & _).
        exists d. split; [now left |]. split; [exact Hdoc | lia].
      * eapply Forall_impl; [| exact CHO]. intros c. apply chunk_of_later.
    + intros d0 k [<- | Hd0] Hk.
      * assert (Hin : In (qe_id q, qd_id d, (k - lo) + lo, nth (k - lo) text_chunks "")
                         (map chunk_key cs)).
        { rewrite Hkeys. apply in_map_iff. exists (k - lo). split; [reflexivity |].
          apply in_seq. lia. }
        apply in_map_iff in Hin as (c & Hkey & Hc).
        apply chunk_key_inv in Hkey as (_ & Hdoc & Hidx & _).
        exists c. split; [apply in_or_app; now left |].
        split; [lia | exact Hdoc].
      * destruct (CHC d0 k Hd0 Hk) as (c & Hc & Hidx & Hdoc).
        exists c. split; [apply in_or_app; now right | now split].
  - exists (files ++ files'). repeat split.
    + rewrite FW, Hw3, Hwritten, <- app_assoc. reflexivity.
    + unfold file_ids. rewrite flat_map_app, map_app.
      apply ascending_app with (mid := nb); [| exact FA].
      rewrite Hlines, Hnb.
      pose proof (expected_lines_ascending w text_chunks lo (List.length text_chunks) 0)
        as Hasc.
      now rewrite !Nat.add_0_r in Hasc.
    + apply Forall_app. split; assumption.
    + intros f Hf. apply FB in Hf. apply in_app_or in Hf as [Hf | Hf].
      * apply Hb3 in Hf. rewrite Hb2 in Hf. apply in_app_or in Hf as [Hf | Hf].
        -- apply in_or_app. now left.
        -- apply in_or_app. right. apply in_or_app. left. now apply Hdir.
      * apply in_or_app. right. apply in_or_app. now right.
Qed.

(** A successful run of the loop of [_process_documents]. *)
Lemma process_loop_Ok w q :
  forall docs lo processed not_processed s P N s',
    process_loop w q docs lo processed not_processed s = (Ok (P, N), s') ->
    exists new hi,
      P = processed ++ new /\ build_effect (qe_id q) lo hi s s' new.
Proof.
  induction docs as [| [[doc_name doc_url] doc_filepath] rest IH];
    intros lo processed not_processed s P N s' Hrun.
  - inversion Hrun. subst. exists [], lo. rewrite app_nil_r.
    split; [reflexivity | apply build_effect_nil].
  - cbn [process_loop] in Hrun.
    apply bind_Ok_inv in Hrun as (read & s1 & Hread & Hrun).
    pose proof (read_step_same _ _ _ _ _ _ Hread) as Hstore.
    pose proof (read_step_same_files _ _ _ _ _ _ Hread) as Hfiles.
    destruct read as [doc_text_list |].
    + apply bind_Ok_inv in Hrun as ([nb dir] & s2 & Hgen & Hrun).
      apply bind_Ok_inv in Hrun as (d & s3 & Hup & Hrun).
      apply IH in Hrun as (new & hi & HP & Heff).
      exists (d :: new), hi. split.
      * rewrite HP, <- app_assoc. reflexivity.
      * eapply build_effect_step; eassumption.
    + apply IH in Hrun as (new & hi & HP & Heff).
      exists new, hi. split; [exact HP |].
      eapply build_effect_before; eassumption.
Qed.

Lemma _process_documents_Ok w doc_url q s P N s' :
  _process_documents w doc_url q s = (Ok (P, N), s') ->
  exists hi, build_effect (qe_id q) 0 hi s s' P.
Proof.
  unfold _process_documents, _download_files_to_local. intro Hrun.
  apply bind_Ok_inv in Hrun as (doc_filepaths & s0 & Hdl & Hrun).
  assert (s0 = s).
  { destruct (list_blobs w doc_url); simpl in Hdl; inversion Hdl; reflexivity. }
  subst s0. destruct (List.length doc_filepaths =? 0); [discriminate |].
  apply process_loop_Ok in Hrun as (new & hi & -> & Heff).
  exists hi. exact Heff.
Qed.

Lemma create_data_bucket_Ok w s s' :
  create_data_bucket w s = (Ok tt, s') -> s' = set_bucket s [].
Proof.
  unfold create_data_bucket. destruct (create_bucket w).
  - now intros [= <-].
  - destruct (recreate_bucket_ok w); [now intros [= <-] | discriminate].
  - discriminate.
Qed.

(** A successful [build_doc_index]: at least one document was processed,
    and the bucket holds only files of this build. *)
Lemma build_doc_index_Ok w doc_url name q s P N s' :
  find_engine name s = Some q ->
  build_doc_index w doc_url name s = (Ok (P, N), s') ->
  P <> [] /\ exists hi, build_effect (qe_id q) 0 hi (set_bucket s []) s' P.
Proof.
  intros Hfind Hrun. unfold build_doc_index in Hrun.
  erewrite bind_Ok_run in Hrun by reflexivity. rewrite Hfind in Hrun.
  unfold try_except in Hrun.
  match type of Hrun with
  | (let (_, _) := ?m s in _) = _ => destruct (m s) as [[[P0 N0] | e] s1] eqn:Hbody
  end.
  2: { cbv [bind Logger_error modify raise] in Hrun. discriminate. }
  inversion Hrun. subst P0 N0 s1. clear Hrun.
  apply bind_Ok_inv in Hbody as ([] & s0 & Hclient & Hbody).
  assert (s0 = s) by (unfold external_ok in Hclient; destruct (storage_client_ok w);
                      inversion Hclient; reflexivity).
  subst s0. clear Hclient.
  apply bind_Ok_inv in Hbody as ([] & s1 & Hbucket & Hbody).
  apply create_data_bucket_Ok in Hbucket. subst s1.
  apply bind_Ok_inv in Hbody as ([P1 N1] & s2 & Hdocs & Hbody).
  apply _process_documents_Ok in Hdocs as (hi & Heff).
  destruct (List.length P1 =? 0) eqn:Hlen; [discriminate |].
  apply bind_Ok_inv in Hbody as ([] & s3 & Hme & Hbody).
  inversion Hbody. subst P1 N1 s3. clear Hbody.
  split.
  - intros ->. discriminate.
  - exists hi. eapply build_effect_after; [| | exact Heff].
    + eapply _create_me_index_and_endpoint_same_docs; eassumption.
    + eapply _create_me_index_and_endpoint_same_files; eassumption.
Qed.

(** A successful [query_engine_build]. *)
Lemma query_engine_build_Ok w doc_url name user pub s q P N s' :
  query_engine_build w doc_url name user pub s = (Ok (q, P, N), s') ->
  find_engine name s = None /\
  q = new_engine w name user pub s /\
  P <> [] /\
  exists hi,
    build_effect (qe_id q) 0 hi (set_bucket (engine_saved w name user pub s) []) s' P.
Proof.
  intro Hrun.
  destruct (find_engine name s) as [q0 |] eqn:Hfind.
  - rewrite (query_engine_build_name_taken _ _ _ _ _ _ _ Hfind) in Hrun. discriminate.
  - rewrite query_engine_build_unfold in Hrun by exact Hfind.
    destruct (build_doc_index w doc_url name (engine_saved w name user pub s))
      as [[[P0 N0] | e] s1] eqn:Hbuild; [| discriminate].
    inversion Hrun. subst q P0 N0 s1. clear Hrun.
    apply build_doc_index_Ok with (q := new_engine w name user pub s) in Hbuild
      as (Hne & hi & Heff); [| now apply find_engine_saved].
    split; [reflexivity |]. split; [reflexivity |]. split; [exact Hne |].
    exists hi. exact Heff.
Qed.

(* ================================================================== *)
(** ** Contiguous ranges *)

Lemma contiguous_le lo docs hi : contiguous lo docs hi -> lo <= hi.
Proof.
  revert lo. induction docs as [| d rest IH]; simpl; intros lo H.
  - lia.
  - destruct H as (_ & Hlt & H). apply IH in H. lia.
Qed.

Lemma contiguous_bounds lo docs hi :
  contiguous lo docs hi ->
  forall d, In d docs ->
    lo <= qd_index_start d /\ qd_index_start d < qd_index_end d /\ qd_index_end d <= hi.
Proof.
  revert lo. induction docs as [| d0 rest IH]; simpl; intros lo H d Hd; [contradiction |].
  destruct H as (Hstart & Hlt & H). destruct Hd as [<- | Hd].
  - apply contiguous_le in H. lia.
  - specialize (IH _ H d Hd). lia.
Qed.

Lemma contiguous_consecutive docs :
  forall lo hi i d1 d2,
    contiguous lo docs hi ->
    nth_error docs i = Some d1 -> nth_error docs (S i) = Some d2 ->
    qd_index_start d2 = qd_index_end d1.
Proof.
  induction docs as [| d rest IH]; intros lo hi i d1 d2 H H1 H2.
  - destruct i; discriminate.
  - destruct H as (_ & _ & H). destruct i as [| i].
    + simpl in H1, H2. inversion H1. subst d1.
      destruct rest as [| d' rest']; [discriminate |].
      simpl in H2. inversion H2. subst d'. now destruct H as (Hs & _).
    + simpl in H1. change (nth_error rest (S i) = Some d2) in H2.
      exact (IH _ _ _ _ _ H H1 H2).
Qed.

Lemma contiguous_ordered docs :
  forall lo hi i j d1 d2,
    contiguous lo docs hi -> i < j ->
    nth_error docs i = Some d1 -> nth_error docs j = Some d2 ->
    qd_index_end d1 <= qd_index_start d2.
Proof.
  induction docs as [| d rest IH]; intros lo hi i j d1 d2 H Hij H1 H2.
  - destruct i; discriminate.
  - destruct H as (_ & _ & H). destruct j as [| j]; [lia |]. simpl in H2.
    destruct i as [| i].
    + simpl in H1. inversion H1. subst d1.
      apply nth_error_In in H2.
      pose proof (contiguous_bounds _ _ _ H d2 H2). lia.
    + simpl in H1. apply (IH _ _ i j d1 d2 H); [lia | assumption | assumption].
Qed.

Lemma contiguous_union lo docs hi :
  contiguous lo docs hi ->
  forall k, lo <= k < hi <->
            exists d, In d docs /\ qd_index_start d <= k < qd_index_end d.
Proof.
  revert lo. induction docs as [| d0 rest IH]; simpl; intros lo H k.
  - split; [lia | intros (d & [] & _)].
  - destruct H as (Hstart & Hlt & H). specialize (IH _ H k).
    pose proof (contiguous_le _ _ _ H) as Hle. split.
    + intro Hk. destruct (Nat.lt_ge_cases k (qd_index_end d0)) as [Hin | Hout].
      * exists d0. split; [now left | lia].
      * destruct IH as (IH & _). destruct IH as (d & Hd & Hr); [lia |].
        exists d. split; [now right | exact Hr].
    + intros (d & [<- | Hd] & Hr); [lia |].
      destruct IH as (_ & IH). specialize (IH (ex_intro _ d (conj Hd Hr))). lia.
Qed.

(* ================================================================== *)
(** ** Built engines *)

Lemma filter_own A (key : A -> nat) id l :
  Forall (fun x => key x = id) l -> filter (fun x => key x =? id) l = l.
Proof.
  induction 1 as [| x l Hx _ IH]; simpl; [reflexivity |].
  rewrite Hx, Nat.eqb_refl. now rewrite IH.
Qed.

Lemma filter_foreign A (key : A -> nat) id l :
  Forall (fun x => key x <> id) l -> filter (fun x => key x =? id) l = [].
Proof.
  induction 1 as [| x l Hx _ IH]; simpl; [reflexivity |].
  apply Nat.eqb_neq in Hx. now rewrite Hx.
Qed.

(** After a successful build the documents stored for the engine are the
    processed ones, and their ranges follow one another from 0. *)
Lemma built_engine_documents w doc_url query_engine user_id is_public s
    q_engine docs_processed docs_not_processed s' :
  query_engine_build w doc_url query_engine user_id is_public s
  = (Ok (q_engine, docs_processed, docs_not_processed), s') ->
  documents_of (qe_id q_engine) s' = docs_processed /\
  docs_processed <> [] /\
  exists hi, contiguous 0 docs_processed hi.
Proof.
  intro Hrun.
  apply query_engine_build_Ok in Hrun as (Hfree & Hq & Hne & hi & [D DE C _ _]).
  split; [| split; [exact Hne | now exists hi]].
  unfold documents_of. rewrite D. simpl. rewrite filter_app.
  rewrite filter_foreign, filter_own; [reflexivity | exact DE |].
  subst q_engine. simpl. apply new_engine_id_foreign.
Qed.

(** C2. After a successful build, the documents stored for the engine are
    the processed ones, in order; the first has index_start = 0; each next
    one starts where the one before it ends; no range is empty; so two
    distinct documents share no index, and the indices covered by the
    ranges are exactly those below the end of the last one. *)
Theorem built_engine_ranges_contiguous w doc_url query_engine user_id is_public s
    q_engine docs_processed docs_not_processed s' :
  query_engine_build w doc_url query_engine user_id is_public s
  = (Ok (q_engine, docs_processed, docs_not_processed), s') ->
  documents_of (qe_id q_engine) s' = docs_processed /\
  (exists d, nth_error docs_processed 0 = Some d /\ qd_index_start d = 0) /\
  (forall i d1 d2,
     nth_error docs_processed i = Some d1 ->
     nth_error docs_processed (S i) = Some d2 ->
     qd_index_start d2 = qd_index_end d1) /\
  (forall d, In d docs_processed -> qd_index_start d < qd_index_end d) /\
  (forall i j d1 d2 k,
     i <> j ->
     nth_error docs_processed i = Some d1 ->
     nth_error docs_processed j = Some d2 ->
     ~ (qd_index_start d1 <= k < qd_index_end d1 /\
        qd_index_start d2 <= k < qd_index_end d2)) /\
  (exists hi, forall k,
     k < hi <-> exists d, In d docs_processed /\
                          qd_index_start d <= k < qd_index_end d).
Proof.
  intro Hrun.
  apply built_engine_documents in Hrun as (Hdocs & Hne & hi & C).
  split; [exact Hdocs |]. split; [| split; [| split; [| split]]].
  - destruct docs_processed as [| d rest]; [contradiction |].
    exists d. split; [reflexivity |]. now destruct C as (Hs & _).
  - intros i d1 d2. now apply contiguous_consecutive with (lo := 0) (hi := hi).
  - intros d Hd. now apply (contiguous_bounds _ _ _ C d Hd).
  - intros i j d1 d2 k Hij H1 H2 (Hk1 & Hk2).
    destruct (Nat.lt_gt_cases i j) as (Hcases & _).
    destruct (Hcases Hij) as [Hlt | Hgt].
    + pose proof (contiguous_ordered _ _ _ _ _ _ _ C Hlt H1 H2). lia.
    + pose proof (contiguous_ordered _ _ _ _ _ _ _ C Hgt H2 H1). lia.
  - exists hi. intro k. rewrite <- (contiguous_union _ _ _ C k). lia.
Qed.

Lemma mixed_run_Ok :
  query_engine_build world_mixed "gs://corpus" "eng-docs" "user-1" true state_with_engine
  = (Ok (fst (fst mixed_outcome), snd (fst mixed_outcome), snd mixed_outcome),
     snd mixed_run).
Proof. vm_compute. reflexivity. Qed.

Lemma built_engine_ranges_contiguous_witness :
  map (fun d => (qd_index_start d, qd_index_end d)) (documents_of 8 (snd mixed_run))
  = [(0, 1); (1, 7)].
Proof.
  destruct (built_engine_ranges_contiguous world_mixed "gs://corpus" "eng-docs" "user-1"
              true state_with_engine (fst (fst mixed_outcome)) (snd (fst mixed_outcome))
              (snd mixed_outcome) (snd mixed_run) mixed_run_Ok) as (Hdocs & _).
  change (qe_id (fst (fst mixed_outcome))) with 8 in Hdocs.
  rewrite Hdocs. reflexivity.
Defined.

(* ================================================================== *)
(** ** Chunks and the ids of the index *)

Lemma find_exists A (f : A -> bool) l x :
  In x l -> f x = true -> exists y, find f l = Some y.
Proof.
  induction l as [| a l IH]; simpl; intros Hin Hf; [contradiction |].
  destruct (f a) eqn:E; [now exists a |].
  destruct Hin as [-> | Hin]; [congruence | now apply IH].
Qed.

Lemma find_foreign_chunks id index l :
  Forall (fun c => qc_query_engine_id c <> id) l ->
  find (fun c => (qc_query_engine_id c =? id) && (qc_index c =? index)) l = None.
Proof.
  induction 1 as [| c l Hc _ IH]; simpl; [reflexivity |].
  apply Nat.eqb_neq in Hc. now rewrite Hc.
Qed.

(** C10. After a successful build, every processed document is stored and
    every index of its range is the index of a stored chunk of that document
    and engine, whether or not the embedding of that chunk succeeded.  The
    bucket the index is built from holds only files written by this build,
    and every id in a file written by this build resolves, by
    [find_by_index], to a stored chunk with that index that belongs to a
    processed document. *)
Theorem persisted_chunks_cover_index_ids w doc_url query_engine user_id is_public s
    q_engine docs_processed docs_not_processed s' :
  query_engine_build w doc_url query_engine user_id is_public s
  = (Ok (q_engine, docs_processed, docs_not_processed), s') ->
  (forall d, In d docs_processed ->
     In d (documents s') /\
     forall k, qd_index_start d <= k < qd_index_end d ->
       exists c, In c (doc_chunks s') /\
                 qc_query_engine_id c = qe_id q_engine /\
                 qc_query_document_id c = qd_id d /\
                 qc_index c = k) /\
  exists files,
    written s' = written s ++ files /\
    incl (bucket s') files /\
    forall id, In id (file_ids files) ->
      exists c, find_by_index (qe_id q_engine) id s' = Some c /\
                qc_index c = id /\
                chunk_of docs_processed c.
Proof.
  intro Hrun.
  apply query_engine_build_Ok in Hrun
    as (Hfree & Hq & Hne & hi & [D DE C (cs & CH & CHE & CHO & CHC)
                                   (files & FW & FA & FS & FB)]).
  simpl in D, CH, FW, FB.
  split.
  - intros d Hd. split.
    + rewrite D. apply in_or_app. now right.
    + intros k Hk. destruct (CHC d k Hd Hk) as (c & Hc & Hidx & Hdoc).
      exists c. repeat split; try assumption.
      * rewrite CH. apply in_or_app. now right.
      * rewrite Forall_forall in CHE. now apply CHE.
  - exists files. split; [exact FW |]. split; [exact FB |].
    intros id Hid.
    apply ascending_bounds in FA. rewrite Forall_forall in FA. specialize (FA id Hid).
    destruct (contiguous_union _ _ _ C id) as (Hunion & _).
    destruct Hunion as (d & Hd & Hr); [lia |].
    destruct (CHC d id Hd Hr) as (c0 & Hc0 & Hidx0 & _).
    assert (Heng0 : qc_query_engine_id c0 = qe_id q_engine)
      by (rewrite Forall_forall in CHE; now apply CHE).
    unfold find_by_index. rewrite CH, find_app, find_foreign_chunks.
    2: { subst q_engine. simpl. apply new_engine_id_foreign. }
    destruct (find_exists _ (fun c => (qc_query_engine_id c =? qe_id q_engine)
                                      && (qc_index c =? id)) cs c0 Hc0) as (c & Hfind).
    { rewrite Heng0, Hidx0, !Nat.eqb_refl. reflexivity. }
    exists c. split; [exact Hfind |].
    apply find_some in Hfind as (Hc & Hpred).
    apply andb_true_iff in Hpred as (_ & Hidx). apply Nat.eqb_eq in Hidx.
    split; [exact Hidx |]. rewrite Forall_forall in CHO. now apply CHO.
Qed.

Lemma persisted_chunks_cover_index_ids_witness :
  map qc_index (filter (fun c => qc_query_engine_id c =? 8) (doc_chunks (snd mixed_run)))
  = [0; 1; 2; 3; 4; 5; 6] /\
  file_ids (bucket (snd mixed_run)) = [0; 1; 2; 3; 4; 5] /\
  exists c, find_by_index 8 5 (snd mixed_run) = Some c /\ qc_index c = 5.
Proof.
  destruct (persisted_chunks_cover_index_ids world_mixed "gs://corpus" "eng-docs" "user-1"
              true state_with_engine (fst (fst mixed_outcome)) (snd (fst mixed_outcome))
              (snd mixed_outcome) (snd mixed_run) mixed_run_Ok)
    as (_ & files & Hwritten & _ & Hresolve).
  split; [vm_compute; reflexivity |]. split; [vm_compute; reflexivity |].
  destruct (Hresolve 5) as (c & Hfind & Hidx & _).
  - assert (Hfiles : files = written (snd mixed_run)) by exact (eq_sym Hwritten).
    rewrite Hfiles. vm_compute. tauto.
  - exists c. split; [exact Hfind | exact Hidx].
Defined.

(* ================================================================== *)
(** ** The ids of embedding records *)

Lemma expected_lines_In w text_chunks index_base positions r :
  In r (expected_lines w text_chunks index_base positions) <->
  exists p, In p positions /\
            chunk_embedding w text_chunks p = Some (rec_embedding r) /\
            rec_id r = index_base + p.
Proof.
  unfold expected_lines. rewrite in_flat_map. split.
  - intros (p & Hp & Hr). exists p. split; [exact Hp |].
    destruct (chunk_embedding w text_chunks p) as [e |]; [| contradiction].
    destruct Hr as [<- | []]. split; reflexivity.
  - intros (p & Hp & He & Hid). exists p. split; [exact Hp |].
    rewrite He. left. destruct r as [id e]. simpl in *. now subst id.
Qed.

(** C7. In the files [_generate_index_data] writes for a document, the
    lines are, in order, those of the positions of the document's chunk
    sequence whose embedding succeeded, the id of each being index_base plus
    the position: a position whose embedding failed has no line, and the
    lines of the others keep their ids; no id occurs twice; the returned
    index_base is the old one plus the full number of chunks.  Over a whole
    successful build no id occurs twice in the files written. *)
Theorem embedding_ids_follow_positions w :
  (forall doc_name text_chunks index_base s new_index_base embeddings_dir s',
     _generate_index_data w doc_name text_chunks index_base s
     = (Ok (new_index_base, embeddings_dir), s') ->
     new_index_base = index_base + List.length text_chunks /\
     exists files,
       written s' = written s ++ files /\
       flat_map ef_lines files
       = expected_lines w text_chunks index_base (seq 0 (List.length text_chunks)) /\
       (forall r, In r (flat_map ef_lines files) ->
          exists p, p < List.length text_chunks /\
                    rec_id r = index_base + p /\
                    chunk_embedding w text_chunks p = Some (rec_embedding r)) /\
       (forall p e, p < List.length text_chunks ->
          chunk_embedding w text_chunks p = Some e ->
          In {| rec_id := index_base + p; rec_embedding := e |}
             (flat_map ef_lines files)) /\
       (forall p, p < List.length text_chunks ->
          chunk_embedding w text_chunks p = None ->
          ~ In (index_base + p) (file_ids files)) /\
       NoDup (file_ids files)) /\
  (forall doc_url query_engine user_id is_public s q_engine docs_processed
          docs_not_processed s',
     query_engine_build w doc_url query_engine user_id is_public s
     = (Ok (q_engine, docs_processed, docs_not_processed), s') ->
     exists files, written s' = written s ++ files /\ NoDup (file_ids files)).
Proof.
  split.
  - intros doc_name text_chunks index_base s nb d s' Hrun.
    apply _generate_index_data_Ok in Hrun
      as (Hnb & _ & files & Hwritten & Hlines & _ & _).
    split; [exact Hnb |]. exists files.
    split; [exact Hwritten |]. split; [exact Hlines |].
    unfold file_ids. rewrite Hlines.
    split; [| split; [| split]].
    + intros r Hr. apply expected_lines_In in Hr as (p & Hp & He & Hid).
      apply in_seq in Hp. exists p. repeat split; [lia | exact Hid | exact He].
    + intros p e Hp He. apply expected_lines_In. exists p.
      split; [apply in_seq; lia |]. split; [exact He | reflexivity].
    + intros p Hp Hnone Hin. apply in_map_iff in Hin as (r & Hid & Hr).
      apply expected_lines_In in Hr as (p' & _ & He & Hid').
      assert (p' = p) by lia. subst p'. congruence.
    + pose proof (expected_lines_ascending w text_chunks index_base
                    (List.length text_chunks) 0) as Hasc.
      now apply ascending_NoDup in Hasc.
  - intros doc_url query_engine user_id is_public s q P N s' Hrun.
    apply query_engine_build_Ok in Hrun
      as (_ & _ & _ & hi & [_ _ _ _ (files & FW & FA & _ & _)]).
    exists files. split; [exact FW |]. now apply ascending_NoDup in FA.
Qed.

Lemma embedding_ids_follow_positions_witness :
  fst (_generate_index_data world_mixed "guide.pdf"
         ["p1"; "p2"; "p3"; "p4"; "p5"; "p6"] 1 empty_state) = Ok (7, 1) /\
  file_ids (written (snd mixed_run)) = [0; 1; 2; 3; 4; 5] /\
  NoDup (file_ids (written (snd mixed_run))).
Proof.
  destruct (embedding_ids_follow_positions world_mixed) as (Hdoc & Hbuild).
  destruct (Hdoc "guide.pdf" ["p1"; "p2"; "p3"; "p4"; "p5"; "p6"] 1 empty_state 7 1
              (snd (_generate_index_data world_mixed "guide.pdf"
                      ["p1"; "p2"; "p3"; "p4"; "p5"; "p6"] 1 empty_state)))
    as (Hnb & _).
  { vm_compute. reflexivity. }
  destruct (Hbuild "gs://corpus" "eng-docs" "user-1" true state_with_engine
              (fst (fst mixed_outcome)) (snd (fst mixed_outcome))
              (snd mixed_outcome) (snd mixed_run) mixed_run_Ok)
    as (files & Hwritten & Hnodup).
  assert (Hfiles : files = written (snd mixed_run)) by exact (eq_sym Hwritten).
  split; [vm_compute; reflexivity |].
  rewrite <- Hfiles. split; [| exact Hnodup].
  rewrite Hfiles. vm_compute. reflexivity.
Defined.

(* ================================================================== *)
(** ** A document whose chunks all fail to encode *)

(** Every request of the group fails: [np.stack] gets no array. *)
Lemma collect_results_all_failed w batches :
  from_pretrained_ok w = true ->
  Forall (fun batch => get_embeddings w batch = None) batches ->
  exists embeddings_list,
    collect_results w batches = Ok embeddings_list /\ not_None embeddings_list = [].
Proof.
  intros Hmodel Hall. induction Hall as [| batch rest Hbatch _ IH]; simpl.
  - now exists [].
  - destruct IH as (rs & -> & Hrs).
    unfold _encode_texts_to_embeddings. rewrite Hmodel, Hbatch. simpl.
    eexists. split; [reflexivity |].
    induction (List.length batch) as [| n IHn]; simpl; [exact Hrs | exact IHn].
Qed.

Lemma _get_embedding_batched_all_failed w text_chunks :
  from_pretrained_ok w = true ->
  Forall (fun batch => get_embeddings w batch = None)
         (_generate_batches text_chunks ITEMS_PER_REQUEST) ->
  _get_embedding_batched w text_chunks ITEMS_PER_REQUEST = Raise ValueError.
Proof.
  intros Hmodel Hall.
  destruct (collect_results_all_failed w _ Hmodel Hall) as (el & Hel & Hnone).
  unfold _get_embedding_batched, embeddings_list_of, ITEMS_PER_REQUEST in *.
  rewrite Hel. simpl. rewrite Hnone. reflexivity.
Qed.

(** When every embedding request for the first group of chunks of a
    document fails, [_generate_index_data] raises ValueError. *)
Lemma _generate_index_data_all_failed w doc_name text_chunks index_base s :
  from_pretrained_ok w = true ->
  text_chunks <> [] ->
  Forall (fun batch => get_embeddings w batch = None)
         (_generate_batches
            (slice text_chunks 0
               (Nat.min MAX_NUM_TEXT_CHUNK_PROCESS (List.length text_chunks)))
            ITEMS_PER_REQUEST) ->
  fst (_generate_index_data w doc_name text_chunks index_base s) = Raise ValueError.
Proof.
  intros Hmodel Hne Hall. unfold _generate_index_data.
  destruct text_chunks as [| c rest]; [contradiction |].
  assert (Hloop : exists s1,
            index_data_loop w (List.length (c :: rest)) doc_name (c :: rest)
              (List.length (c :: rest)) 0 index_base None s = (Raise ValueError, s1)).
  { eexists. cbn [List.length index_data_loop Nat.ltb Nat.leb Nat.add].
    rewrite Nat.sub_0_r.
    erewrite bind_Ok_run by reflexivity.
    erewrite bind_Raise_run; [reflexivity |].
    unfold lift. cbn [List.length] in Hall.
    rewrite (_get_embedding_batched_all_failed w _ Hmodel Hall). reflexivity. }
  destruct Hloop as (s1 & Hloop).
  erewrite bind_Raise_run by exact Hloop. reflexivity.
Qed.

(** C5, where the code departs from it.  The corpus holds two text files of
    one chunk each and the embedding request for the chunk of the first one
    fails.  C5 has the first listed in docs_not_processed and the build go
    on to the second; instead [np.stack] raises ValueError on the empty list
    of embeddings, the build fails with that error wrapped twice in
    InternalServerError, and it is rolled back: nothing is stored for either
    file.  The second file alone builds. *)
Theorem all_chunks_failing_aborts_build :
  let run :=
    query_engine_build world_first_fails "gs://corpus" "hr-docs" "user-1" true
      empty_state in
  fst run = Raise (InternalServerError (InternalServerError ValueError)) /\
  engines (snd run) = [] /\ documents (snd run) = [] /\ doc_chunks (snd run) = [] /\
  exists q_engine d,
    fst (query_engine_build world_second_only "gs://corpus" "hr-docs" "user-1" true
           empty_state) = Ok (q_engine, [d], []) /\
    qd_doc_url d = "/b/corpus/o/second.txt".
Proof.
  cbv zeta. repeat split; try (vm_compute; reflexivity).
  eexists. eexists. split; vm_compute; reflexivity.
Qed.

(* ================================================================== *)
(** ** A document of more than a thousand chunks *)

(** C9, where the code departs from it.  For a document of 1001 chunks the
    build succeeds, with the range [0, 1001) and 1001 chunks stored, and two
    files are written, of 1000 lines and of 1 line, each in a temporary
    directory of its own; [_generate_index_data] returns only the last
    directory, so only the file of 1 line (id 1000) is uploaded and only its
    directory is removed: the file with ids 0 to 999 is never uploaded and
    its directory is still there when the build returns. *)
Theorem long_document_first_file_not_uploaded :
  build_summary
    (query_engine_build world_long "gs://corpus" "eng-docs" "user-1" true empty_state)
  = (Ok ([(0, 1001)], []),
     [(0, 1000); (1000, 1)],
     [(1000, 1)],
     [[(0, 1000)]],
     [1000],
     1001).
Proof. vm_compute. reflexivity. Qed.

(* ================================================================== *)
(** ** Chunking *)

Lemma string_take_length n s :
  String.length (string_take n s) = Nat.min n (String.length s).
Proof.
  revert s. induction n as [| n IH]; intros [| c r]; simpl; auto.
Qed.

Lemma string_drop_length n s :
  String.length (string_drop n s) = String.length s - n.
Proof.
  revert s. induction n as [| n IH]; intros [| c r]; simpl; auto.
Qed.

Lemma string_take_drop n s : (string_take n s ++ string_drop n s)%string = s.
Proof.
  revert s. induction n as [| n IH]; intros [| c r]; simpl; auto.
  now rewrite IH.
Qed.

Lemma fixed_size_chunks_lengths size :
  forall fuel text,
    map String.length (fixed_size_chunks fuel size text)
    = chunk_lengths fuel size (String.length text).
Proof.
  induction fuel as [| fuel IH]; intro text; [reflexivity |].
  destruct text as [| c r]; [reflexivity |].
  cbn [fixed_size_chunks chunk_lengths map]. rewrite IH, string_take_length.
  rewrite string_drop_length. reflexivity.
Qed.

Lemma fixed_size_chunks_join size :
  0 < size ->
  forall fuel text,
    String.length text <= fuel -> join (fixed_size_chunks fuel size text) = text.
Proof.
  intro Hpos. induction fuel as [| fuel IH]; intros text Hlen.
  - destruct text; [reflexivity | simpl in Hlen; lia].
  - destruct text as [| c r]; [reflexivity |].
    cbn [fixed_size_chunks join fold_right]. fold (join (fixed_size_chunks fuel size
                                                          (string_drop size (String c r)))).
    rewrite IH.
    + apply string_take_drop.
    + rewrite string_drop_length. cbn [String.length] in *. lia.
Qed.

Lemma fixed_size_chunks_sizes size :
  0 < size ->
  forall fuel text,
    Forall (fun chunk => 0 < String.length chunk <= size)
           (fixed_size_chunks fuel size text).
Proof.
  intro Hpos. induction fuel as [| fuel IH]; intro text; [constructor |].
  destruct text as [| c r]; [constructor |].
  cbn [fixed_size_chunks]. constructor; [| apply IH].
  rewrite string_take_length. cbn [String.length]. lia.
Qed.

(** Every chunk but the last is full. *)
Lemma fixed_size_chunks_full size :
  forall fuel text i,
    S i < List.length (fixed_size_chunks fuel size text) ->
    String.length (nth i (fixed_size_chunks fuel size text) "") = size.
Proof.
  induction fuel as [| fuel IH]; intros text i Hi; [simpl in Hi; lia |].
  destruct text as [| c r]; [simpl in Hi; lia |].
  cbn [fixed_size_chunks] in *. cbn [List.length] in Hi.
  destruct i as [| i].
  - cbn [nth]. rewrite string_take_length.
    destruct (Nat.le_gt_cases size (String.length (String c r))) as [Hle | Hgt]; [lia |].
    exfalso.
    assert (Hempty : string_drop size (String c r) = "").
    { pose proof (string_drop_length size (String c r)) as Hd.
      destruct (string_drop size (String c r));
        [reflexivity | cbn [String.length] in *; lia]. }
    rewrite Hempty in Hi. destruct fuel; simpl in Hi; lia.
  - cbn [nth]. apply IH. lia.
Qed.

Lemma spec_split_text_2500 text :
  String.length text = 2500 ->
  map String.length (spec_split_text text) = [1000; 1000; 500].
Proof.
  intro Hlen. unfold spec_split_text.
  rewrite fixed_size_chunks_lengths, Hlen. vm_compute. reflexivity.
Qed.

(* ================================================================== *)
(** ** A build over a single text file *)

Lemma read_step_txt w doc_name doc_filepath text s :
  lower (last_segment "."%char doc_name) = "txt" ->
  read_text w doc_filepath = Some text ->
  try_except
    (doc_text_list <- _read_doc w doc_name doc_filepath ;;
     match doc_text_list with
     | None => Logger_error (LogNoContent doc_name) ;; ret None
     | Some l => ret (Some l)
     end)
    (fun e => Logger_error (LogReadError doc_name e) ;; ret None) s
  = (Ok (Some [text]), s).
Proof.
  intros Hext Hread. unfold try_except, bind, _read_doc.
  rewrite Hext, Hread. reflexivity.
Qed.

(** A successful [query_engine_build], down to the loop over the documents. *)
Lemma query_engine_build_Ok_loop w doc_url name user pub s q P N s' :
  query_engine_build w doc_url name user pub s = (Ok (q, P, N), s') ->
  exists blobs s2,
    list_blobs w doc_url = Some blobs /\
    process_loop w q
      (downloaded w blobs)
      0 [] [] (set_bucket (engine_saved w name user pub s) []) = (Ok (P, N), s2) /\
    same_docs s2 s' /\ same_files s2 s'.
Proof.
  intro Hrun.
  destruct (find_engine name s) as [q0 |] eqn:Hfind.
  { rewrite (query_engine_build_name_taken _ _ _ _ _ _ _ Hfind) in Hrun. discriminate. }
  rewrite query_engine_build_unfold in Hrun by exact Hfind.
  destruct (build_doc_index w doc_url name (engine_saved w name user pub s))
    as [[[P0 N0] | e] s1] eqn:Hbuild; [| discriminate].
  inversion Hrun. subst q P0 N0 s1. clear Hrun.
  unfold build_doc_index in Hbuild.
  erewrite bind_Ok_run in Hbuild by reflexivity.
  rewrite (find_engine_saved w name user pub s Hfind) in Hbuild.
  unfold try_except in Hbuild.
  match type of Hbuild with
  | (let (_, _) := ?m ?s0 in _) = _ => destruct (m s0) as [[[P0 N0] | e] s1] eqn:Hbody
  end.
  2: { cbv [bind Logger_error modify raise] in Hbuild. discriminate. }
  inversion Hbuild. subst P0 N0 s1. clear Hbuild.
  apply bind_Ok_inv in Hbody as ([] & s0 & Hclient & Hbody).
  assert (s0 = engine_saved w name user pub s)
    by (unfold external_ok in Hclient; destruct (storage_client_ok w);
        inversion Hclient; reflexivity).
  subst s0. clear Hclient.
  apply bind_Ok_inv in Hbody as ([] & s1 & Hbucket & Hbody).
  apply create_data_bucket_Ok in Hbucket. subst s1.
  apply bind_Ok_inv in Hbody as ([P1 N1] & s2 & Hdocs & Hbody).
  destruct (List.length P1 =? 0) eqn:Hlen; [discriminate |].
  apply bind_Ok_inv in Hbody as ([] & s3 & Hme & Hbody).
  inversion Hbody. subst P1 N1 s3. clear Hbody.
  unfold _process_documents, _download_files_to_local in Hdocs.
  destruct (list_blobs w doc_url) as [blobs |] eqn:Hblobs; [| discriminate].
  erewrite bind_Ok_run in Hdocs by reflexivity.
  destruct (List.length _ =? 0) in Hdocs; [discriminate |].
  exists blobs, s2. split; [reflexivity |]. split; [exact Hdocs |]. split.
  - eapply _create_me_index_and_endpoint_same_docs; eassumption.
  - eapply _create_me_index_and_endpoint_same_files; eassumption.
Qed.

Lemma map_nth_seq A (l : list A) (d : A) :
  map (fun i => nth i l d) (seq 0 (List.length l)) = l.
Proof.
  induction l as [| x l IH]; [reflexivity |].
  cbn [List.length seq map nth]. f_equal.
  rewrite <- seq_shift, map_map. exact IH.
Qed.

(** A successful build over one text file stores one document whose chunks
    are the chunks of the text. *)
Lemma single_text_build w doc_url name user pub s b text q P N s' :
  list_blobs w doc_url = Some [b] ->
  lower (last_segment "."%char (blob_name b)) = "txt" ->
  read_text w (path_join (temp_dir w) (last_segment "/"%char (blob_name b))) = Some text ->
  query_engine_build w doc_url name user pub s = (Ok (q, P, N), s') ->
  exists d cs,
    P = [d] /\ N = [] /\
    qd_index_start d = 0 /\
    qd_index_end d = List.length (split_text w text) /\
    doc_chunks s' = doc_chunks s ++ cs /\
    map qc_text cs = split_text w text.
Proof.
  intros Hblobs Hext Hread Hrun.
  apply query_engine_build_Ok_loop in Hrun as (blobs & s2 & Hb & Hloop & (_ & Hc) & _).
  rewrite Hblobs in Hb. inversion Hb. subst blobs. clear Hb.
  cbn [map process_loop] in Hloop.
  apply bind_Ok_inv in Hloop as (read & s1 & Hstep & Hloop).
  rewrite (read_step_txt _ _ _ _ _ Hext Hread) in Hstep.
  inversion Hstep. subst read s1. clear Hstep.
  cbn [flat_map] in Hloop. rewrite app_nil_r in Hloop.
  apply bind_Ok_inv in Hloop as ([nb dir] & s3 & Hgen & Hloop).
  apply bind_Ok_inv in Hloop as (d & s4 & Hup & Hloop).
  inversion Hloop. subst P N s2. clear Hloop.
  pose proof (_generate_index_data_same _ _ _ _ _ _ _ Hgen) as (_ & _ & Hc3).
  apply _generate_index_data_Ok in Hgen as (Hnb & _).
  apply upload_and_store_Ok in Hup
    as ((_ & _ & Hstart & Hend) & _ & (cs & Hc4 & Hkeys) & _).
  exists d, cs. repeat split.
  - exact Hstart.
  - rewrite Hend, Hnb. reflexivity.
  - rewrite Hc, Hc4, Hc3. reflexivity.
  - apply (f_equal (map (fun k : nat * nat * nat * string => snd k))) in Hkeys.
    rewrite !map_map in Hkeys. cbn [chunk_key snd] in Hkeys.
    rewrite map_nth_seq in Hkeys. exact Hkeys.
Qed.

Lemma plain_text_run_Ok :
  query_engine_build world_plain_text "gs://corpus" "essays" "user-1" true empty_state
  = (Ok (fst (fst plain_text_outcome), snd (fst plain_text_outcome),
         snd plain_text_outcome),
     snd plain_text_run).
Proof. vm_compute. reflexivity. Qed.

(** For a chunker as the specification describes it: each text
    section is cut into chunks that put together give the section back
    (nothing overlaps, nothing is lost), none empty, none longer than 1000
    characters, all of 1000 characters but the last; the chunks of a
    document are the chunks of its sections, each chunk coming from one
    section.  A successful build over one plain-text file of 2500 characters
    stores one document and three chunks for it, of 1000, 1000 and 500
    characters, and index_end - index_start = 3. *)
Theorem plain_text_chunking w :
  (forall text, split_text w text = spec_split_text text) ->
  (forall text,
     join (split_text w text) = text /\
     Forall (fun chunk => 0 < String.length chunk <= CHUNK_SIZE) (split_text w text) /\
     (forall i, S i < List.length (split_text w text) ->
                String.length (nth i (split_text w text) "") = CHUNK_SIZE)) /\
  (forall doc_text_list chunk,
     In chunk (flat_map (split_text w) doc_text_list) ->
     exists text, In text doc_text_list /\ In chunk (spec_split_text text)) /\
  (forall doc_url query_engine user_id is_public s b text q_engine docs_processed
          docs_not_processed s',
     list_blobs w doc_url = Some [b] ->
     lower (last_segment "."%char (blob_name b)) = "txt" ->
     read_text w (path_join (temp_dir w) (last_segment "/"%char (blob_name b)))
     = Some text ->
     String.length text = 2500 ->
     query_engine_build w doc_url query_engine user_id is_public s
     = (Ok (q_engine, docs_processed, docs_not_processed), s') ->
     exists d cs,
       docs_processed = [d] /\ docs_not_processed = [] /\
       qd_index_end d - qd_index_start d = 3 /\
       doc_chunks s' = doc_chunks s ++ cs /\
       map String.length (map qc_text cs) = [1000; 1000; 500]).
Proof.
  intro Hsplit. split; [| split].
  - intro text. rewrite Hsplit. unfold spec_split_text, CHUNK_SIZE.
    split; [| split].
    + apply fixed_size_chunks_join; lia.
    + apply fixed_size_chunks_sizes. lia.
    + apply fixed_size_chunks_full.
  - intros doc_text_list chunk Hin. apply in_flat_map in Hin as (text & Ht & Hc).
    exists text. split; [exact Ht | now rewrite <- Hsplit].
  - intros doc_url query_engine user_id is_public s b text q P N s'
           Hblobs Hext Hread Hlen Hrun.
    destruct (single_text_build _ _ _ _ _ _ _ _ _ _ _ _ Hblobs Hext Hread Hrun)
      as (d & cs & HP & HN & Hstart & Hend & Hchunks & Htexts).
    pose proof (spec_split_text_2500 text Hlen) as Hlens.
    exists d, cs. repeat split; try assumption.
    + rewrite Hstart, Hend, Hsplit, <- (length_map String.length), Hlens. reflexivity.
    + rewrite Htexts, Hsplit. exact Hlens.
Qed.

Lemma plain_text_chunking_witness :
  map (fun d => qd_index_end d - qd_index_start d) (snd (fst plain_text_outcome)) = [3] /\
  map String.length (map qc_text (doc_chunks (snd plain_text_run))) = [1000; 1000; 500].
Proof.
  destruct (plain_text_chunking world_plain_text (fun text => eq_refl)) as (_ & _ & Hbuild).
  destruct (Hbuild "gs://corpus" "essays" "user-1" true empty_state
              {| blob_name := "essay.txt"; blob_path := "/b/corpus/o/essay.txt" |}
              text_2500 (fst (fst plain_text_outcome)) (snd (fst plain_text_outcome))
              (snd plain_text_outcome) (snd plain_text_run))
    as (d & cs & Hdocs & _ & Hrange & Hchunks & Hlens).
  - reflexivity.
  - reflexivity.
  - reflexivity.
  - vm_compute. reflexivity.
  - exact plain_text_run_Ok.
  - rewrite Hdocs. cbn [map]. rewrite Hrange. split; [reflexivity |].
    rewrite Hchunks. exact Hlens.
Defined.

(* ================================================================== *)
(** ** Further properties of a build *)

Lemma read_step_run w doc_name doc_filepath s :
  exists s1,
    try_except
      (doc_text_list <- _read_doc w doc_name doc_filepath ;;
       match doc_text_list with
       | None => Logger_error (LogNoContent doc_name) ;; ret None
       | Some l => ret (Some l)
       end)
      (fun e => Logger_error (LogReadError doc_name e) ;; ret None) s
    = (Ok (doc_sections w doc_name doc_filepath), s1).
Proof.
  unfold try_except, bind, _read_doc, doc_sections.
  destruct (String.eqb _ "txt").
  { destruct (read_text w doc_filepath); eexists; reflexivity. }
  destruct (String.eqb _ "csv").
  { destruct (csv_sections w doc_filepath); eexists; reflexivity. }
  destruct (String.eqb _ "pdf").
  { destruct (pdf_pages w doc_filepath); eexists; reflexivity. }
  eexists. reflexivity.
Qed.

Lemma process_loop_partition w q :
  forall docs lo processed not_processed s P N s',
    process_loop w q docs lo processed not_processed s = (Ok (P, N), s') ->
    exists new,
      P = processed ++ new /\
      map qd_doc_url new = map (fun d => snd (fst d)) (filter (readable w) docs) /\
      N = not_processed
          ++ map (fun d => snd (fst d)) (filter (fun d => negb (readable w d)) docs).
Proof.
  induction docs as [| [[doc_name doc_url] doc_filepath] rest IH];
    intros lo processed not_processed s P N s' Hrun.
  - inversion Hrun. subst. exists []. simpl. now rewrite !app_nil_r.
  - cbn [process_loop] in Hrun.
    apply bind_Ok_inv in Hrun as (read & s1 & Hread & Hrun).
    destruct (read_step_run w doc_name doc_filepath s) as (s1' & Hstep).
    rewrite Hstep in Hread. inversion Hread. subst read s1'. clear Hread.
    assert (Hr : readable w (doc_name, doc_url, doc_filepath)
                 = is_not_None (doc_sections w doc_name doc_filepath)) by reflexivity.
    cbn [filter]. rewrite !Hr.
    destruct (doc_sections w doc_name doc_filepath) as [doc_text_list |];
      cbn [is_not_None negb].
    + apply bind_Ok_inv in Hrun as ([nb dir] & s2 & Hgen & Hrun).
      apply bind_Ok_inv in Hrun as (d & s3 & Hup & Hrun).
      apply upload_and_store_Ok in Hup as ((_ & Hurl & _) & _).
      apply IH in Hrun as (new & HP & Hurls & HN).
      exists (d :: new). repeat split.
      * rewrite HP, <- app_assoc. reflexivity.
      * cbn [map fst snd]. now rewrite Hurl, Hurls.
      * exact HN.
    + apply IH in Hrun as (new & HP & Hurls & HN).
      exists new. repeat split; [exact HP | exact Hurls |].
      rewrite HN, <- app_assoc. reflexivity.
Qed.

(** X3. In a successful build over blobs of distinct base names (a
    downloaded file is removed once it is processed, so a second blob of the
    same base name cannot be read), the documents split in two by whether
    [_read_doc] gave content: those for which it raised or returned None are
    listed, in order, in docs_not_processed and the build went on with the
    next document; the others are, in order, the processed documents, which
    are all the documents stored for the engine. *)
Theorem unreadable_documents_are_skipped w doc_url query_engine user_id is_public s blobs
    q_engine docs_processed docs_not_processed s' :
  list_blobs w doc_url = Some blobs ->
  NoDup (map snd (downloaded w blobs)) ->
  query_engine_build w doc_url query_engine user_id is_public s
  = (Ok (q_engine, docs_processed, docs_not_processed), s') ->
  docs_not_processed
  = map (fun d => snd (fst d))
        (filter (fun d => negb (readable w d)) (downloaded w blobs)) /\
  map qd_doc_url docs_processed
  = map (fun d => snd (fst d)) (filter (readable w) (downloaded w blobs)) /\
  documents_of (qe_id q_engine) s' = docs_processed.
Proof.
  intros Hlisted _ Hrun.
  pose proof (built_engine_documents _ _ _ _ _ _ _ _ _ _ Hrun) as (Hdocs & _).
  apply query_engine_build_Ok_loop in Hrun as (blobs' & s2 & Hblobs & Hloop & _).
  rewrite Hlisted in Hblobs. injection Hblobs as <-.
  apply process_loop_partition in Hloop as (new & HP & Hurls & HN).
  simpl in HP, HN. subst new.
  repeat split; assumption.
Qed.

Lemma unreadable_documents_are_skipped_witness :
  snd mixed_outcome = ["/b/corpus/o/slides.pptx"] /\
  map qd_doc_url (snd (fst mixed_outcome))
  = ["/b/corpus/o/notes.txt"; "/b/corpus/o/guide.pdf"].
Proof.
  destruct (unreadable_documents_are_skipped world_mixed "gs://corpus" "eng-docs" "user-1"
              true state_with_engine
              [ {| blob_name := "notes.txt"; blob_path := "/b/corpus/o/notes.txt" |};
                {| blob_name := "slides.pptx"; blob_path := "/b/corpus/o/slides.pptx" |};
                {| blob_name := "guide.pdf"; blob_path := "/b/corpus/o/guide.pdf" |} ]
              (fst (fst mixed_outcome)) (snd (fst mixed_outcome))
              (snd mixed_outcome) (snd mixed_run) eq_refl)
    as (Hskipped & Hkept & _).
  - repeat constructor; cbn; intuition discriminate.
  - exact mixed_run_Ok.
  - split.
    + rewrite Hskipped. vm_compute. reflexivity.
    + rewrite Hkept. vm_compute. reflexivity.
Defined.

Lemma others_filter A (key : A -> nat) id id' l l' :
  id' <> id ->
  others key id l' = others key id l ->
  filter (fun x => key x =? id') l' = filter (fun x => key x =? id') l.
Proof.
  intros Hne Heq.
  assert (H : forall m, filter (fun x => key x =? id') (others key id m)
                        = filter (fun x => key x =? id') m).
  { induction m as [| x m IH]; [reflexivity |]. simpl.
    destruct (key x =? id) eqn:E; simpl.
    - apply Nat.eqb_eq in E.
      assert ((key x =? id') = false) as -> by (apply Nat.eqb_neq; lia).
      exact IH.
    - destruct (key x =? id'); simpl; now rewrite IH. }
  rewrite <- (H l'), Heq. apply H.
Qed.

(** X2. Whatever its outcome, [query_engine_build] leaves the records of
    every other engine as they were: for each engine id but the one of the
    record it creates (an id no record of the store used), the engines,
    documents and chunks stored under that id are the same before and
    after. *)
Theorem query_engine_build_leaves_other_engines w doc_url query_engine user_id is_public
    s r s' id :
  query_engine_build w doc_url query_engine user_id is_public s = (r, s') ->
  id <> fresh (engine_ids_in_use s) ->
  filter (fun q => qe_id q =? id) (engines s')
  = filter (fun q => qe_id q =? id) (engines s) /\
  filter (fun d => qd_query_engine_id d =? id) (documents s')
  = filter (fun d => qd_query_engine_id d =? id) (documents s) /\
  filter (fun c => qc_query_engine_id c =? id) (doc_chunks s')
  = filter (fun c => qc_query_engine_id c =? id) (doc_chunks s).
Proof.
  intros Hrun Hid.
  assert (Hframe : store_frame (fresh (engine_ids_in_use s)) s s').
  { destruct (find_engine query_engine s) as [q0 |] eqn:Hfind.
    - rewrite (query_engine_build_name_taken _ _ _ _ _ _ _ Hfind) in Hrun.
      inversion Hrun. apply store_frame_refl.
    - rewrite query_engine_build_unfold in Hrun by exact Hfind.
      destruct (build_doc_index w doc_url query_engine
                  (engine_saved w query_engine user_id is_public s))
        as [[[P N] | e] s1] eqn:Hbuild; inversion Hrun; subst; clear Hrun.
      + apply store_frame_trans
          with (s2 := engine_saved w query_engine user_id is_public s).
        * repeat split. simpl. rewrite others_app. simpl.
          rewrite Nat.eqb_refl. simpl. apply app_nil_r.
        * exact (build_doc_index_frame _ _ _ _ _ _ _
                   (find_engine_saved w _ user_id is_public s Hfind) Hbuild).
      + apply same_store_frame.
        exact (rolled_back_restores _ _ _ _ _ _ _ _ Hfind Hbuild). }
  destruct Hframe as (He & Hd & Hc).
  repeat split; eapply others_filter; eassumption.
Qed.

Lemma query_engine_build_leaves_other_engines_witness :
  filter (fun d => qd_query_engine_id d =? 7) (documents (snd mixed_run))
  = documents state_with_engine.
Proof.
  destruct (query_engine_build_leaves_other_engines world_mixed "gs://corpus" "eng-docs"
              "user-1" true state_with_engine (fst mixed_run) (snd mixed_run) 7)
    as (_ & Hdocs & _).
  - unfold mixed_run. destruct (query_engine_build _ _ _ _ _ _). reflexivity.
  - vm_compute. discriminate.
  - rewrite Hdocs. reflexivity.
Defined.

(** X1. Every file a successful [_generate_index_data] writes holds at most
    MAX_NUM_TEXT_CHUNK_PROCESS lines, and so does every file written by a
    successful build. *)
Theorem embedding_files_hold_at_most_max_lines w :
  (forall doc_name text_chunks index_base s new_index_base embeddings_dir s',
     _generate_index_data w doc_name text_chunks index_base s
     = (Ok (new_index_base, embeddings_dir), s') ->
     exists files,
       written s' = written s ++ files /\
       Forall (fun f => List.length (ef_lines f) <= MAX_NUM_TEXT_CHUNK_PROCESS) files) /\
  (forall doc_url query_engine user_id is_public s q_engine docs_processed
          docs_not_processed s',
     query_engine_build w doc_url query_engine user_id is_public s
     = (Ok (q_engine, docs_processed, docs_not_processed), s') ->
     exists files,
       written s' = written s ++ files /\
       Forall (fun f => List.length (ef_lines f) <= MAX_NUM_TEXT_CHUNK_PROCESS) files).
Proof.
  split.
  - intros doc_name text_chunks index_base s nb d s' Hrun.
    apply _generate_index_data_Ok in Hrun as (_ & _ & files & Hwritten & _ & Hsizes & _).
    exists files. split; assumption.
  - intros doc_url query_engine user_id is_public s q P N s' Hrun.
    apply query_engine_build_Ok in Hrun
      as (_ & _ & _ & hi & [_ _ _ _ (files & FW & _ & FS & _)]).
    exists files. split; assumption.
Qed.

Lemma embedding_files_hold_at_most_max_lines_witness :
  Forall (fun f => List.length (ef_lines f) <= MAX_NUM_TEXT_CHUNK_PROCESS)
         (written (snd mixed_run)).
Proof.
  destruct (embedding_files_hold_at_most_max_lines world_mixed) as (_ & Hbuild).
  destruct (Hbuild "gs://corpus" "eng-docs" "user-1" true state_with_engine
              (fst (fst mixed_outcome)) (snd (fst mixed_outcome))
              (snd mixed_outcome) (snd mixed_run) mixed_run_Ok)
    as (files & Hwritten & Hsizes).
  assert (Hfiles : files = written (snd mixed_run)) by exact (eq_sym Hwritten).
  rewrite <- Hfiles. exact Hsizes.
Defined.

(* ================================================================== *)
(** ** The shape of the batches *)

Lemma slice_length_min A (l : list A) i j :
  List.length (slice l i j) = Nat.min (j - i) (List.length l - i).
Proof. unfold slice. now rewrite length_firstn, length_skipn. Qed.

Lemma range_step_below n step k :
  0 < step -> k < (n + step - 1) / step -> k * step < n.
Proof.
  intros Hstep Hk.
  pose proof (Nat.Div0.mul_div_le (n + step - 1) step) as Hle.
  nia.
Qed.

Lemma _generate_batches_length text_chunks batch_size :
  List.length (_generate_batches text_chunks batch_size)
  = (List.length text_chunks + batch_size - 1) / batch_size.
Proof.
  unfold _generate_batches, range_step. now rewrite !length_map, length_seq.
Qed.

Lemma _generate_batches_nth text_chunks batch_size k :
  k < (List.length text_chunks + batch_size - 1) / batch_size ->
  nth k (_generate_batches text_chunks batch_size) []
  = slice text_chunks (k * batch_size) (k * batch_size + batch_size).
Proof.
  intro Hk. unfold _generate_batches, range_step.
  rewrite map_map.
  rewrite (nth_indep _ [] (slice text_chunks (0 * batch_size) (0 * batch_size + batch_size)))
    by now rewrite length_map, length_seq.
  rewrite (map_nth (fun k0 => slice text_chunks (k0 * batch_size) (k0 * batch_size + batch_size))).
  now rewrite seq_nth.
Qed.

(** X4. For a positive batch size, [_generate_batches] cuts the chunks
    into consecutive batches: joined in order they give the chunks back,
    there are ceil(n / batch_size) of them, none is empty or longer than
    the batch size, and every batch before the last is full. *)
Theorem _generate_batches_shape text_chunks batch_size :
  0 < batch_size ->
  let batches := _generate_batches text_chunks batch_size in
  List.concat batches = text_chunks /\
  List.length batches = (List.length text_chunks + batch_size - 1) / batch_size /\
  Forall (fun batch => 0 < List.length batch <= batch_size) batches /\
  (forall i, S i < List.length batches ->
             List.length (nth i batches []) = batch_size).
Proof.
  intros Hpos batches. subst batches.
  split; [now apply _generate_batches_concat |].
  split; [apply _generate_batches_length |].
  split.
  - apply Forall_forall. intros batch Hin.
    apply (In_nth _ _ []) in Hin as (k & Hk & <-).
    rewrite _generate_batches_length in Hk.
    rewrite _generate_batches_nth by exact Hk.
    rewrite slice_length_min.
    pose proof (range_step_below _ _ _ Hpos Hk). lia.
  - intros i Hi. rewrite _generate_batches_length in Hi.
    rewrite _generate_batches_nth by lia.
    rewrite slice_length_min.
    pose proof (range_step_below _ _ _ Hpos Hi). lia.
Qed.

Lemma _generate_batches_shape_witness :
  map (@List.length string)
      (_generate_batches ["a"; "b"; "c"; "d"; "e"; "f"; "g"] ITEMS_PER_REQUEST) = [5; 2] /\
  List.concat (_generate_batches ["a"; "b"; "c"; "d"; "e"; "f"; "g"] ITEMS_PER_REQUEST)
  = ["a"; "b"; "c"; "d"; "e"; "f"; "g"].
Proof.
  split; [reflexivity |].
  exact (proj1 (_generate_batches_shape ["a"; "b"; "c"; "d"; "e"; "f"; "g"]
                  ITEMS_PER_REQUEST (Nat.lt_0_succ 4))).
Defined.

(* ================================================================== *)
(** ** The exceptions a build raises *)

Section RaisesOnly.
Variable P : exn -> Prop.

Lemma raises_ret A (a : A) : raises_only P (ret a).
Proof. intros s e s' H. discriminate. Qed.

Lemma raises_gets A (f : State -> A) : raises_only P (gets f).
Proof. intros s e s' H. discriminate. Qed.

Lemma raises_modify f : raises_only P (modify f).
Proof. intros s e s' H. discriminate. Qed.

Lemma raises_raise A e : P e -> raises_only P (@raise A e).
Proof. intros He s e' s' H. inversion H. now subst. Qed.

Lemma raises_lift A (x : result A) :
  (forall e, x = Raise e -> P e) -> raises_only P (lift x).
Proof. intros Hx s e s' H. inversion H. subst. now apply Hx. Qed.

Lemma raises_external A origin (o : option A) :
  P (ExternalError origin) -> raises_only P (external origin o).
Proof. intro H. destruct o; [apply raises_ret | now apply raises_raise]. Qed.

Lemma raises_external_ok origin b :
  P (ExternalError origin) -> raises_only P (external_ok origin b).
Proof. intro H. destruct b; [apply raises_ret | now apply raises_raise]. Qed.

Lemma raises_bind A B (m : M A) (f : A -> M B) :
  raises_only P m -> (forall a, raises_only P (f a)) -> raises_only P (bind m f).
Proof.
  intros Hm Hf s e s' H.
  apply bind_Raise_inv in H as [H | (a & s1 & _ & H)].
  - eapply Hm; eauto.
  - eapply Hf; eauto.
Qed.

(** A handler that catches everything: only what it raises gets out. *)
Lemma raises_try_except A (m : M A) (h : exn -> M A) :
  (forall e, raises_only P (h e)) -> raises_only P (try_except m h).
Proof.
  intros Hh s e s'. unfold try_except.
  destruct (m s) as [[a | e1] s1]; intro H.
  - discriminate.
  - eapply Hh; eauto.
Qed.

Lemma raises_for_each A (l : list A) (body : A -> M unit) :
  (forall a, raises_only P (body a)) -> raises_only P (for_each l body).
Proof.
  intro Hb. induction l as [| x l IH]; simpl.
  - apply raises_ret.
  - apply raises_bind; auto.
Qed.
End RaisesOnly.

Lemma raises_weaken A (P Q : exn -> Prop) (m : M A) :
  (forall e, P e -> Q e) -> raises_only P m -> raises_only Q m.
Proof. intros HPQ Hm s e s' H. apply HPQ. eapply Hm; eauto. Qed.

(** One step of a proof that a program raises only exceptions of a kind. *)
Ltac raises_step :=
  lazymatch goal with
  | |- forall _, _ => intro
  | |- raises_only _ (ret _) => apply raises_ret
  | |- raises_only _ (gets _) => apply raises_gets
  | |- raises_only _ (modify _) => apply raises_modify
  | |- raises_only _ (raise _) => apply raises_raise; reflexivity
  | |- raises_only _ (external _ _) => apply raises_external; reflexivity
  | |- raises_only _ (external_ok _ _) => apply raises_external_ok; reflexivity
  | |- raises_only _ (bind _ _) => apply raises_bind
  | |- raises_only _ (try_except _ _) => apply raises_try_except
  | |- raises_only _ (for_each _ _) => apply raises_for_each
  | |- raises_only _ (match ?x with _ => _ end) => destruct x
  end.

Ltac raises_tac :=
  repeat first
    [ raises_step
    | progress unfold Logger_error, rmtree, write_file, upload, walk,
        QueryEngine_update, QueryDocumentChunk_save
    | solve [intros ? ? ? HH; inversion HH] ].

Lemma collect_results_raises w batches e :
  collect_results w batches = Raise e -> e = ExternalError "from_pretrained".
Proof.
  induction batches as [| batch rest IH]; simpl; [discriminate |].
  unfold _encode_texts_to_embeddings.
  destruct (from_pretrained_ok w); simpl.
  - destruct (get_embeddings w batch); simpl;
      destruct (collect_results w rest); simpl; try discriminate;
      intro H; apply IH; inversion H; reflexivity.
  - intro H. inversion H. reflexivity.
Qed.

Lemma _get_embedding_batched_pipeline_error w text_chunks batch_size e :
  _get_embedding_batched w text_chunks batch_size = Raise e ->
  is_pipeline_error e = true.
Proof.
  unfold _get_embedding_batched, embeddings_list_of.
  destruct batch_size as [| n]; simpl.
  - intro H. inversion H. reflexivity.
  - destruct (collect_results w _) as [embeddings_list | e1] eqn:E; simpl.
    + unfold np_stack. destruct (not_None embeddings_list) as [| a rest]; simpl.
      * intro H. inversion H. reflexivity.
      * match goal with |- context [if ?b then _ else _] => destruct b end;
          simpl; intro H; inversion H. reflexivity.
    + intro H. inversion H. subst e1.
      apply collect_results_raises in E. now subst.
Qed.

Lemma np_mask_raises A (ids : list A) mask e :
  np_mask ids mask = Raise e -> e = IndexError.
Proof.
  unfold np_mask. destruct (_ =? _); intro H; inversion H. reflexivity.
Qed.

Lemma index_data_loop_raises w fuel doc_name text_chunks num_chunks chunk_index
    index_base dir :
  raises_only (fun e => is_pipeline_error e = true \/ e = LoopBoundExceeded)
    (index_data_loop w fuel doc_name text_chunks num_chunks chunk_index index_base dir).
Proof.
  revert chunk_index index_base dir.
  induction fuel as [| fuel IH]; intros chunk_index index_base dir; simpl;
    destruct (chunk_index <? num_chunks).
  - apply raises_raise. now right.
  - apply raises_ret.
  - apply raises_bind; [intros s e s' H; inversion H |].
    intro d. apply raises_bind.
    + apply raises_lift. intros e He. left.
      now apply _get_embedding_batched_pipeline_error in He.
    + intros [is_successful chunk_embeddings]. apply raises_bind.
      * apply raises_lift. intros e He. left.
        apply np_mask_raises in He. now subst.
      * intro selected. apply raises_bind; [apply raises_modify |].
        intros _. apply IH.
  - apply raises_ret.
Qed.

Lemma _generate_index_data_raises w doc_name text_chunks index_base :
  raises_only (fun e => is_pipeline_error e = true)
    (_generate_index_data w doc_name text_chunks index_base).
Proof.
  intros s e s' H.
  assert (Hm : is_pipeline_error e = true \/ e = LoopBoundExceeded).
  { revert H. unfold _generate_index_data.
    match goal with
    | |- ?m s = _ -> _ =>
        assert (Hp : raises_only
                       (fun e => is_pipeline_error e = true \/ e = LoopBoundExceeded) m)
    end; [| intro H; exact (Hp _ _ _ H)].
    apply raises_bind; [apply index_data_loop_raises |].
    intros [ib [d |]]; [apply raises_ret | apply raises_raise; now left]. }
  destruct Hm as [Hm | ->]; [exact Hm |].
  now apply _generate_index_data_bound in H.
Qed.

Lemma upload_and_store_raises w q doc_url text_chunks index_base new_index_base dir :
  raises_only (fun e => is_pipeline_error e = true)
    (upload_and_store w q doc_url text_chunks index_base new_index_base dir).
Proof. unfold upload_and_store. raises_tac. Qed.

Lemma process_loop_raises w q docs index_base processed not_processed :
  raises_only (fun e => is_pipeline_error e = true)
    (process_loop w q docs index_base processed not_processed).
Proof.
  revert index_base processed not_processed.
  induction docs as [| [[doc_name doc_url] doc_filepath] rest IH];
    intros index_base processed not_processed; simpl.
  - apply raises_ret.
  - apply raises_bind.
    + apply raises_try_except. raises_tac.
    + intros [doc_text_list |]; [| apply IH].
      apply raises_bind; [apply _generate_index_data_raises |].
      intros [new_index_base dir].
      apply raises_bind; [apply upload_and_store_raises |].
      intro query_doc. apply IH.
Qed.

Lemma _process_documents_raises w doc_url q :
  raises_only (fun e => is_build_error e = true) (_process_documents w doc_url q).
Proof.
  unfold _process_documents, _download_files_to_local. raises_tac.
  apply raises_weaken with (P := fun e => is_pipeline_error e = true);
    [| apply process_loop_raises].
  intros [] He; try discriminate; reflexivity.
Qed.

Lemma build_doc_index_body_raises w doc_url query_engine q_engine :
  raises_only (fun e => is_build_error e = true)
    (external_ok "storage.Client" (storage_client_ok w) ;;
     create_data_bucket w ;;
     ' (docs_processed, docs_not_processed) <- _process_documents w doc_url q_engine ;;
     if List.length docs_processed =? 0 then raise NoDocumentsIndexedException
     else
       let index_name := (replace_char "-"%char "_"%char query_engine ++ "_MEindex")%string in
       _create_me_index_and_endpoint w index_name q_engine ;;
       ret (docs_processed, docs_not_processed)).
Proof.
  raises_tac.
  - unfold create_data_bucket. raises_tac.
  - apply _process_documents_raises.
  - unfold _create_me_index_and_endpoint. raises_tac.
Qed.

(* ================================================================== *)
(** ** The error log of a build *)

Lemma log_grows_refl s : log_grows s s.
Proof. exists []. now rewrite app_nil_r. Qed.

Lemma log_grows_trans s1 s2 s3 : log_grows s1 s2 -> log_grows s2 s3 -> log_grows s1 s3.
Proof.
  intros [l1 H1] [l2 H2]. exists (l1 ++ l2). now rewrite H2, H1, app_assoc.
Qed.

Lemma log_grows_same s s' : error_log s' = error_log s -> log_grows s s'.
Proof. intro H. exists []. now rewrite app_nil_r. Qed.

Ltac log_tac :=
  repeat first
    [ pres_step log_grows_refl log_grows_trans
    | match goal with
      | |- preserves _ (match ?x with _ => _ end) => destruct x
      end
    | progress unfold Logger_error, rmtree, write_file, upload, walk,
        QueryEngine_update, QueryDocumentChunk_save
    | solve [apply preserves_modify; intro; apply log_grows_same; reflexivity]
    | solve [apply preserves_modify; intro; eexists; reflexivity]
    | solve [intros ? ? ? HH; inversion HH; apply log_grows_same; reflexivity] ].

Lemma index_data_loop_log w fuel doc_name text_chunks num_chunks chunk_index index_base dir :
  preserves log_grows
    (index_data_loop w fuel doc_name text_chunks num_chunks chunk_index index_base dir).
Proof.
  revert chunk_index index_base dir.
  induction fuel as [| fuel IH]; intros chunk_index index_base dir; simpl;
    destruct (chunk_index <? num_chunks); log_tac.
  apply IH.
Qed.

Lemma process_loop_log w q docs index_base processed not_processed :
  preserves log_grows (process_loop w q docs index_base processed not_processed).
Proof.
  revert index_base processed not_processed.
  induction docs as [| [[doc_name doc_url] doc_filepath] rest IH];
    intros index_base processed not_processed; simpl.
  - log_tac.
  - apply (preserves_bind _ log_grows_trans).
    + unfold _read_doc.
      repeat match goal with |- context [if ?b then _ else _] => destruct b end;
        log_tac.
    + intros [doc_text_list |]; [| apply IH].
      unfold _generate_index_data, upload_and_store. log_tac.
      * apply index_data_loop_log.
      * apply IH.
Qed.

Lemma build_doc_index_body_log w doc_url query_engine q_engine :
  preserves log_grows
    (external_ok "storage.Client" (storage_client_ok w) ;;
     create_data_bucket w ;;
     ' (docs_processed, docs_not_processed) <- _process_documents w doc_url q_engine ;;
     if List.length docs_processed =? 0 then raise NoDocumentsIndexedException
     else
       let index_name := (replace_char "-"%char "_"%char query_engine ++ "_MEindex")%string in
       _create_me_index_and_endpoint w index_name q_engine ;;
       ret (docs_processed, docs_not_processed)).
Proof.
  log_tac.
  - unfold create_data_bucket. log_tac.
  - unfold _process_documents, _download_files_to_local. log_tac.
    apply process_loop_log.
  - unfold _create_me_index_and_endpoint. log_tac.
Qed.

(** A failing [build_doc_index]: the engine is missing and nothing happened,
    or an exception reached the [except] clause, which logged and wrapped it. *)
Lemma build_doc_index_Raise w doc_url query_engine s e s' :
  build_doc_index w doc_url query_engine s = (Raise e, s') ->
  (find_engine query_engine s = None /\ e = ResourceNotFoundException /\ s' = s) \/
  (exists q c entries,
     find_engine query_engine s = Some q /\
     e = InternalServerError c /\
     is_build_error c = true /\
     error_log s' = error_log s ++ entries ++ [LogDocIndexError c]).
Proof.
  unfold build_doc_index. erewrite bind_Ok_run by reflexivity.
  destruct (find_engine query_engine s) as [q |] eqn:Hfind.
  - intro H. right. unfold try_except in H.
    match type of H with
    | context [match ?m s with _ => _ end] => destruct (m s) as [[a | c] s1] eqn:Hbody
    end; [discriminate |].
    pose proof (build_doc_index_body_raises _ _ _ _ _ _ _ Hbody) as Hkind.
    pose proof (build_doc_index_body_log _ _ _ _ _ _ _ Hbody) as [entries Hlog].
    inversion H. subst e s'. clear H.
    exists q, c, entries. simpl. rewrite Hlog, <- app_assoc. auto.
  - intro H. left. inversion H. auto.
Qed.

(** A failing [query_engine_build]. *)
Lemma query_engine_build_Raise w doc_url query_engine user_id is_public s e s' :
  query_engine_build w doc_url query_engine user_id is_public s = (Raise e, s') ->
  (e = ValidationError /\ find_engine query_engine s <> None /\ s' = s) \/
  (exists c entries,
     e = InternalServerError (InternalServerError c) /\
     is_build_error c = true /\
     find_engine query_engine s = None /\
     same_store s s' /\
     error_log s' = error_log s ++ entries ++ [LogDocIndexError c]).
Proof.
  intro Hrun. destruct (find_engine query_engine s) as [q0 |] eqn:Hfind.
  - rewrite (query_engine_build_name_taken _ _ _ _ _ _ _ Hfind) in Hrun.
    inversion Hrun. left. repeat split. discriminate.
  - right. rewrite (query_engine_build_unfold _ _ _ _ _ _ Hfind) in Hrun.
    destruct (build_doc_index w doc_url query_engine
                (engine_saved w query_engine user_id is_public s))
      as [[[P N] | e1] s1] eqn:Hbuild; [discriminate |].
    inversion Hrun. subst e s'. clear Hrun.
    pose proof (rolled_back_restores _ _ _ _ _ _ _ _ Hfind Hbuild) as Hstore.
    apply build_doc_index_Raise in Hbuild
      as [(Hnone & _) | (q & c & entries & _ & -> & Hkind & Hlog)].
    + rewrite (find_engine_saved _ _ _ _ _ Hfind) in Hnone. discriminate.
    + exists c, entries. repeat split; try assumption; apply Hstore.
Qed.

(** X5. Whatever the services answer, [query_engine_build] ends in one of
    three ways.  It returns, and then the name was free and at least one
    document was processed.  Or it raises ValidationError, the name being
    taken, and the state is untouched.  Or it raises InternalServerError
    wrapped twice around its cause: NoDocumentsIndexedException, an error of
    numpy (ValueError, IndexError), UnboundLocalError, or the error of an
    external service; then the metadata store is what it was before the
    call, and the last entry of the error log is that cause. *)
Theorem query_engine_build_outcomes w doc_url query_engine user_id is_public s r s' :
  query_engine_build w doc_url query_engine user_id is_public s = (r, s') ->
  match r with
  | Ok (q_engine, docs_processed, docs_not_processed) =>
      find_engine query_engine s = None /\ docs_processed <> []
  | Raise e =>
      (e = ValidationError /\ find_engine query_engine s <> None /\ s' = s) \/
      (exists c entries,
         e = InternalServerError (InternalServerError c) /\
         is_build_error c = true /\
         find_engine query_engine s = None /\
         same_store s s' /\
         error_log s' = error_log s ++ entries ++ [LogDocIndexError c])
  end.
Proof.
  intro Hrun. destruct r as [[[q_engine docs_processed] docs_not_processed] | e].
  - apply query_engine_build_Ok in Hrun as (Hfree & _ & Hne & _). auto.
  - exact (query_engine_build_Raise _ _ _ _ _ _ _ _ Hrun).
Qed.

Lemma query_engine_build_outcomes_witness :
  fst (query_engine_build world_unsupported "gs://corpus" "eng-docs" "user-1" true
         state_with_engine)
  = Raise (InternalServerError (InternalServerError NoDocumentsIndexedException)) /\
  match fst (query_engine_build world_unsupported "gs://corpus" "eng-docs" "user-1" true
               state_with_engine) with
  | Ok (q_engine, docs_processed, docs_not_processed) =>
      find_engine "eng-docs" state_with_engine = None /\ docs_processed <> []
  | Raise e =>
      (e = ValidationError /\ find_engine "eng-docs" state_with_engine <> None /\
       snd (query_engine_build world_unsupported "gs://corpus" "eng-docs" "user-1" true
              state_with_engine) = state_with_engine) \/
      (exists c entries,
         e = InternalServerError (InternalServerError c) /\
         is_build_error c = true /\
         find_engine "eng-docs" state_with_engine = None /\
         same_store state_with_engine
           (snd (query_engine_build world_unsupported "gs://corpus" "eng-docs" "user-1"
                   true state_with_engine)) /\
         error_log
           (snd (query_engine_build world_unsupported "gs://corpus" "eng-docs" "user-1"
                   true state_with_engine))
         = error_log state_with_engine ++ entries ++ [LogDocIndexError c])
  end.
Proof.
  split; [vm_compute; reflexivity |].
  exact (query_engine_build_outcomes world_unsupported "gs://corpus" "eng-docs" "user-1"
           true state_with_engine _ _ (surjective_pairing _)).
Defined.

(** X6. [build_doc_index] fails in two ways only.  When no engine has the
    name it raises ResourceNotFoundException, unwrapped, and the state is
    untouched.  Otherwise the exception is logged, then raised again inside
    an InternalServerError; the records of other engines are as they were,
    but documents and chunks already stored for this engine stay (removing
    them is left to [query_engine_build]). *)
Theorem build_doc_index_failures w doc_url query_engine s e s' :
  build_doc_index w doc_url query_engine s = (Raise e, s') ->
  match find_engine query_engine s with
  | None => e = ResourceNotFoundException /\ s' = s
  | Some q_engine =>
      exists c entries,
        e = InternalServerError c /\
        is_build_error c = true /\
        error_log s' = error_log s ++ entries ++ [LogDocIndexError c] /\
        store_frame (qe_id q_engine) s s'
  end.
Proof.
  intro Hrun.
  pose proof (build_doc_index_Raise _ _ _ _ _ _ Hrun)
    as [(-> & -> & ->) | (q & c & entries & Hfind & -> & Hkind & Hlog)].
  - auto.
  - rewrite Hfind. exists c, entries. repeat split; try assumption;
      apply (build_doc_index_frame _ _ _ _ _ _ _ Hfind Hrun).
Qed.

Lemma build_doc_index_failures_witness :
  exists c entries,
    fst unsupported_run = Raise (InternalServerError c) /\
    is_build_error c = true /\
    error_log (snd unsupported_run)
    = error_log state_with_engine ++ entries ++ [LogDocIndexError c].
Proof.
  destruct (build_doc_index_failures world_unsupported "gs://corpus" "hr-docs"
              state_with_engine (InternalServerError NoDocumentsIndexedException)
              (snd unsupported_run))
    as (c & entries & He & Hkind & Hlog & _).
  - vm_compute. reflexivity.
  - exists c, entries. split; [| split; assumption].
    rewrite <- He. vm_compute. reflexivity.
Defined.

(* ================================================================== *)
(** ** The engine record of a build *)

Lemma index_data_loop_keeps_engines w fuel doc_name text_chunks num_chunks chunk_index
    index_base dir :
  preserves (keeps engines)
    (index_data_loop w fuel doc_name text_chunks num_chunks chunk_index index_base dir).
Proof.
  revert chunk_index index_base dir.
  induction fuel as [| fuel IH]; intros chunk_index index_base dir; simpl;
    destruct (chunk_index <? num_chunks); keeps_tac engines.
  apply IH.
Qed.

Lemma process_loop_keeps_engines w q docs index_base processed not_processed :
  preserves (keeps engines) (process_loop w q docs index_base processed not_processed).
Proof.
  revert index_base processed not_processed.
  induction docs as [| [[doc_name doc_url] doc_filepath] rest IH];
    intros index_base processed not_processed; simpl.
  - keeps_tac engines.
  - apply (preserves_bind _ (keeps_trans _ engines)).
    + unfold _read_doc.
      repeat match goal with |- context [if ?b then _ else _] => destruct b end;
        keeps_tac engines.
    + intros [doc_text_list |]; [| apply IH].
      unfold _generate_index_data, upload_and_store. keeps_tac engines.
      * apply index_data_loop_keeps_engines.
      * apply IH.
Qed.

Lemma _process_documents_keeps_engines w doc_url q :
  preserves (keeps engines) (_process_documents w doc_url q).
Proof.
  unfold _process_documents, _download_files_to_local. keeps_tac engines.
  apply process_loop_keeps_engines.
Qed.

Lemma _create_me_index_and_endpoint_Ok w index_name q s s' :
  _create_me_index_and_endpoint w index_name q s = (Ok tt, s') ->
  exists index_id endpoint,
    create_tree_ah_index w = Some index_id /\
    create_endpoint w = Some endpoint /\
    engines s'
    = map (fun q0 => if qe_id q0 =? qe_id q
                     then with_index q index_id index_name endpoint else q0)
          (engines s).
Proof.
  unfold _create_me_index_and_endpoint. intro Hrun.
  destruct (create_tree_ah_index w) as [index_id |]; [| discriminate].
  destruct (create_endpoint w) as [endpoint |]; [| discriminate].
  exists index_id, endpoint. split; [reflexivity | split; [reflexivity |]].
  cbn [external] in Hrun.
  erewrite !bind_Ok_run in Hrun by reflexivity.
  unfold try_except, external_ok in Hrun.
  destruct (deploy_index_ok w); inversion Hrun; reflexivity.
Qed.

(** The engines in store after a successful [build_doc_index]. *)
Lemma build_doc_index_engines w doc_url name q s P N s' :
  find_engine name s = Some q ->
  build_doc_index w doc_url name s = (Ok (P, N), s') ->
  exists index_id endpoint,
    create_tree_ah_index w = Some index_id /\
    create_endpoint w = Some endpoint /\
    engines s'
    = map (fun q0 =>
             if qe_id q0 =? qe_id q
             then with_index q index_id
                    (replace_char "-"%char "_"%char name ++ "_MEindex")%string endpoint
             else q0)
          (engines s).
Proof.
  intros Hfind Hrun. unfold build_doc_index in Hrun.
  erewrite bind_Ok_run in Hrun by reflexivity. rewrite Hfind in Hrun.
  unfold try_except in Hrun.
  match type of Hrun with
  | context [match ?m s with _ => _ end] => destruct (m s) as [[a | e] s1] eqn:Hbody
  end; [| discriminate].
  inversion Hrun. subst a s1. clear Hrun.
  apply bind_Ok_inv in Hbody as ([] & s1 & Hclient & Hbody).
  assert (s1 = s) by (unfold external_ok in Hclient; destruct (storage_client_ok w);
                      inversion Hclient; reflexivity).
  subst s1. clear Hclient.
  apply bind_Ok_inv in Hbody as ([] & s1 & Hbucket & Hbody).
  apply create_data_bucket_Ok in Hbucket. subst s1.
  apply bind_Ok_inv in Hbody as ([P1 N1] & s2 & Hdocs & Hbody).
  apply _process_documents_keeps_engines in Hdocs. unfold keeps in Hdocs.
  destruct (List.length P1 =? 0); [discriminate |].
  apply bind_Ok_inv in Hbody as ([] & s3 & Hindex & Hbody).
  inversion Hbody. subst s3. clear Hbody.
  apply _create_me_index_and_endpoint_Ok in Hindex
    as (index_id & endpoint & Hi & He & Hengines).
  exists index_id, endpoint. rewrite Hengines, Hdocs. auto.
Qed.

(** X7. After a successful build the store holds, as its last engine and
    under the name of the build, the record of the new engine with its index
    fields set: the resource name of the index, the index name (the engine
    name with "-" replaced by "_", then "_MEindex") and the resource name of
    the endpoint.  The engine object the build returns is the record as it
    was first saved, whose three index fields are unset. *)
Theorem built_engine_is_stored_with_index w doc_url query_engine user_id is_public s
    q_engine docs_processed docs_not_processed s' :
  query_engine_build w doc_url query_engine user_id is_public s
  = (Ok (q_engine, docs_processed, docs_not_processed), s') ->
  exists index_id endpoint,
    create_tree_ah_index w = Some index_id /\
    create_endpoint w = Some endpoint /\
    let stored :=
      with_index q_engine index_id
        (replace_char "-"%char "_"%char query_engine ++ "_MEindex")%string endpoint in
    engines s' = engines s ++ [stored] /\
    find_engine query_engine s' = Some stored /\
    qe_name q_engine = query_engine /\
    qe_index_id q_engine = None /\
    qe_index_name q_engine = None /\
    qe_endpoint q_engine = None.
Proof.
  intro Hrun.
  pose proof (query_engine_build_Ok _ _ _ _ _ _ _ _ _ _ Hrun) as (Hfree & Hq & _).
  rewrite (query_engine_build_unfold _ _ _ _ _ _ Hfree) in Hrun.
  destruct (build_doc_index w doc_url query_engine
              (engine_saved w query_engine user_id is_public s))
    as [[[P N] | e] s1] eqn:Hbuild; [| discriminate].
  inversion Hrun. subst q_engine P N s1. clear Hrun.
  set (q_engine := new_engine w query_engine user_id is_public s) in *.
  apply (build_doc_index_engines _ _ _ _ _ _ _ _
           (find_engine_saved w _ user_id is_public _ Hfree)) in Hbuild
    as (index_id & endpoint & Hi & He & Hengines).
  exists index_id, endpoint. split; [exact Hi | split; [exact He |]].
  assert (Hstored :
            engines s'
            = engines s
              ++ [with_index q_engine index_id
                    (replace_char "-"%char "_"%char query_engine ++ "_MEindex")%string
                    endpoint]).
  { rewrite Hengines. cbn [engine_saved set_engines engines].
    rewrite map_app. f_equal.
    - destruct (new_engine_id_foreign s) as (Fe & _).
      rewrite <- (map_id (engines s)) at 2. apply map_ext_in.
      intros q0 Hq0. rewrite Forall_forall in Fe. specialize (Fe q0 Hq0).
      apply Nat.eqb_neq in Fe. subst q_engine. cbn [new_engine qe_id]. now rewrite Fe.
    - cbn [map]. now rewrite Nat.eqb_refl. }
  cbv zeta. split; [exact Hstored |].
  split.
  - unfold find_engine in *. rewrite Hstored, find_app, Hfree.
    cbn [find with_index qe_name]. subst q_engine. cbn [new_engine qe_name].
    now rewrite String.eqb_refl.
  - repeat split.
Qed.

Lemma built_engine_is_stored_with_index_witness :
  map qe_index_name (engines (snd mixed_run))
  = [Some "hr_docs_MEindex"; Some "eng_docs_MEindex"] /\
  qe_index_name (fst (fst mixed_outcome)) = None.
Proof.
  destruct (built_engine_is_stored_with_index world_mixed "gs://corpus" "eng-docs" "user-1"
              true state_with_engine (fst (fst mixed_outcome)) (snd (fst mixed_outcome))
              (snd mixed_outcome) (snd mixed_run) mixed_run_Ok)
    as (index_id & endpoint & _ & _ & Hstored & _ & _ & _ & Hname & _).
  split; [| exact Hname].
  rewrite Hstored. reflexivity.
Defined.

(* ================================================================== *)
(** ** The chunks of the corpus *)

Lemma keys_unpack e di lo text_chunks cs :
  map chunk_key cs
  = map (fun i => (e, di, i + lo, nth i text_chunks "")) (seq 0 (List.length text_chunks)) ->
  map qc_index cs = seq lo (List.length text_chunks) /\
  map qc_text cs = text_chunks /\
  Forall (fun c => qc_query_engine_id c = e /\ qc_query_document_id c = di) cs.
Proof.
  intro Hkeys. repeat split.
  - assert (H : map qc_index cs
                = map (fun k : nat * nat * nat * string => snd (fst k)) (map chunk_key cs))
      by (rewrite map_map; reflexivity).
    rewrite H, Hkeys, map_map, (seq_from lo). cbn [fst snd].
    apply map_ext. intro i. apply Nat.add_comm.
  - assert (H : map qc_text cs
                = map (fun k : nat * nat * nat * string => snd k) (map chunk_key cs))
      by (rewrite map_map; reflexivity).
    rewrite H, Hkeys, map_map. cbn [fst snd]. apply map_nth_seq.
  - apply Forall_forall. intros c Hc.
    apply (in_map chunk_key) in Hc. rewrite Hkeys in Hc.
    apply in_map_iff in Hc as (i & Hi & _).
    symmetry in Hi. apply chunk_key_inv in Hi. tauto.
Qed.

(** The document [upload_and_store] saves has an id no stored document has. *)
Lemma upload_and_store_doc_id w q doc_url text_chunks index_base new_index_base dir s d s' :
  upload_and_store w q doc_url text_chunks index_base new_index_base dir s = (Ok d, s') ->
  Forall (fun d0 => qd_id d0 <> qd_id d) (documents s).
Proof.
  unfold upload_and_store. intro Hrun.
  apply bind_Ok_inv in Hrun as ([] & s0 & Hok & Hrun).
  assert (s0 = s) by (unfold external_ok in Hok; destruct (get_bucket_ok w);
                      inversion Hok; reflexivity).
  subst s0. clear Hok.
  apply bind_Ok_inv in Hrun as (files & s0 & Hwalk & Hrun).
  inversion Hwalk. subst files s0. clear Hwalk.
  apply bind_Ok_inv in Hrun as ([] & s1 & Hup & Hrun).
  apply uploads_Ok in Hup as (_ & (_ & Hd1 & _) & _).
  apply bind_Ok_inv in Hrun as ([] & s2 & Hrm & Hrun).
  inversion Hrm. subst s2. clear Hrm.
  apply bind_Ok_inv in Hrun as (query_doc & s3 & Hsave & Hrun).
  inversion Hsave. subst query_doc s3. clear Hsave.
  apply bind_Ok_inv in Hrun as ([] & s4 & _ & Hrun).
  inversion Hrun. subst d. cbn [qd_id].
  rewrite <- Hd1. apply fresh_foreign.
  unfold document_ids_in_use. cbn [documents set_tmp_dirs]. apply incl_appl, incl_refl.
Qed.

Lemma find_none A (f : A -> bool) l :
  Forall (fun x => f x = false) l -> find f l = None.
Proof.
  induction 1 as [| x l Hx _ IH]; [reflexivity |]. cbn [find]. now rewrite Hx.
Qed.

Lemma find_by_id_new s s' d rest :
  Forall (fun d0 => qd_id d0 <> qd_id d) (documents s) ->
  documents s' = documents s ++ d :: rest ->
  find_by_id (qd_id d) s' = Some d.
Proof.
  intros Hnew Hdocs. unfold find_by_id. rewrite Hdocs, find_app, find_none.
  - cbn [find]. now rewrite Nat.eqb_refl.
  - eapply Forall_impl; [| exact Hnew]. intros d0 Hd0. now apply Nat.eqb_neq.
Qed.

(** The chunks a successful [process_loop] stores: their index ids count up
    from [index_base], and each resolves to the text of the chunk of the
    corpus at its position and to the url of the document it came from. *)
Lemma process_loop_index w q :
  forall docs lo processed not_processed s P N s',
    process_loop w q docs lo processed not_processed s = (Ok (P, N), s') ->
    exists new cs,
      P = processed ++ new /\
      documents s' = documents s ++ new /\
      doc_chunks s' = doc_chunks s ++ cs /\
      map qc_index cs = seq lo (List.length cs) /\
      Forall (fun c => qc_query_engine_id c = qe_id q) cs /\
      map (resolve s') cs = map Some (corpus_refs w docs) /\
      Forall (fun c =>
                exists d, find_by_id (qc_query_document_id c) s' = Some d /\
                          In d new /\
                          qd_index_start d <= qc_index c < qd_index_end d) cs.
Proof.
  induction docs as [| [[doc_name doc_url] doc_filepath] rest IH];
    intros lo processed not_processed s P N s' Hrun.
  - inversion Hrun. subst. exists [], []. rewrite !app_nil_r.
    repeat split; constructor.
  - cbn [process_loop] in Hrun.
    apply bind_Ok_inv in Hrun as (read & s1 & Hread & Hrun).
    pose proof (read_step_same _ _ _ _ _ _ Hread) as (_ & Hd1 & Hc1).
    destruct (read_step_run w doc_name doc_filepath s) as (s1' & Hread').
    rewrite Hread' in Hread. inversion Hread. subst read s1'. clear Hread Hread'.
    unfold corpus_refs. cbn [flat_map]. unfold doc_text_chunks at 1. cbn [fst snd].
    destruct (doc_sections w doc_name doc_filepath) as [doc_text_list |].
    + apply bind_Ok_inv in Hrun as ([nb dir] & s2 & Hgen & Hrun).
      apply bind_Ok_inv in Hrun as (d & s3 & Hup & Hrun).
      pose proof (_generate_index_data_same _ _ _ _ _ _ _ Hgen) as (_ & Hd2 & Hc2).
      apply _generate_index_data_Ok in Hgen as (Hnb & _ & _).
      pose proof (upload_and_store_doc_id _ _ _ _ _ _ _ _ _ _ Hup) as Hid.
      apply upload_and_store_Ok in Hup
        as ((_ & Hurl & Hstart & Hend) & Hdocs & (cs1 & Hcs1 & Hkeys) & _).
      apply keys_unpack in Hkeys as (Hidx1 & Htext1 & Hown1).
      apply IH in Hrun
        as (new' & cs' & HP & Hdocs' & Hchunks' & Hidx' & Heng' & Hres' & Hdoc').
      assert (Hfind : find_by_id (qd_id d) s' = Some d).
      { apply (find_by_id_new s2 s' d new'); [exact Hid |].
        now rewrite Hdocs', Hdocs, <- app_assoc. }
      assert (Hlen1 : List.length cs1 = List.length (flat_map (split_text w) doc_text_list))
        by (rewrite <- (length_map qc_index), Hidx1; apply length_seq).
      exists (d :: new'), (cs1 ++ cs').
      split; [now rewrite HP, <- app_assoc |].
      split; [now rewrite Hdocs', Hdocs, <- app_assoc, Hd2, Hd1 |].
      split; [now rewrite Hchunks', Hcs1, <- app_assoc, Hc2, Hc1 |].
      split; [| split; [| split]].
      * rewrite map_app, Hidx1, Hidx', length_app, seq_app, Hlen1, Hnb. reflexivity.
      * apply Forall_app. split; [| exact Heng'].
        eapply Forall_impl; [| exact Hown1]. intros c Hc. apply Hc.
      * rewrite !map_app, Hres'. f_equal.
        rewrite map_map, <- Htext1, map_map.
        apply map_ext_in. intros c Hc.
        rewrite Forall_forall in Hown1. destruct (Hown1 c Hc) as (_ & Hdoc).
        unfold resolve. now rewrite Hdoc, Hfind, Hurl.
      * apply Forall_app. split.
        -- apply Forall_forall. intros c Hc.
           rewrite Forall_forall in Hown1. destruct (Hown1 c Hc) as (_ & Hdoc).
           exists d. rewrite Hdoc. split; [exact Hfind | split; [now left |]].
           assert (Hin : In (qc_index c) (map qc_index cs1)) by now apply in_map.
           rewrite Hidx1 in Hin. apply in_seq in Hin. rewrite Hstart, Hend, Hnb. lia.
        -- eapply Forall_impl; [| exact Hdoc']. intros c (d0 & Hf & Hin & Hr).
           exists d0. split; [exact Hf | split; [now right | exact Hr]].
    + apply IH in Hrun
        as (new' & cs' & HP & Hdocs' & Hchunks' & Hidx' & Heng' & Hres' & Hdoc').
      exists new', cs'. rewrite Hdocs', Hchunks', Hd1, Hc1. repeat split; assumption.
Qed.

Lemma find_by_position id :
  forall cs lo k,
    Forall (fun c => qc_query_engine_id c = id) cs ->
    map qc_index cs = seq lo (List.length cs) ->
    k < List.length cs ->
    find (fun c => (qc_query_engine_id c =? id) && (qc_index c =? lo + k)) cs
    = nth_error cs k.
Proof.
  induction cs as [| c cs IH]; intros lo k Hown Hidx Hk; [inversion Hk |].
  apply Forall_cons_iff in Hown as [Hc Hown'].
  cbn [map List.length seq] in Hidx. injection Hidx as Hc0 Hidx.
  cbn [find]. rewrite Hc, Nat.eqb_refl, Hc0. cbn [andb].
  destruct k as [| k].
  - now rewrite Nat.add_0_r, Nat.eqb_refl.
  - assert (Hne : (lo =? lo + S k) = false) by (apply Nat.eqb_neq; lia).
    rewrite Hne. cbn [nth_error]. cbn [List.length] in Hk.
    rewrite <- (IH (S lo) k Hown' Hidx) by lia.
    now replace (S lo + k) with (lo + S k) by lia.
Qed.

(** Every readable document of a successful [process_loop] has a chunk. *)
Lemma process_loop_chunks_nonempty w q :
  forall docs lo processed not_processed s P N s',
    process_loop w q docs lo processed not_processed s = (Ok (P, N), s') ->
    Forall (fun doc => readable w doc = true -> doc_text_chunks w doc <> []) docs.
Proof.
  induction docs as [| [[doc_name doc_url] doc_filepath] rest IH];
    intros lo processed not_processed s P N s' Hrun; [constructor |].
  cbn [process_loop] in Hrun.
  apply bind_Ok_inv in Hrun as (read & s1 & Hread & Hrun).
  destruct (read_step_run w doc_name doc_filepath s) as (s1' & Hread').
  rewrite Hread' in Hread. inversion Hread. subst read s1'. clear Hread Hread'.
  unfold readable, doc_text_chunks.
  constructor.
  - cbn [fst snd].
    destruct (doc_sections w doc_name doc_filepath) as [doc_text_list |];
      [| discriminate].
    intros _.
    apply bind_Ok_inv in Hrun as ([nb dir] & s2 & Hgen & _).
    apply _generate_index_data_Ok in Hgen as (_ & Hpos & _).
    intro Hnil. rewrite Hnil in Hpos. inversion Hpos.
  - destruct (doc_sections w doc_name doc_filepath) as [doc_text_list |].
    + apply bind_Ok_inv in Hrun as ([nb dir] & s2 & _ & Hrun).
      apply bind_Ok_inv in Hrun as (d & s3 & _ & Hrun).
      exact (IH _ _ _ _ _ _ _ Hrun).
    + exact (IH _ _ _ _ _ _ _ Hrun).
Qed.

(** What a successful build stores, by the documents it downloaded. *)
Lemma query_engine_build_index w doc_url name user pub s blobs q P N s' :
  list_blobs w doc_url = Some blobs ->
  query_engine_build w doc_url name user pub s = (Ok (q, P, N), s') ->
  exists cs,
    doc_chunks s' = doc_chunks s ++ cs /\
    map qc_index cs = seq 0 (List.length cs) /\
    Forall (fun c => qc_query_engine_id c = qe_id q) cs /\
    map (resolve s') cs = map Some (corpus_refs w (downloaded w blobs)) /\
    Forall (fun c =>
              exists d, find_by_id (qc_query_document_id c) s' = Some d /\
                        In d P /\
                        qd_index_start d <= qc_index c < qd_index_end d) cs /\
    Forall (fun doc => readable w doc = true -> doc_text_chunks w doc <> [])
           (downloaded w blobs) /\
    forall k, k < List.length cs ->
              find_by_index (qe_id q) k s' = nth_error cs k.
Proof.
  intros Hblobs Hrun.
  pose proof (query_engine_build_Ok _ _ _ _ _ _ _ _ _ _ Hrun) as (_ & Hq & _).
  apply query_engine_build_Ok_loop in Hrun
    as (blobs' & s2 & Hblobs' & Hloop & (Hdocs & Hchunks) & _).
  rewrite Hblobs in Hblobs'. injection Hblobs' as <-.
  pose proof (process_loop_chunks_nonempty _ _ _ _ _ _ _ _ _ _ Hloop) as Hne.
  apply process_loop_index in Hloop
    as (new & cs & HP & _ & Hcs & Hidx & Hown & Hres & Hdoc).
  cbn [app] in HP. subst new.
  cbn [doc_chunks set_bucket engine_saved set_engines] in Hcs.
  assert (Hresolve : forall c, resolve s' c = resolve s2 c)
    by (intro c; unfold resolve, find_by_id; now rewrite Hdocs).
  exists cs. split; [now rewrite Hchunks |].
  split; [exact Hidx | split; [exact Hown |]].
  split; [rewrite <- Hres; apply map_ext; exact Hresolve |].
  split; [| split; [exact Hne |]].
  - eapply Forall_impl; [| exact Hdoc]. intros c (d & Hf & Hin & Hr).
    exists d. unfold find_by_id in *. rewrite Hdocs. auto.
  - intros k Hk. unfold find_by_index. rewrite Hchunks, Hcs, find_app.
    rewrite find_foreign_chunks.
    + apply (find_by_position (qe_id q) cs 0 k Hown Hidx Hk).
    + subst q. cbn [new_engine qe_id]. apply new_engine_id_foreign.
Qed.

(** X9. After a successful build over blobs of distinct base names (a
    downloaded file is removed once it is processed), the chunks stored for
    the engine are the chunks of the corpus, in order: the readable
    documents in the order of their blobs, each split section by section.
    The chunk at index id [k] holds the [k]-th chunk of the corpus, and
    [find_by_index] and [find_by_id] lead from [k] to that chunk and to the
    processed document it came from, whose range holds [k]. *)
Theorem built_chunks_follow_corpus w doc_url query_engine user_id is_public s blobs
    q_engine docs_processed docs_not_processed s' :
  list_blobs w doc_url = Some blobs ->
  NoDup (map snd (downloaded w blobs)) ->
  query_engine_build w doc_url query_engine user_id is_public s
  = (Ok (q_engine, docs_processed, docs_not_processed), s') ->
  let refs := corpus_refs w (downloaded w blobs) in
  exists cs,
    doc_chunks s' = doc_chunks s ++ cs /\
    map qc_index cs = seq 0 (List.length refs) /\
    map qc_text cs = map snd refs /\
    forall k, k < List.length refs ->
      exists c d,
        find_by_index (qe_id q_engine) k s' = Some c /\
        find_by_id (qc_query_document_id c) s' = Some d /\
        In d docs_processed /\
        qd_index_start d <= k < qd_index_end d /\
        (qd_doc_url d, qc_text c) = nth k refs ("", "").
Proof.
  intros Hblobs _ Hrun refs. subst refs.
  destruct (query_engine_build_index _ _ _ _ _ _ _ _ _ _ _ Hblobs Hrun)
    as (cs & Hcs & Hidx & Hown & Hres & Hdoc & _ & Hfind).
  assert (Hlen : List.length cs = List.length (corpus_refs w (downloaded w blobs)))
    by (rewrite <- (length_map (resolve s')), Hres; apply length_map).
  exists cs. split; [exact Hcs |].
  split; [now rewrite <- Hlen |].
  assert (Hnth : forall k c, nth_error cs k = Some c ->
            resolve s' c = Some (nth k (corpus_refs w (downloaded w blobs)) ("", ""))).
  { intros k c Hc.
    apply (map_nth_error (resolve s')) in Hc. rewrite Hres in Hc.
    assert (Hk : k < List.length (corpus_refs w (downloaded w blobs))).
    { rewrite <- (length_map Some). apply nth_error_Some. congruence. }
    rewrite (nth_error_nth' _ (Some ("", "")))  in Hc by now rewrite length_map.
    rewrite (map_nth Some) in Hc. congruence. }
  split.
  - apply nth_ext with (d := "") (d' := ""); [now rewrite !length_map |].
    intros k Hk. rewrite length_map in Hk.
    destruct (nth_error cs k) as [c |] eqn:Hc;
      [| apply nth_error_None in Hc; lia].
    pose proof (Hnth _ _ Hc) as Hr.
    rewrite (nth_indep _ "" (qc_text c)) by now rewrite length_map.
    rewrite (map_nth qc_text), (nth_error_nth _ _ _ Hc).
    rewrite (nth_indep _ "" (snd ("", ""))) by (rewrite length_map; lia).
    rewrite (map_nth snd).
    unfold resolve in Hr. destruct (find_by_id _ s'); [| discriminate].
    injection Hr as <-. reflexivity.
  - intros k Hk. rewrite <- Hlen in Hk.
    destruct (nth_error cs k) as [c |] eqn:Hc;
      [| apply nth_error_None in Hc; lia].
    rewrite Forall_forall in Hdoc.
    destruct (Hdoc c (nth_error_In _ _ Hc)) as (d & Hd & Hin & Hrange).
    exists c, d. rewrite (Hfind k Hk).
    assert (Hck : qc_index c = k).
    { apply (map_nth_error qc_index) in Hc. rewrite Hidx in Hc.
      rewrite (nth_error_nth' _ 0) in Hc by now rewrite length_seq.
      rewrite seq_nth in Hc by exact Hk. now injection Hc. }
    rewrite Hck in Hrange.
    pose proof (Hnth _ _ Hc) as Hr. unfold resolve in Hr. rewrite Hd in Hr.
    injection Hr as Hr. auto.
Qed.

Lemma built_chunks_follow_corpus_witness :
  exists cs,
    doc_chunks (snd mixed_run) = doc_chunks state_with_engine ++ cs /\
    map qc_index cs = [0; 1; 2; 3; 4; 5; 6] /\
    map qc_text cs = ["alpha"; "p1"; "p2"; "p3"; "p4"; "p5"; "p6"].
Proof.
  destruct (built_chunks_follow_corpus world_mixed "gs://corpus" "eng-docs" "user-1" true
              state_with_engine
              [ {| blob_name := "notes.txt"; blob_path := "/b/corpus/o/notes.txt" |};
                {| blob_name := "slides.pptx"; blob_path := "/b/corpus/o/slides.pptx" |};
                {| blob_name := "guide.pdf"; blob_path := "/b/corpus/o/guide.pdf" |} ]
              (fst (fst mixed_outcome)) (snd (fst mixed_outcome))
              (snd mixed_outcome) (snd mixed_run) eq_refl)
    as (cs & Hcs & Hidx & Htext & _).
  - repeat constructor; cbn; intuition discriminate.
  - exact mixed_run_Ok.
  - exists cs. split; [exact Hcs | split; [exact Hidx | exact Htext]].
Defined.

(** X8. [_generate_index_data] called with no chunk raises
    UnboundLocalError and touches nothing: its loop never assigns the
    directory it returns.  So a document that can be read but gives no text
    chunk (an empty text file, a PDF without pages) is not skipped: a build
    over blobs of distinct base names that holds one never succeeds; it
    raises, and the metadata store is what it was before. *)
Theorem document_without_chunks_fails_build w doc_url query_engine user_id is_public s
    blobs doc :
  list_blobs w doc_url = Some blobs ->
  NoDup (map snd (downloaded w blobs)) ->
  In doc (downloaded w blobs) ->
  readable w doc = true ->
  doc_text_chunks w doc = [] ->
  (forall doc_name index_base s0,
     _generate_index_data w doc_name [] index_base s0 = (Raise UnboundLocalError, s0)) /\
  exists e,
    fst (query_engine_build w doc_url query_engine user_id is_public s) = Raise e /\
    same_store s (snd (query_engine_build w doc_url query_engine user_id is_public s)).
Proof.
  intros Hblobs _ Hin Hread Hnil. split; [reflexivity |].
  destruct (query_engine_build w doc_url query_engine user_id is_public s)
    as [[[[q P] N] | e] s'] eqn:Hrun.
  - exfalso.
    destruct (query_engine_build_index _ _ _ _ _ _ _ _ _ _ _ Hblobs Hrun)
      as (cs & _ & _ & _ & _ & _ & Hne & _).
    rewrite Forall_forall in Hne. exact (Hne doc Hin Hread Hnil).
  - exists e. split; [reflexivity |]. cbn [snd].
    apply query_engine_build_Raise in Hrun
      as [(_ & _ & ->) | (c & entries & _ & _ & _ & Hstore & _)].
    + apply same_store_refl.
    + exact Hstore.
Qed.

Lemma document_without_chunks_fails_build_witness :
  fst (query_engine_build world_empty_file "gs://corpus" "eng-docs" "user-1" true
         state_with_engine)
  = Raise (InternalServerError (InternalServerError UnboundLocalError)) /\
  exists e,
    fst (query_engine_build world_empty_file "gs://corpus" "eng-docs" "user-1" true
           state_with_engine) = Raise e /\
    same_store state_with_engine
      (snd (query_engine_build world_empty_file "gs://corpus" "eng-docs" "user-1" true
              state_with_engine)).
Proof.
  split; [vm_compute; reflexivity |].
  apply (document_without_chunks_fails_build world_empty_file "gs://corpus" "eng-docs"
           "user-1" true state_with_engine
           [ {| blob_name := "notes.txt"; blob_path := "/b/corpus/o/notes.txt" |} ]
           ("notes.txt", "/b/corpus/o/notes.txt", "/tmp/docs/notes.txt") eq_refl).
  - repeat constructor. cbn. intuition.
  - left. reflexivity.
  - reflexivity.
  - reflexivity.
Defined.

(* ================================================================== *)
(** ** Querying an engine *)

Lemma find_In A (f : A -> bool) l x : find f l = Some x -> In x l /\ f x = true.
Proof. apply find_some. Qed.

Lemma match_loop_Ok q :
  forall match_indexes acc s refs s',
    match_loop q match_indexes acc s = (Ok refs, s') ->
    s' = s /\
    exists new, refs = acc ++ new /\ Forall2 (resolves_to (qe_id q) s) match_indexes new.
Proof.
  induction match_indexes as [| m rest IH]; intros acc s refs s' Hrun.
  - inversion Hrun. subst. split; [reflexivity |]. exists []. rewrite app_nil_r.
    split; [reflexivity | constructor].
  - cbn [match_loop] in Hrun.
    destruct m as [index |]; [| discriminate].
    erewrite bind_Ok_run in Hrun by reflexivity.
    erewrite bind_Ok_run in Hrun by reflexivity.
    destruct (find_by_index_int (qe_id q) index s) as [c |] eqn:Hc; [| discriminate].
    erewrite bind_Ok_run in Hrun by reflexivity.
    destruct (find_by_id (qc_query_document_id c) s) as [d |] eqn:Hd; [| discriminate].
    apply IH in Hrun as (-> & new & -> & Hnew).
    split; [reflexivity |].
    exists (make_query_ref d c :: new). rewrite <- app_assoc.
    split; [reflexivity |]. constructor; [| exact Hnew].
    unfold find_by_index_int in Hc.
    destruct (index <? 0)%Z eqn:Hneg; [discriminate |].
    apply Z.ltb_ge in Hneg.
    exists (Z.to_nat index), c, d.
    replace (Z.of_nat (Z.to_nat index)) with index by lia. auto.
Qed.

Lemma match_loop_run q s :
  forall ks acc,
    Forall (fun k => exists c d,
              find_by_index (qe_id q) k s = Some c /\
              find_by_id (qc_query_document_id c) s = Some d) ks ->
    exists new,
      match_loop q (map (fun k => Some (Z.of_nat k)) ks) acc s = (Ok (acc ++ new), s) /\
      Forall2 (fun k ref => resolves_to (qe_id q) s (Some (Z.of_nat k)) ref) ks new.
Proof.
  induction ks as [| k ks IH]; intros acc Hks.
  - exists []. rewrite app_nil_r. split; [reflexivity | constructor].
  - apply Forall_cons_iff in Hks as [(c & d & Hc & Hd) Hks].
    destruct (IH (acc ++ [make_query_ref d c]) Hks) as (new & Hrun & Hnew).
    exists (make_query_ref d c :: new).
    split.
    + cbn [map match_loop].
      erewrite bind_Ok_run by reflexivity.
      erewrite bind_Ok_run by reflexivity.
      unfold find_by_index_int.
      assert (Hneg : (Z.of_nat k <? 0)%Z = false) by (apply Z.ltb_ge; lia).
      replace (Z.to_nat (Z.of_nat k)) with k by lia.
      rewrite Hneg, Hc.
      erewrite bind_Ok_run by reflexivity.
      rewrite Hd, Hrun, <- app_assoc. reflexivity.
    + constructor; [| exact Hnew]. exists k, c, d. auto.
Qed.

Lemma match_loop_raises q match_indexes acc :
  raises_only (fun e => is_query_error e = true) (match_loop q match_indexes acc).
Proof.
  revert acc. induction match_indexes as [| m rest IH]; intro acc; cbn [match_loop].
  - apply raises_ret.
  - apply raises_bind.
    + apply raises_lift. destruct m; intros e He; inversion He. reflexivity.
    + intro index. apply raises_bind; [apply raises_gets |].
      intros [c |]; [| apply raises_raise; reflexivity].
      apply raises_bind; [apply raises_gets |].
      intros [d |]; [apply IH | apply raises_raise; reflexivity].
Qed.

Lemma unchanged_refl s : unchanged s s.
Proof. reflexivity. Qed.

Lemma unchanged_trans s1 s2 s3 : unchanged s1 s2 -> unchanged s2 s3 -> unchanged s1 s3.
Proof. unfold unchanged. congruence. Qed.

Lemma match_loop_reads q match_indexes acc :
  preserves unchanged (match_loop q match_indexes acc).
Proof.
  revert acc. induction match_indexes as [| m rest IH]; intro acc; cbn [match_loop];
    pres_auto unchanged_refl unchanged_trans.
  apply IH.
Qed.

(** X10. [_query_doc_matches] only reads the store.  When it returns, the
    references are one per neighbor of the first query, in the order of the
    neighbors: each neighbor id is the index of a stored chunk of the engine
    whose document is in store, and the reference holds the id and url of
    that document and the id and text of that chunk.  A neighbor that cannot
    be resolved is not dropped: the call raises, and what it raises is
    ResourceNotFoundException, ValueError, IndexError or the error of a
    service. *)
Theorem _query_doc_matches_references w qw q_engine query_prompt s r s' :
  _query_doc_matches w qw q_engine query_prompt s = (r, s') ->
  s' = s /\
  match r with
  | Ok query_references =>
      exists query_embeddings match_indexes others,
        _encode_texts_to_embeddings w [query_prompt] = Ok query_embeddings /\
        find_neighbors qw q_engine query_embeddings NUM_MATCH_RESULTS
        = Some (match_indexes :: others) /\
        List.length query_references = List.length match_indexes /\
        Forall2 (resolves_to (qe_id q_engine) s) match_indexes query_references /\
        Forall (fun ref =>
                  exists c d,
                    In c (doc_chunks s) /\ In d (documents s) /\
                    qc_query_engine_id c = qe_id q_engine /\
                    qc_query_document_id c = qd_id d /\
                    ref = make_query_ref d c) query_references
  | Raise e => is_query_error e = true
  end.
Proof.
  intro Hrun. split.
  - revert Hrun. unfold _query_doc_matches.
    match goal with
    | |- ?m s = _ -> _ =>
        assert (Hp : preserves unchanged m); [| intro H; exact (Hp _ _ _ H)]
    end.
    pres_auto unchanged_refl unchanged_trans. apply match_loop_reads.
  - destruct r as [query_references | e].
    + unfold _query_doc_matches in Hrun.
      apply bind_Ok_inv in Hrun as (query_embeddings & s1 & Hemb & Hrun).
      inversion Hemb as [[Henc Hs1]]. subst s1. clear Hemb.
      apply bind_Ok_inv in Hrun as ([] & s1 & Hep & Hrun).
      assert (s1 = s) by (unfold external_ok in Hep;
                          destruct (index_endpoint_ok qw _); inversion Hep; reflexivity).
      subst s1. clear Hep.
      apply bind_Ok_inv in Hrun as (match_indexes_list & s1 & Hnb & Hrun).
      destruct (find_neighbors qw q_engine query_embeddings NUM_MATCH_RESULTS)
        as [l |] eqn:Hfn; [| discriminate].
      inversion Hnb. subst l s1. clear Hnb.
      destruct match_indexes_list as [| match_indexes others]; [discriminate |].
      apply match_loop_Ok in Hrun as (_ & new & -> & Hnew). cbn [app].
      exists query_embeddings, match_indexes, others.
      split; [exact Henc | split; [exact Hfn |]].
      split; [symmetry; exact (Forall2_length Hnew) | split; [exact Hnew |]].
      clear Hfn. induction Hnew as [| m ref ms refs Href _ IH]; constructor; [| exact IH].
      destruct Href as (k & c & d & _ & Hc & Hd & ->).
      apply find_In in Hc as (Hc & Hkey). apply find_In in Hd as (Hd & Hid).
      apply andb_prop in Hkey as (Hown & _).
      apply Nat.eqb_eq in Hown. apply Nat.eqb_eq in Hid.
      exists c, d. auto.
    + revert Hrun. unfold _query_doc_matches.
      match goal with
      | |- ?m s = _ -> _ =>
          assert (Hp : raises_only (fun e => is_query_error e = true) m);
            [| intro H; exact (Hp _ _ _ H)]
      end.
      apply raises_bind.
      * apply raises_lift. unfold _encode_texts_to_embeddings.
        destruct (from_pretrained_ok w); [destruct (get_embeddings w _) |];
          intros e0 He0; inversion He0. reflexivity.
      * intro query_embeddings.
        apply raises_bind; [apply raises_external_ok; reflexivity |].
        intros _. apply raises_bind; [apply raises_external; reflexivity |].
        intros [| match_indexes others];
          [apply raises_raise; reflexivity | apply match_loop_raises].
Qed.

(* ================================================================== *)
(** ** A query after a build *)

Lemma map_Some_nth A B (f : A -> option B) (l : list A) (l' : list B) k x d :
  map f l = map Some l' -> nth_error l k = Some x -> f x = Some (nth k l' d).
Proof.
  intros Hmap Hx.
  apply (map_nth_error f) in Hx. rewrite Hmap in Hx.
  assert (Hk : k < List.length l').
  { rewrite <- (length_map Some). apply nth_error_Some. congruence. }
  rewrite (nth_error_nth' _ (Some d)) in Hx by now rewrite length_map.
  rewrite (map_nth Some) in Hx. congruence.
Qed.

(** The ids in the data files of the bucket after a successful build are
    index ids of stored chunks. *)
Lemma bucket_ids_below w doc_url name user pub s q P N s' cs :
  query_engine_build w doc_url name user pub s = (Ok (q, P, N), s') ->
  doc_chunks s' = doc_chunks s ++ cs ->
  map qc_index cs = seq 0 (List.length cs) ->
  Forall (fun k => k < List.length cs) (file_ids (bucket s')).
Proof.
  intros Hrun Hcs Hidx.
  apply query_engine_build_Ok in Hrun
    as (_ & _ & _ & hi & [_ _ Hcontig (cs0 & Hcs0 & _ & _ & Hcov)
                            (files & _ & Hasc & _ & Hincl)]).
  cbn [doc_chunks bucket set_bucket engine_saved set_engines app] in Hcs0, Hincl.
  rewrite Hcs in Hcs0. apply app_inv_head in Hcs0. subst cs0.
  apply Forall_forall. intros k Hk.
  assert (Hin : In k (file_ids files)).
  { unfold file_ids in *. apply in_map_iff in Hk as (r & <- & Hr).
    apply in_flat_map in Hr as (f & Hf & Hr).
    apply in_map, in_flat_map. exists f. split; [now apply Hincl | exact Hr]. }
  pose proof (ascending_bounds _ _ _ Hasc) as Hb.
  rewrite Forall_forall in Hb. specialize (Hb k Hin).
  destruct (proj1 (contiguous_union _ _ _ Hcontig k) Hb) as (d & Hd & Hrange).
  destruct (Hcov d k Hd Hrange) as (c & Hc & Hck & _).
  assert (Hseq : In k (map qc_index cs)) by (rewrite <- Hck; now apply in_map).
  rewrite Hidx in Hseq. apply in_seq in Hseq. lia.
Qed.

(** X11. After a successful build over blobs of distinct base names, every
    id in the data files of the bucket is the position of a chunk of the
    corpus.  And when the neighbors the Matching Engine returns for a prompt
    are such positions, [_query_doc_matches], on any record of the engine,
    returns one reference per neighbor, in order: the text of the reference
    is the chunk of the corpus at that position, its url the url of the
    document the chunk came from. *)
Theorem query_resolves_after_build w doc_url query_engine user_id is_public s blobs
    q_engine docs_processed docs_not_processed s' :
  list_blobs w doc_url = Some blobs ->
  NoDup (map snd (downloaded w blobs)) ->
  query_engine_build w doc_url query_engine user_id is_public s
  = (Ok (q_engine, docs_processed, docs_not_processed), s') ->
  let refs := corpus_refs w (downloaded w blobs) in
  Forall (fun k => k < List.length refs) (file_ids (bucket s')) /\
  forall qw q query_prompt query_embeddings ks others,
    qe_id q = qe_id q_engine ->
    _encode_texts_to_embeddings w [query_prompt] = Ok query_embeddings ->
    index_endpoint_ok qw (qe_endpoint q) = true ->
    find_neighbors qw q query_embeddings NUM_MATCH_RESULTS
    = Some (map (fun k => Some (Z.of_nat k)) ks :: others) ->
    Forall (fun k => k < List.length refs) ks ->
    exists query_references,
      _query_doc_matches w qw q query_prompt s' = (Ok query_references, s') /\
      map (fun ref => (document_url ref, document_text ref)) query_references
      = map (fun k => nth k refs ("", "")) ks.
Proof.
  intros Hblobs _ Hrun refs. subst refs.
  destruct (query_engine_build_index _ _ _ _ _ _ _ _ _ _ _ Hblobs Hrun)
    as (cs & Hcs & Hidx & Hown & Hres & Hdoc & _ & Hfind).
  assert (Hlen : List.length cs = List.length (corpus_refs w (downloaded w blobs)))
    by (rewrite <- (length_map (resolve s')), Hres; apply length_map).
  rewrite <- Hlen. split; [exact (bucket_ids_below _ _ _ _ _ _ _ _ _ _ _ Hrun Hcs Hidx) |].
  intros qw q query_prompt query_embeddings ks others Hq Henc Hep Hfn Hks.
  assert (Hall : Forall (fun k => exists c d,
                           find_by_index (qe_id q) k s' = Some c /\
                           find_by_id (qc_query_document_id c) s' = Some d) ks).
  { eapply Forall_impl; [| exact Hks]. intros k Hk. cbv beta in Hk.
    destruct (nth_error cs k) as [c |] eqn:Hc;
      [| apply nth_error_None in Hc; lia].
    rewrite Forall_forall in Hdoc.
    destruct (Hdoc c (nth_error_In _ _ Hc)) as (d & Hd & _).
    exists c, d. rewrite Hq, (Hfind k Hk). auto. }
  destruct (match_loop_run q s' ks [] Hall) as (new & Hloop & Hnew).
  exists new. split.
  - unfold _query_doc_matches. rewrite Henc.
    erewrite bind_Ok_run by reflexivity.
    rewrite Hep. erewrite bind_Ok_run by reflexivity.
    rewrite Hfn. erewrite bind_Ok_run by reflexivity.
    exact Hloop.
  - clear Hloop Hall Hfn.
    induction Hnew as [| k ref ks refs Href _ IH]; [reflexivity |].
    apply Forall_cons_iff in Hks as [Hk Hks].
    cbn [map]. rewrite (IH Hks). f_equal.
    destruct Href as (k0 & c & d & Hk0 & Hc & Hd & ->).
    assert (k0 = k) by (injection Hk0; lia). subst k0.
    rewrite Hq, (Hfind k Hk) in Hc.
    pose proof (map_Some_nth _ _ _ _ _ _ _ ("", "") Hres Hc) as Hr.
    unfold resolve in Hr. rewrite Hd in Hr. now injection Hr.
Qed.

Lemma mixed_query_Ok :
  _query_doc_matches world_mixed (sample_query_world [Some 5%Z; Some 0%Z])
    (fst (fst mixed_outcome)) "which page?" (snd mixed_run)
  = (Ok mixed_query_refs, snd mixed_run).
Proof. vm_compute. reflexivity. Qed.

Lemma _query_doc_matches_references_witness :
  List.length mixed_query_refs = 2 /\
  map document_text mixed_query_refs = ["p5"; "alpha"].
Proof.
  split; [| reflexivity].
  destruct (_query_doc_matches_references world_mixed
              (sample_query_world [Some 5%Z; Some 0%Z]) (fst (fst mixed_outcome))
              "which page?" (snd mixed_run) (Ok mixed_query_refs) (snd mixed_run)
              mixed_query_Ok)
    as (_ & query_embeddings & match_indexes & others & _ & Hfn & Hlen & _).
  injection Hfn as <- _. exact Hlen.
Defined.

Lemma query_resolves_after_build_witness :
  exists query_references,
    _query_doc_matches world_mixed (sample_query_world [Some 5%Z; Some 0%Z])
      (fst (fst mixed_outcome)) "which page?" (snd mixed_run)
    = (Ok query_references, snd mixed_run) /\
    map (fun ref => (document_url ref, document_text ref)) query_references
    = [("/b/corpus/o/guide.pdf", "p5"); ("/b/corpus/o/notes.txt", "alpha")].
Proof.
  destruct (query_resolves_after_build world_mixed "gs://corpus" "eng-docs" "user-1" true
              state_with_engine
              [ {| blob_name := "notes.txt"; blob_path := "/b/corpus/o/notes.txt" |};
                {| blob_name := "slides.pptx"; blob_path := "/b/corpus/o/slides.pptx" |};
                {| blob_name := "guide.pdf"; blob_path := "/b/corpus/o/guide.pdf" |} ]
              (fst (fst mixed_outcome)) (snd (fst mixed_outcome))
              (snd mixed_outcome) (snd mixed_run) eq_refl)
    as (_ & Hquery).
  - repeat constructor; cbn; intuition discriminate.
  - exact mixed_run_Ok.
  - destruct (Hquery (sample_query_world [Some 5%Z; Some 0%Z]) (fst (fst mixed_outcome))
                "which page?" [Some sample_vector] [5; 0] [])
      as (query_references & Hrun & Hrefs).
    + reflexivity.
    + vm_compute. reflexivity.
    + reflexivity.
    + reflexivity.
    + apply Forall_forall. intros k Hk.
      assert (Hlen : List.length
                       (corpus_refs world_mixed
                          (downloaded world_mixed
                             [ {| blob_name := "notes.txt";
                                  blob_path := "/b/corpus/o/notes.txt" |};
                               {| blob_name := "slides.pptx";
                                  blob_path := "/b/corpus/o/slides.pptx" |};
                               {| blob_name := "guide.pdf";
                                  blob_path := "/b/corpus/o/guide.pdf" |} ])) = 7)
        by (vm_compute; reflexivity).
      rewrite Hlen. destruct Hk as [<- | [<- | []]]; lia.
    + exists query_references. split; [exact Hrun |].
      rewrite Hrefs. vm_compute. reflexivity.
Defined.

(* ================================================================== *)
(** ** The data files of a build *)

Lemma fresh_not_in used : ~ In (fresh used) used.
Proof. intro H. apply fresh_gt in H. lia. Qed.

Lemma update_dir_foreign d f l :
  Forall (fun e : nat * list EmbFile => fst e <> d) l -> map (update_dir d f) l = l.
Proof.
  induction 1 as [| e l He _ IH]; [reflexivity |].
  cbn [map]. rewrite IH. unfold update_dir. apply Nat.eqb_neq in He. now rewrite He.
Qed.

Lemma not_in_foreign (d : nat) (l : list (nat * list EmbFile)) :
  ~ In d (map fst l) -> Forall (fun e => fst e <> d) l.
Proof.
  intro H. apply Forall_forall. intros e He Heq. apply H.
  rewrite <- Heq. now apply in_map.
Qed.

Lemma last_nonempty A (x : A) l d d' : last (x :: l) d = last (x :: l) d'.
Proof.
  revert x. induction l as [| y l IH]; intro x; [reflexivity |].
  change (last (y :: l) d = last (y :: l) d'). apply IH.
Qed.

(** A file written to a directory just made. *)
Lemma mkdtemp_write s d sa f sd :
  mkdtemp s = (Ok d, sa) ->
  write_file d f sa = (Ok tt, sd) ->
  tmp_dirs sd = tmp_dirs s ++ [(d, [f])] /\
  ~ In d (map fst (tmp_dirs s)) /\
  written sd = written s ++ [f] /\
  bucket sd = bucket s.
Proof.
  intros Hmk Hwr. inversion Hmk. subst. inversion Hwr. subst. clear Hmk Hwr.
  pose proof (fresh_not_in (map fst (tmp_dirs s))) as Hfresh.
  repeat split; [| exact Hfresh].
  cbn [tmp_dirs set_written set_tmp_dirs].
  rewrite map_app, (update_dir_foreign _ _ _ (not_in_foreign _ _ Hfresh)).
  cbn [map]. unfold update_dir. cbn [fst snd filter app]. now rewrite Nat.eqb_refl.
Qed.

(** The directories and files of a successful run of the loop of
    [_generate_index_data]: one new directory per pass, holding the one file
    of that pass; the files start at every MAX_NUM_TEXT_CHUNK_PROCESS-th
    index id; the directory returned is the last one made. *)
Lemma index_data_loop_dirs w doc_name text_chunks B :
  forall fuel chunk_index dir s nb d s',
    chunk_index <= List.length text_chunks ->
    index_data_loop w fuel doc_name text_chunks (List.length text_chunks) chunk_index
      (B + chunk_index) dir s = (Ok (nb, d), s') ->
    exists entries : list (nat * EmbFile),
      tmp_dirs s' = tmp_dirs s ++ map (fun e => (fst e, [snd e])) entries /\
      written s' = written s ++ map snd entries /\
      bucket s' = bucket s /\
      NoDup (map fst entries) /\
      Forall (fun e => ~ In (fst e) (map fst (tmp_dirs s))) entries /\
      d = last (map (fun e => Some (fst e)) entries) dir /\
      map (fun e => ef_index_base (snd e)) entries
      = map (fun j => B + chunk_index + j * MAX_NUM_TEXT_CHUNK_PROCESS)
            (seq 0 (List.length entries)) /\
      (List.length text_chunks <= chunk_index -> entries = []) /\
      (chunk_index < List.length text_chunks ->
       List.length text_chunks - chunk_index
       <= List.length entries * MAX_NUM_TEXT_CHUNK_PROCESS
       < List.length text_chunks - chunk_index + MAX_NUM_TEXT_CHUNK_PROCESS).
Proof.
  set (n := List.length text_chunks).
  assert (Hstop : forall ci dir s nb d s',
            n <= ci ->
            @ret (nat * option nat) (B + ci, dir) s = (Ok (nb, d), s') ->
            exists entries : list (nat * EmbFile),
              tmp_dirs s' = tmp_dirs s ++ map (fun e => (fst e, [snd e])) entries /\
              written s' = written s ++ map snd entries /\
              bucket s' = bucket s /\
              NoDup (map fst entries) /\
              Forall (fun e => ~ In (fst e) (map fst (tmp_dirs s))) entries /\
              d = last (map (fun e => Some (fst e)) entries) dir /\
              map (fun e => ef_index_base (snd e)) entries
              = map (fun j => B + ci + j * MAX_NUM_TEXT_CHUNK_PROCESS)
                    (seq 0 (List.length entries)) /\
              (n <= ci -> entries = []) /\
              (ci < n ->
               n - ci <= List.length entries * MAX_NUM_TEXT_CHUNK_PROCESS
               < n - ci + MAX_NUM_TEXT_CHUNK_PROCESS)).
  { intros ci dir s nb d s' Hge Hrun. inversion Hrun. subst.
    exists []. cbn [map]. rewrite !app_nil_r.
    repeat split; try constructor; try lia. }
  induction fuel as [| fuel IH]; intros ci dir s nb d s' Hle Hrun.
  - cbn [index_data_loop] in Hrun. destruct (ci <? n) eqn:E; [discriminate |].
    apply Nat.ltb_ge in E. now apply (Hstop ci dir s nb).
  - cbn [index_data_loop] in Hrun. destruct (ci <? n) eqn:E;
      [| apply Nat.ltb_ge in E; now apply (Hstop ci dir s nb)].
    apply Nat.ltb_lt in E.
    pose proof MAX_NUM_TEXT_CHUNK_PROCESS_pos as Hpos.
    remember (Nat.min MAX_NUM_TEXT_CHUNK_PROCESS (n - ci)) as len eqn:Hlen.
    remember (slice text_chunks ci (ci + len)) as pc eqn:Hpc.
    assert (Hpclen : List.length pc = len).
    { subst pc. rewrite slice_length; fold n; lia. }
    rewrite Hpclen in Hrun.
    apply bind_Ok_inv in Hrun as (dnew & sa & Hmk & Hrun).
    apply bind_Ok_inv in Hrun as ([mask embs] & sb & Hemb & Hrun).
    inversion Hemb as [[Hbatched Hsb]]. subst sb. clear Hemb Hbatched.
    apply bind_Ok_inv in Hrun as (selected & sc & Hsel & Hrun).
    inversion Hsel as [[Hmask Hsc]]. subst sc. clear Hsel Hmask.
    apply bind_Ok_inv in Hrun as ([] & sd & Hwr & Hrun).
    replace (B + ci + len) with (B + (ci + len)) in Hrun by lia.
    apply IH in Hrun; [| lia].
    destruct Hrun as (entries & Hdirs & Hwritten & Hbucket & Hnodup & Hfresh & Hd
                      & Hbases & Hnone & Hcount).
    destruct (mkdtemp_write _ _ _ _ _ Hmk Hwr) as (Hdir1 & Hnew & Hw1 & Hb1).
    match type of Hwr with
    | write_file _ ?f _ = _ => exists ((dnew, f) :: entries)
    end.
    rewrite Hdir1 in Hdirs, Hfresh. rewrite Hw1 in Hwritten. rewrite Hb1 in Hbucket.
    cbn [map fst snd List.length].
    split; [now rewrite Hdirs, <- app_assoc |].
    split; [now rewrite Hwritten, <- app_assoc |].
    split; [exact Hbucket |].
    assert (Hfresh' : Forall (fun e : nat * EmbFile =>
                                ~ In (fst e) (map fst (tmp_dirs s)) /\ fst e <> dnew)
                             entries).
    { eapply Forall_impl; [| exact Hfresh]. intros e He.
      rewrite map_app, in_app_iff in He. cbn [map fst In] in He. split.
      - intro Hin. apply He. now left.
      - intro Heq. apply He. right. left. now symmetry. }
    split.
    { constructor; [| exact Hnodup].
      intro Hin. apply in_map_iff in Hin as (e & He & Hin).
      rewrite Forall_forall in Hfresh'. destruct (Hfresh' e Hin) as (_ & Hne).
      now apply Hne. }
    split.
    { constructor; [exact Hnew |].
      eapply Forall_impl; [| exact Hfresh']. intros e He. apply He. }
    split.
    { rewrite Hd. destruct entries as [| e entries']; [reflexivity |].
      cbn [map].
      change (last (Some (fst e) :: map (fun e0 : nat * EmbFile => Some (fst e0)) entries')
                   (Some dnew)
              = last (Some (fst e) :: map (fun e0 : nat * EmbFile => Some (fst e0)) entries')
                     dir).
      apply last_nonempty. }
    split.
    { cbn [ef_index_base seq map]. f_equal; [lia |].
      rewrite Hbases, <- seq_shift, map_map.
      apply map_ext_in. intros j Hj. apply in_seq in Hj.
      destruct (Nat.lt_ge_cases (ci + len) n) as [Hmore | Hlast].
      - assert (len = MAX_NUM_TEXT_CHUNK_PROCESS) by lia. lia.
      - rewrite (Hnone Hlast) in Hj. cbn [List.length] in Hj. lia. }
    split; [intro; lia |].
    intros _. destruct (Nat.lt_ge_cases (ci + len) n) as [Hmore | Hlast].
    + assert (len = MAX_NUM_TEXT_CHUNK_PROCESS) by lia.
      specialize (Hcount Hmore). lia.
    + rewrite (Hnone Hlast). cbn [List.length]. lia.
Qed.

(** A successful [_generate_index_data]: the directory it returns holds the
    last file written; the directories of the files before it stay. *)
Lemma _generate_index_data_files w doc_name text_chunks lo s nb d s' :
  _generate_index_data w doc_name text_chunks lo s = (Ok (nb, d), s') ->
  exists init fl leaked,
    tmp_dirs s' = (tmp_dirs s ++ leaked) ++ [(d, [fl])] /\
    map snd leaked = map (fun f => [f]) init /\
    Forall (fun e => fst e <> d) (tmp_dirs s ++ leaked) /\
    written s' = written s ++ init ++ [fl] /\
    bucket s' = bucket s /\
    map ef_index_base (init ++ [fl])
    = map (fun j => lo + j * MAX_NUM_TEXT_CHUNK_PROCESS) (seq 0 (S (List.length init))) /\
    List.length text_chunks <= S (List.length init) * MAX_NUM_TEXT_CHUNK_PROCESS
    < List.length text_chunks + MAX_NUM_TEXT_CHUNK_PROCESS.
Proof.
  unfold _generate_index_data. intro Hrun.
  apply bind_Ok_inv in Hrun as ([nb0 dir] & s1 & Hloop & Hret).
  destruct dir as [d0 |]; [| discriminate].
  inversion Hret. subst nb0 d0 s1. clear Hret.
  rewrite <- (Nat.add_0_r lo) in Hloop at 1.
  apply index_data_loop_dirs in Hloop; [| lia].
  destruct Hloop as (entries & Hdirs & Hwritten & Hbucket & Hnodup & Hfresh & Hd
                     & Hbases & Hnone & Hcount).
  destruct (exists_last (l := entries)) as (init_e & [dl fl] & ->).
  { intros ->. discriminate. }
  rewrite map_app in Hd. cbn [map fst] in Hd. rewrite last_last in Hd.
  injection Hd as <-.
  exists (map snd init_e), fl, (map (fun e => (fst e, [snd e])) init_e).
  rewrite map_app in Hdirs, Hwritten, Hbases, Hnodup. cbn [map fst snd] in *.
  rewrite length_app, length_map in *. cbn [List.length] in *.
  rewrite Nat.add_1_r in *.
  split; [now rewrite Hdirs, app_assoc |].
  split; [now rewrite !map_map |].
  split.
  { apply Forall_app. split.
    - apply Forall_app in Hfresh as (_ & Hlast).
      apply Forall_cons_iff in Hlast as (Hlast & _). cbn [fst] in Hlast.
      now apply not_in_foreign.
    - apply NoDup_remove_2 in Hnodup. rewrite app_nil_r in Hnodup.
      apply Forall_forall. intros e He Heq. apply Hnodup.
      apply in_map_iff in He as (e0 & <- & He0). cbn [fst] in Heq.
      rewrite <- Heq. now apply in_map. }
  split; [exact Hwritten |].
  split; [exact Hbucket |].
  split.
  { rewrite map_app, map_map. cbn [map]. rewrite Hbases.
    apply map_ext. intro j. lia. }
  assert (Hpos : 0 < List.length text_chunks).
  { destruct (Nat.eq_0_gt_0_cases (List.length text_chunks)) as [Hz | Hp]; [| exact Hp].
    assert (H : init_e ++ [(d, fl)] = []) by (apply Hnone; lia).
    now apply app_eq_nil in H as (_ & H). }
  specialize (Hcount Hpos). lia.
Qed.

Lemma upload_and_store_files w q doc_url text_chunks lo nb dir s d s' T fl :
  tmp_dirs s = T ++ [(dir, [fl])] ->
  Forall (fun e => fst e <> dir) T ->
  Forall (fun g => ef_index_base g <> ef_index_base fl) (bucket s) ->
  upload_and_store w q doc_url text_chunks lo nb dir s = (Ok d, s') ->
  tmp_dirs s' = T /\ bucket s' = bucket s ++ [fl] /\ written s' = written s.
Proof.
  intros Hdirs Hforeign Hnames. unfold upload_and_store. intro Hrun.
  apply bind_Ok_inv in Hrun as ([] & s0 & Hok & Hrun).
  assert (s0 = s) by (unfold external_ok in Hok; destruct (get_bucket_ok w);
                      inversion Hok; reflexivity).
  subst s0. clear Hok.
  apply bind_Ok_inv in Hrun as (files & s0 & Hwalk & Hrun).
  inversion Hwalk. subst files s0. clear Hwalk.
  assert (Hfiles : dir_files dir s = [fl]).
  { unfold dir_files. rewrite Hdirs, find_app, find_none.
    - cbn [find fst]. now rewrite Nat.eqb_refl.
    - eapply Forall_impl; [| exact Hforeign]. intros e He. now apply Nat.eqb_neq. }
  rewrite Hfiles in Hrun. cbn [for_each] in Hrun.
  apply bind_Ok_inv in Hrun as ([] & s1 & Hup & Hrun).
  apply bind_Ok_inv in Hup as ([] & s0 & Hup & Hret).
  inversion Hret. subst s0. clear Hret.
  unfold upload in Hup.
  apply bind_Ok_inv in Hup as ([] & s0 & Hok & Hup).
  assert (s0 = s) by (unfold external_ok in Hok; destruct (upload_ok w fl);
                      inversion Hok; reflexivity).
  subst s0. clear Hok. inversion Hup. subst s1. clear Hup.
  apply bind_Ok_inv in Hrun as ([] & s2 & Hrm & Hrun).
  inversion Hrm. subst s2. clear Hrm.
  apply bind_Ok_inv in Hrun as (query_doc & s3 & Hsave & Hrun).
  inversion Hsave. subst query_doc s3. clear Hsave.
  apply bind_Ok_inv in Hrun as ([] & s4 & Hchunks & Hrun).
  inversion Hrun. subst d s'. clear Hrun.
  match type of Hchunks with
  | for_each ?l (fun i => QueryDocumentChunk_save ?e ?di _ _) ?s0 = _ =>
      destruct (save_chunks_run e di lo text_chunks l s0) as (cs & Hsaved & _)
  end.
  rewrite Hsaved in Hchunks. inversion Hchunks. subst s4. clear Hchunks Hsaved.
  cbn [tmp_dirs bucket written set_doc_chunks set_documents set_tmp_dirs set_bucket].
  split; [| split; [| reflexivity]].
  - rewrite Hdirs, filter_app. cbn [filter fst]. rewrite Nat.eqb_refl. cbn [negb].
    rewrite app_nil_r. clear Hdirs.
    induction Hforeign as [| e T He _ IH]; [reflexivity |].
    cbn [filter]. apply Nat.eqb_neq in He. rewrite He. cbn [negb]. now rewrite IH.
  - f_equal. clear Hfiles.
    induction Hnames as [| g l Hg _ IH]; [reflexivity |].
    cbn [filter]. unfold same_file_name at 1.
    assert (Hne : (ef_index_base fl =? ef_index_base g) = false)
      by (apply Nat.eqb_neq; congruence).
    rewrite Hne, andb_false_r. cbn [negb]. now rewrite IH.
Qed.

Lemma read_step_keeps_tmp_dirs w doc_name doc_filepath :
  preserves (keeps tmp_dirs)
    (try_except
       (doc_text_list <- _read_doc w doc_name doc_filepath ;;
        match doc_text_list with
        | None => Logger_error (LogNoContent doc_name) ;; ret None
        | Some l => ret (Some l)
        end)
       (fun e => Logger_error (LogReadError doc_name e) ;; ret None)).
Proof.
  unfold _read_doc.
  repeat match goal with |- context [if ?b then _ else _] => destruct b end;
    keeps_tac tmp_dirs.
Qed.

(** The files of a successful [process_loop], by processed document. *)
Lemma process_loop_files w q :
  forall docs lo processed not_processed s P N s',
    Forall (fun g => ef_index_base g < lo) (bucket s) ->
    process_loop w q docs lo processed not_processed s = (Ok (P, N), s') ->
    exists new groups leaked,
      P = processed ++ new /\
      written s' = written s ++ flat_map (fun g => fst g ++ [snd g]) groups /\
      bucket s' = bucket s ++ map snd groups /\
      tmp_dirs s' = tmp_dirs s ++ leaked /\
      map snd leaked = map (fun f => [f]) (flat_map fst groups) /\
      Forall2 file_group new groups.
Proof.
  induction docs as [| [[doc_name doc_url] doc_filepath] rest IH];
    intros lo processed not_processed s P N s' Hinv Hrun.
  - inversion Hrun. subst. exists [], [], []. cbn [flat_map map]. rewrite !app_nil_r.
    repeat split. constructor.
  - cbn [process_loop] in Hrun.
    apply bind_Ok_inv in Hrun as (read & s1 & Hread & Hrun).
    pose proof (read_step_same_files _ _ _ _ _ _ Hread) as (Hw1 & Hb1).
    pose proof (read_step_keeps_tmp_dirs _ _ _ _ _ _ Hread) as Ht1. unfold keeps in Ht1.
    destruct read as [doc_text_list |].
    + apply bind_Ok_inv in Hrun as ([nb dir] & s2 & Hgen & Hrun).
      apply bind_Ok_inv in Hrun as (d & s3 & Hup & Hrun).
      pose proof (_generate_index_data_Ok _ _ _ _ _ _ _ _ Hgen) as (Hnb & _ & _).
      apply _generate_index_data_files in Hgen
        as (init & fl & leaked1 & Hdirs2 & Hleaked1 & Hforeign & Hw2 & Hb2 & Hbases & Hcount).
      pose proof (upload_and_store_Ok _ _ _ _ _ _ _ _ _ _ Hup)
        as ((_ & _ & Hstart & Hend) & _).
      assert (Hbase : ef_index_base fl
                      = lo + List.length init * MAX_NUM_TEXT_CHUNK_PROCESS).
      { rewrite seq_S, !map_app in Hbases. cbn [map] in Hbases.
        apply app_inj_tail in Hbases as (_ & Hlast). exact Hlast. }
      apply (upload_and_store_files _ _ _ _ _ _ _ _ _ _ _ fl Hdirs2 Hforeign) in Hup.
      2: { rewrite Hb2, Hb1. eapply Forall_impl; [| exact Hinv].
           intros g Hg. cbv beta in Hg. lia. }
      destruct Hup as (Ht3 & Hb3 & Hw3).
      apply IH in Hrun.
      2: { rewrite Hb3, Hb2, Hb1. apply Forall_app. split.
           - eapply Forall_impl; [| exact Hinv]. intros g Hg. cbv beta in Hg. lia.
           - constructor; [| constructor]. lia. }
      destruct Hrun as (new' & groups' & leaked' & HP & Hw & Hb & Ht & Hleaked' & Hgroups).
      exists (d :: new'), ((init, fl) :: groups'), (leaked1 ++ leaked').
      cbn [flat_map map fst snd].
      split; [now rewrite HP, <- app_assoc |].
      split; [now rewrite Hw, Hw3, Hw2, Hw1, <- !app_assoc |].
      split; [now rewrite Hb, Hb3, Hb2, Hb1, <- app_assoc |].
      split; [now rewrite Ht, Ht3, Ht1, <- app_assoc |].
      split; [now rewrite !map_app, Hleaked1, Hleaked' |].
      constructor; [| exact Hgroups].
      unfold file_group. cbn [fst snd]. rewrite Hstart, Hend, Hnb.
      split; [exact Hbases |]. lia.
    + apply IH in Hrun; [| now rewrite Hb1].
      destruct Hrun as (new' & groups' & leaked' & HP & Hw & Hb & Ht & Hleaked' & Hgroups).
      exists new', groups', leaked'. rewrite Hw, Hb, Ht, Hw1, Hb1, Ht1.
      repeat split; assumption.
Qed.

Lemma _create_me_index_and_endpoint_keeps_tmp_dirs w index_name q :
  preserves (keeps tmp_dirs) (_create_me_index_and_endpoint w index_name q).
Proof. unfold _create_me_index_and_endpoint. keeps_tac tmp_dirs. Qed.

(** A successful [query_engine_build], down to the loop over the documents,
    with the temporary directories. *)
Lemma query_engine_build_Ok_dirs w doc_url name user pub s q P N s' :
  query_engine_build w doc_url name user pub s = (Ok (q, P, N), s') ->
  exists blobs s2,
    list_blobs w doc_url = Some blobs /\
    process_loop w q
      (downloaded w blobs)
      0 [] [] (set_bucket (engine_saved w name user pub s) []) = (Ok (P, N), s2) /\
    same_files s2 s' /\ tmp_dirs s' = tmp_dirs s2.
Proof.
  intro Hrun.
  destruct (find_engine name s) as [q0 |] eqn:Hfind.
  { rewrite (query_engine_build_name_taken _ _ _ _ _ _ _ Hfind) in Hrun. discriminate. }
  rewrite query_engine_build_unfold in Hrun by exact Hfind.
  destruct (build_doc_index w doc_url name (engine_saved w name user pub s))
    as [[[P0 N0] | e] s1] eqn:Hbuild; [| discriminate].
  inversion Hrun. subst q P0 N0 s1. clear Hrun.
  unfold build_doc_index in Hbuild.
  erewrite bind_Ok_run in Hbuild by reflexivity.
  rewrite (find_engine_saved w name user pub s Hfind) in Hbuild.
  unfold try_except in Hbuild.
  match type of Hbuild with
  | (let (_, _) := ?m ?s0 in _) = _ => destruct (m s0) as [[[P0 N0] | e] s1] eqn:Hbody
  end.
  2: { cbv [bind Logger_error modify raise] in Hbuild. discriminate. }
  inversion Hbuild. subst P0 N0 s1. clear Hbuild.
  apply bind_Ok_inv in Hbody as ([] & s0 & Hclient & Hbody).
  assert (s0 = engine_saved w name user pub s)
    by (unfold external_ok in Hclient; destruct (storage_client_ok w);
        inversion Hclient; reflexivity).
  subst s0. clear Hclient.
  apply bind_Ok_inv in Hbody as ([] & s1 & Hbucket & Hbody).
  apply create_data_bucket_Ok in Hbucket. subst s1.
  apply bind_Ok_inv in Hbody as ([P1 N1] & s2 & Hdocs & Hbody).
  destruct (List.length P1 =? 0) eqn:Hlen; [discriminate |].
  apply bind_Ok_inv in Hbody as ([] & s3 & Hme & Hbody).
  inversion Hbody. subst P1 N1 s3. clear Hbody.
  unfold _process_documents, _download_files_to_local in Hdocs.
  destruct (list_blobs w doc_url) as [blobs |] eqn:Hblobs; [| discriminate].
  erewrite bind_Ok_run in Hdocs by reflexivity.
  destruct (List.length _ =? 0) in Hdocs; [discriminate |].
  exists blobs, s2. split; [reflexivity |]. split; [exact Hdocs |]. split.
  - eapply _create_me_index_and_endpoint_same_files; eassumption.
  - eapply _create_me_index_and_endpoint_keeps_tmp_dirs; eassumption.
Qed.

(** X12. Of the embeddings files a successful build writes for a processed
    document, one per MAX_NUM_TEXT_CHUNK_PROCESS chunks, only the last is
    uploaded: the bucket holds exactly the last file of each processed
    document, in order, and the directory of every earlier file is left
    behind with its file.  So when no processed document has more than
    MAX_NUM_TEXT_CHUNK_PROCESS chunks, the bucket holds every file written
    and no temporary directory remains; when one has more, files are
    missing from the bucket and directories remain. *)
Theorem bucket_holds_last_file_of_each_document w doc_url query_engine user_id is_public
    s q_engine docs_processed docs_not_processed s' :
  query_engine_build w doc_url query_engine user_id is_public s
  = (Ok (q_engine, docs_processed, docs_not_processed), s') ->
  exists groups leaked,
    written s' = written s ++ flat_map (fun g => fst g ++ [snd g]) groups /\
    bucket s' = map snd groups /\
    tmp_dirs s' = tmp_dirs s ++ leaked /\
    map snd leaked = map (fun f => [f]) (flat_map fst groups) /\
    Forall2 file_group docs_processed groups /\
    (Forall (fun d => qd_index_end d - qd_index_start d <= MAX_NUM_TEXT_CHUNK_PROCESS)
            docs_processed ->
     written s' = written s ++ bucket s' /\ tmp_dirs s' = tmp_dirs s) /\
    (Exists (fun d => MAX_NUM_TEXT_CHUNK_PROCESS < qd_index_end d - qd_index_start d)
            docs_processed ->
     List.length (written s) + List.length (bucket s') < List.length (written s') /\
     List.length (tmp_dirs s) < List.length (tmp_dirs s')).
Proof.
  intro Hrun.
  apply query_engine_build_Ok_dirs in Hrun
    as (blobs & s2 & _ & Hloop & (Hw2 & Hb2) & Ht2).
  apply process_loop_files in Hloop; [| constructor].
  destruct Hloop as (new & groups & leaked & HP & Hw & Hb & Ht & Hleaked & Hgroups).
  cbn [app] in HP. subst new.
  cbn [written bucket tmp_dirs set_bucket engine_saved set_engines app] in Hw, Hb, Ht.
  rewrite <- Hw2 in Hw. rewrite <- Hb2 in Hb. rewrite <- Ht2 in Ht.
  exists groups, leaked.
  split; [exact Hw |]. split; [exact Hb |]. split; [exact Ht |].
  split; [exact Hleaked |]. split; [exact Hgroups |].
  pose proof MAX_NUM_TEXT_CHUNK_PROCESS_pos as Hpos.
  assert (Hlen : List.length leaked = List.length (flat_map fst groups))
    by (rewrite <- (length_map snd), Hleaked; apply length_map).
  split.
  - intro Hsmall.
    assert (Hnone : Forall (fun g : list EmbFile * EmbFile => fst g = []) groups).
    { clear Hw Hb Hleaked Hlen.
      induction Hgroups as [| d g ds gs (_ & Hcount) _ IH]; constructor.
      - apply Forall_cons_iff in Hsmall as (Hd & _).
        destruct (fst g) as [| f l]; [reflexivity |]. cbn [List.length] in Hcount. nia.
      - apply IH. now apply Forall_cons_iff in Hsmall as (_ & Hds). }
    assert (Hflat : flat_map fst groups = []
                    /\ flat_map (fun g => fst g ++ [snd g]) groups = map snd groups).
    { clear Hw Hb Hleaked Hlen Hgroups Hsmall.
      induction Hnone as [| g gs Hg _ (IH1 & IH2)]; [split; reflexivity |].
      cbn [flat_map map]. rewrite Hg, IH1, IH2. split; reflexivity. }
    destruct Hflat as (Hf1 & Hf2).
    rewrite Hf1 in Hlen. destruct leaked; [| discriminate].
    rewrite Hw, Hb, Ht, Hf2, app_nil_r. split; reflexivity.
  - intro Hbig.
    assert (Hsome : List.length groups < List.length (flat_map (fun g => fst g ++ [snd g]) groups)
                    /\ 0 < List.length (flat_map fst groups)).
    { clear Hw Hb Hleaked Hlen.
      assert (Hle : forall gs : list (list EmbFile * EmbFile),
                List.length gs <= List.length (flat_map (fun g => fst g ++ [snd g]) gs)).
      { induction gs as [| g gs IHg]; [apply Nat.le_refl |].
        cbn [flat_map List.length]. rewrite !length_app. cbn [List.length]. lia. }
      induction Hgroups as [| d g ds gs (_ & Hcount) _ IH]; [inversion Hbig |].
      cbn [flat_map List.length]. rewrite !length_app. cbn [List.length].
      apply Exists_cons in Hbig as [Hd | Hds].
      - destruct (fst g) as [| f l]; cbn [List.length] in *; [nia |].
        specialize (Hle gs). lia.
      - destruct (IH Hds) as (IH1 & IH2). lia. }
    destruct Hsome as (Hs1 & Hs2).
    rewrite Hw, Hb, Ht, !length_app, length_map, Hlen. lia.
Qed.

Lemma bucket_holds_last_file_of_each_document_witness :
  written (snd mixed_run) = written state_with_engine ++ bucket (snd mixed_run) /\
  tmp_dirs (snd mixed_run) = tmp_dirs state_with_engine.
Proof.
  destruct (bucket_holds_last_file_of_each_document world_mixed "gs://corpus" "eng-docs"
              "user-1" true state_with_engine (fst (fst mixed_outcome))
              (snd (fst mixed_outcome)) (snd mixed_outcome) (snd mixed_run) mixed_run_Ok)
    as (groups & leaked & _ & _ & _ & _ & _ & Hsmall & _).
  apply Hsmall.
  repeat constructor; apply Nat.leb_le; vm_compute; reflexivity.
Defined.

(* ================================================================== *)
(** ** Every document is reported *)

Lemma count_occ_partition (f : string * string * string -> bool) url :
  forall l,
    count_occ string_dec
      (map (fun d => snd (fst d)) (filter f l)
       ++ map (fun d => snd (fst d)) (filter (fun d => negb (f d)) l)) url
    = count_occ string_dec (map (fun d => snd (fst d)) l) url.
Proof.
  induction l as [| d l IH]; [reflexivity |].
  cbn [filter map]. destruct (f d); cbn [negb map app].
  - cbn [count_occ]. rewrite IH. reflexivity.
  - rewrite count_occ_app in *. cbn [count_occ].
    destruct (string_dec (snd (fst d)) url); lia.
Qed.

Lemma filter_partition_length A (f : A -> bool) l :
  List.length (filter f l) + List.length (filter (fun x => negb (f x)) l) = List.length l.
Proof.
  induction l as [| x l IH]; [reflexivity |].
  cbn [filter]. destruct (f x); cbn [negb List.length]; lia.
Qed.

(** X13. A successful build reports every blob it listed exactly once: the
    urls of the processed documents together with the urls not processed
    are the paths of the blobs, each as often as it is listed, and the two
    lists have as many entries as there are blobs. *)
Theorem every_document_is_reported w doc_url query_engine user_id is_public s
    q_engine docs_processed docs_not_processed s' :
  query_engine_build w doc_url query_engine user_id is_public s
  = (Ok (q_engine, docs_processed, docs_not_processed), s') ->
  exists blobs,
    list_blobs w doc_url = Some blobs /\
    List.length docs_processed + List.length docs_not_processed = List.length blobs /\
    forall url,
      count_occ string_dec (map qd_doc_url docs_processed ++ docs_not_processed) url
      = count_occ string_dec (map blob_path blobs) url.
Proof.
  intro Hrun.
  apply query_engine_build_Ok_loop in Hrun as (blobs & s2 & Hblobs & Hloop & _).
  apply process_loop_partition in Hloop as (new & HP & Hurls & HN).
  cbn [app] in HP, HN. subst new.
  exists blobs. split; [exact Hblobs |].
  assert (Hpaths : map (fun d : string * string * string => snd (fst d)) (downloaded w blobs)
                   = map blob_path blobs)
    by (unfold downloaded; rewrite map_map; reflexivity).
  split.
  - rewrite <- (length_map qd_doc_url), Hurls, HN, !length_map, filter_partition_length.
    unfold downloaded. apply length_map.
  - intro url. rewrite Hurls, HN, <- Hpaths. apply count_occ_partition.
Qed.

Lemma every_document_is_reported_witness :
  List.length (snd (fst mixed_outcome)) + List.length (snd mixed_outcome) = 3.
Proof.
  destruct (every_document_is_reported world_mixed "gs://corpus" "eng-docs" "user-1" true
              state_with_engine (fst (fst mixed_outcome)) (snd (fst mixed_outcome))
              (snd mixed_outcome) (snd mixed_run) mixed_run_Ok)
    as (blobs & Hblobs & Hlen & _).
  injection Hblobs as <-. exact Hlen.
Defined.

(* ================================================================== *)
(** ** A build in which no document is encoded *)

(** C3, where the code departs from it.  The corpus holds one text file,
    which is read, but the request for the embedding of its one chunk fails:
    no document of the build is processed.  The build does not fail with
    NoDocumentsIndexedException: [np.stack] raises ValueError on the empty
    list of successful embeddings, before the check on [docs_processed] is
    reached, and that is what the caller gets, wrapped twice.  For a file
    that is read and gives no chunk it is UnboundLocalError.  Only when no
    document can be read is the cause NoDocumentsIndexedException.  In each
    case the name resolves to no engine afterwards and the store is empty
    again. *)
Theorem no_document_encoded_is_not_no_documents_indexed :
  let encode_fails :=
    query_engine_build world_none_encodes "gs://corpus" "hr-docs" "user-1" true
      empty_state in
  let no_chunk :=
    query_engine_build world_empty_file "gs://corpus" "hr-docs" "user-1" true
      empty_state in
  let read_fails :=
    query_engine_build world_unsupported "gs://corpus" "hr-docs" "user-1" true
      empty_state in
  fst encode_fails = Raise (InternalServerError (InternalServerError ValueError)) /\
  fst no_chunk = Raise (InternalServerError (InternalServerError UnboundLocalError)) /\
  fst read_fails
  = Raise (InternalServerError (InternalServerError NoDocumentsIndexedException)) /\
  root_cause (InternalServerError (InternalServerError ValueError))
  <> NoDocumentsIndexedException /\
  find_engine "hr-docs" (snd encode_fails) = None /\
  find_engine "hr-docs" (snd no_chunk) = None /\
  engines (snd encode_fails) = [] /\
  documents (snd encode_fails) = [] /\
  doc_chunks (snd encode_fails) = [].
Proof.
  cbv zeta. repeat split; try (vm_compute; reflexivity).
  vm_compute. discriminate.
Qed.

(* ================================================================== *)
(** ** A chunk that fails to encode *)

(** C6, where the code departs from it.  The request for the embedding of
    the one text ["alpha"] fails.  [_encode_texts_to_embeddings] keeps the
    contract: it returns the list of one failed marker.  But
    [_get_embedding_batched], having collected that list and derived the
    mask [[False]] from it, raises ValueError: [np.stack] is given no
    array.  It raises on the empty list of texts likewise.  A failed chunk
    is tolerated only when another chunk of the call succeeds: of six texts
    whose first batch fails, the mask marks the five failed ones and the
    call returns. *)
Theorem failed_chunk_makes_batched_encoder_raise :
  _encode_texts_to_embeddings world_first_fails ["alpha"] = Ok [None] /\
  embeddings_list_of world_first_fails ["alpha"] ITEMS_PER_REQUEST = Ok [None] /\
  is_successful_of ["alpha"] [None] = [false] /\
  _get_embedding_batched world_first_fails ["alpha"] ITEMS_PER_REQUEST = Raise ValueError /\
  _get_embedding_batched world_first_fails [] ITEMS_PER_REQUEST = Raise ValueError /\
  _get_embedding_batched world_first_fails ["alpha"; "b"; "c"; "d"; "e"; "f"]
    ITEMS_PER_REQUEST
  = Ok ([false; false; false; false; false; true], [sample_vector]).
Proof. repeat split; vm_compute; reflexivity. Qed.

(* ================================================================== *)
(** ** Chunking, section by section *)






